(** * EXLA client: device buffers, executables and infeed/outfeed

    A shallow embedding of [exla/c_src/exla/exla_client.cc].  The file wraps
    the PjRt runtime of XLA: [ExlaBuffer] owns one [xla::PjRtBuffer],
    [ExlaExecutable] owns one [xla::PjRtExecutable] and [ExlaClient] shares
    one [xla::PjRtClient].  The runtime is not part of the file, so its
    objects are records of methods whose results are left free; the code of
    the file is translated function by function on top of them, in a state
    and error monad over the device heap, the resources of the calling NIF
    environment and the log of runtime calls. *)

From Stdlib Require Import ZArith List String Bool Lia.
From Stdlib Require Import Init.Byte.
From stdpp Require Import base list.
Import ListNotations.
Local Open Scope string_scope.
Local Open Scope Z_scope.
Local Open Scope list_scope.

(** ** Status values ([xla::Status], [xla::StatusOr<T>]) *)

Inductive StatusCode : Type :=
| CANCELLED | UNKNOWN | INVALID_ARGUMENT | DEADLINE_EXCEEDED | NOT_FOUND
| ALREADY_EXISTS | PERMISSION_DENIED | RESOURCE_EXHAUSTED
| FAILED_PRECONDITION | ABORTED | OUT_OF_RANGE | UNIMPLEMENTED | INTERNAL
| UNAVAILABLE | DATA_LOSS | UNAUTHENTICATED.

Record Error : Type := mkError { code : StatusCode; error_message : string }.

Inductive Status : Type :=
| OK
| NotOK (e : Error).

Inductive StatusOr (A : Type) : Type :=
| Value (a : A)
| Failure (e : Error).
Arguments Value {A} a.
Arguments Failure {A} e.

Definition InvalidArgument (msg : string) : Error := mkError INVALID_ARGUMENT msg.
Definition FailedPrecondition (msg : string) : Error := mkError FAILED_PRECONDITION msg.

(** ** Shapes and literals ([xla::Shape], [xla::Literal]) *)

Inductive PrimitiveType : Type :=
| PRED | S8 | S16 | S32 | S64 | U8 | U16 | U32 | U64
| F16 | F32 | BF16 | F64 | C64 | C128 | TUPLE | OPAQUE_TYPE | TOKEN.

(** A shape has an element type, dimensions, the shapes of its elements when
    it is a tuple, and an optional layout (the minor-to-major order). *)
#[warnings="-register-all"]
Inductive Shape : Type :=
  mkShape { element_type : PrimitiveType;
            dimensions : list Z;
            tuple_shapes : list Shape;
            layout : option (list Z) }.

Definition IsTuple (s : Shape) : bool :=
  match element_type s with TUPLE => true | _ => false end.

(** [xla::ShapeUtil::IsNestedTuple]: a tuple one of whose elements is a tuple. *)
Definition IsNestedTuple (s : Shape) : bool :=
  IsTuple s && existsb IsTuple (tuple_shapes s).


(** The default layout of [rank] dimensions: major to minor, [rank-1 .. 0]. *)
Definition default_layout (rank : nat) : list Z :=
  rev (map Z.of_nat (seq 0 rank)).

(** [xla::ShapeUtil::MakeShape(element_type, dimensions)]: the array shape
    with these dimensions and the default layout. *)
Definition MakeShape (et : PrimitiveType) (dims : list Z) : Shape :=
  mkShape et dims [] (Some (default_layout (length dims))).

(** [xla::LayoutUtil::ClearLayout]: drops the layout of the shape and of
    every shape below it. *)
Fixpoint ClearLayout (s : Shape) : Shape :=
  match s with
  | mkShape et dims ts _ => mkShape et dims (map ClearLayout ts) None
  end.

Record Literal : Type := mkLiteral { literal_shape : Shape; untyped_data : list byte }.

Definition size_bytes (l : Literal) : Z := Z.of_nat (length (untyped_data l)).

(** [xla::BorrowingLiteral]: a literal over host memory it does not own, one
    pointer per tuple element, or one pointer for an array.  The constructor
    is library code: it reads nothing behind the pointers and is meant to be
    given as many of them as the tuple has elements.  Here it builds the
    literal from the pointers as they are given; what it does with another
    number of pointers is not part of this file, and the statements on tuple
    transfers ask for one binary per element. *)
Record BorrowingLiteral : Type :=
  mkBorrowingLiteral { borrowed_bufs : list (list byte); borrowed_shape : Shape }.

(** ** Buffers, terms of the host runtime, and the world *)

(** [ExlaBuffer]: the owned [PjRtBuffer], named by its place in the device
    heap, and the flag given at construction.  Neither field changes after
    construction, so an [ExlaBuffer*] is modelled by the record itself. *)
Record ExlaBuffer : Type :=
  mkExlaBuffer { buffer_ : nat; can_be_released_after_run_ : bool }.

(** Modelled from the spec: the accessors [buffer()] and
    [release_after_run()] and the default of the constructor's flag are
    declared in exla_client.h, which is not among the sources.  The
    accessors read the two fields; the flag marks a transient input
    materialized from host bytes, so a buffer built without it, as the
    outputs of an execution are, is not to be released after the run. *)
Definition buffer (b : ExlaBuffer) : nat := buffer_ b.
Definition release_after_run (b : ExlaBuffer) : bool := can_be_released_after_run_ b.
Definition default_can_be_released_after_run : bool := false.

(** [ERL_NIF_TERM]: the terms this file reads and builds.  [TShape] and
    [TBuffer] are resource terms, made by [nif::make<T>] and read back by
    [nif::get<T>]. *)
#[warnings="-register-all"]
Inductive term : Type :=
| TAtom (name : string)
| TInt (n : Z)
| TString (s : string)
| TBinary (data : list byte)
| TTuple (elems : list term)
| TList (elems : list term)
| TShape (s : Shape)
| TBuffer (b : ExlaBuffer).

(** Modelled from the spec: [nif::ok] and [nif::error] are declared in
    exla_nif_util.h, which is not among the sources.  A result is tagged
    with a success marker and a failure surfaces the error: the terms
    [{:ok, t}] and [{:error, message}]. *)
Definition nif_ok (t : term) : term := TTuple [TAtom "ok"; t].
Definition nif_error (msg : string) : term := TTuple [TAtom "error"; TString msg].

(** What the runtime decides about a buffer it creates: its on-device shape,
    the status its transfer or computation ends with, and what reading it
    back to the host yields. *)
Record BufferContents : Type :=
  mkContents { contents_shape : Shape;
               contents_ready : Status;
               contents_value : StatusOr Literal }.

(** One [xla::PjRtBuffer] of the device heap.  [is_deleted] is what
    [IsDeleted()] reports and [Delete()] sets; [freed] records that the
    owning [unique_ptr] was destroyed. *)
Record PjRtBuffer : Type :=
  mkPjRtBuffer { contents : BufferContents;
                 is_deleted : bool;
                 freed : bool }.

Definition on_device_shape (pb : PjRtBuffer) : Shape := contents_shape (contents pb).

Record ExecuteOptions : Type :=
  mkExecuteOptions { untuple_result : bool; strict_shape_checking : bool }.

(** [xla::XlaComputation] and [xla::ExecutableBuildOptions] are passed
    through to the runtime untouched. *)
Record XlaComputation : Type := mkXlaComputation { computation_proto : list byte }.
Record ExecutableBuildOptions : Type :=
  mkBuildOptions { num_replicas : Z; num_partitions : Z }.

Record CompileOptions : Type :=
  mkCompileOptions {
    argument_layouts : list Shape;
    parameter_is_tupled_arguments : bool;
    executable_build_options : ExecutableBuildOptions;
    compile_portable_executable : bool }.

(** The calls made to the runtime and to the host environment, in order.
    [EvBufferFromHostBuffer] carries the buffer the transfer created, if it
    was accepted; [EvResults] records the buffers an execution handed back,
    one list per replica. *)
Inductive Event : Type :=
| EvLookupDevice (id : Z)
| EvBufferFromHostBuffer (data : list byte) (shape : Shape) (device : Z)
    (created : option nat)
| EvBlockHostUntilReady (h : nat)
| EvToLiteral (h : nat)
| EvDelete (h : nat)
| EvDestroy (h : nat)
| EvMakeResource (b : ExlaBuffer)
| EvCompile (computation : XlaComputation) (options : CompileOptions)
| EvExecutableFingerprint
| EvExecutePortable (args : list nat) (device : Z) (options : ExecuteOptions)
| EvExecute (args : list (list nat)) (options : ExecuteOptions)
| EvResults (replicas : list (list nat))
| EvTransferToInfeed (device : Z) (literal : BorrowingLiteral)
| EvTransferFromOutfeed (device : Z) (shape : Shape).

Record World : Type :=
  mkWorld { buffers : list PjRtBuffer;
            env_resources : list ExlaBuffer;
            trace : list Event }.

(** ** The monad of the translation

    A call returns a value, returns a non-OK status, or does not return at
    all ([Aborts]: an uncaught exception or an access the language leaves
    undefined).  The world is kept in every case. *)

Inductive Outcome (A : Type) : Type :=
| Returns (a : A)
| Fails (e : Error)
| Aborts.
Arguments Returns {A} a.
Arguments Fails {A} e.
Arguments Aborts {A}.

Definition M (A : Type) : Type := World -> Outcome A * World.

Definition ret {A} (a : A) : M A := fun w => (Returns a, w).
Definition fail {A} (e : Error) : M A := fun w => (Fails e, w).
Definition abort {A} : M A := fun w => (Aborts, w).

Definition bind {A B} (m : M A) (k : A -> M B) : M B :=
  fun w =>
    match m w with
    | (Returns a, w') => k a w'
    | (Fails e, w') => (Fails e, w')
    | (Aborts, w') => (Aborts, w')
    end.

Notation "'let*' x ':=' m 'in' k" := (bind m (fun x => k))
  (at level 10, x binder, m at level 100, k at level 200).
Notation "'do*' m 'in' k" := (bind m (fun _ => k))
  (at level 10, m at level 100, k at level 200).

Definition of_status (s : Status) : M unit :=
  match s with OK => ret tt | NotOK e => fail e end.

Definition of_status_or {A} (s : StatusOr A) : M A :=
  match s with Value a => ret a | Failure e => fail e end.

(** Modelled from the spec: the macros [EXLA_ASSIGN_OR_RETURN],
    [EXLA_EFFECT_OR_RETURN] and their [_NIF] variants are declared in
    exla_nif_util.h, which is not among the sources.  Every operation yields
    a result or an error, and a failure aborts the call and surfaces the
    error.  The first two leave the function with the status when it is not
    OK: this is [bind].  The [_NIF] variants, which take the environment,
    leave the function with the error term made from the status message.
    [unwind] stands for the destructors of the locals that still own
    something at that early return. *)
Definition EXLA_ASSIGN_OR_RETURN_NIF {A} (rexpr : M A) (unwind : M unit)
    (k : A -> M term) : M term :=
  fun w =>
    match rexpr w with
    | (Returns a, w') => k a w'
    | (Fails e, w') =>
        (let* _u := unwind in ret (nif_error (error_message e))) w'
    | (Aborts, w') => (Aborts, w')
    end.

Definition emit (e : Event) : M unit :=
  fun w => (Returns tt, mkWorld (buffers w) (env_resources w) (trace w ++ [e])).

Definition get_world : M World := fun w => (Returns w, w).

(** ** The PjRt buffer methods used by the file *)

(** Following the pointer to a buffer: undefined when it names no buffer or
    one that was freed. *)
Definition deref (h : nat) : M PjRtBuffer :=
  fun w =>
    match buffers w !! h with
    | Some pb => if freed pb then (Aborts, w) else (Returns pb, w)
    | None => (Aborts, w)
    end.

Definition store (h : nat) (pb : PjRtBuffer) : M unit :=
  fun w => (Returns tt, mkWorld (<[h := pb]> (buffers w)) (env_resources w) (trace w)).

Definition alloc (c : BufferContents) : M nat :=
  fun w => (Returns (length (buffers w)),
            mkWorld (buffers w ++ [mkPjRtBuffer c false false]) (env_resources w) (trace w)).

Definition PjRtBuffer_IsDeleted (h : nat) : M bool :=
  let* pb := deref h in ret (is_deleted pb).

Definition PjRtBuffer_Delete (h : nat) : M unit :=
  let* pb := deref h in
  do* store h (mkPjRtBuffer (contents pb) true (freed pb)) in
  emit (EvDelete h).

(** A deleted buffer has no device memory left to wait for or to read. *)
Definition PjRtBuffer_BlockHostUntilReady (h : nat) : M unit :=
  do* emit (EvBlockHostUntilReady h) in
  let* pb := deref h in
  if is_deleted pb
  then fail (InvalidArgument "BlockHostUntilReady() called on deleted or donated buffer")
  else of_status (contents_ready (contents pb)).

Definition PjRtBuffer_ToLiteral (h : nat) : M Literal :=
  do* emit (EvToLiteral h) in
  let* pb := deref h in
  if is_deleted pb
  then fail (InvalidArgument "ToLiteral() called on deleted or donated buffer")
  else of_status_or (contents_value (contents pb)).

(** The destructor of the owning [unique_ptr<PjRtBuffer>]. *)
Definition PjRtBuffer_destroy (h : nat) : M unit :=
  let* pb := deref h in
  do* store h (mkPjRtBuffer (contents pb) true true) in
  emit (EvDestroy h).

(** [nif::make<ExlaBuffer*>(env, buf)]: the buffer becomes a resource of the
    calling environment and the term refers to it. *)
Definition nif_make_buffer (b : ExlaBuffer) : M term :=
  fun w => (Returns (TBuffer b),
            mkWorld (buffers w) (env_resources w ++ [b]) (trace w ++ [EvMakeResource b])).

(** ** The PjRt objects behind the client

    The methods of [xla::PjRtDevice], [xla::PjRtExecutable] and
    [xla::PjRtClient] that the file calls.  Their results may depend on the
    world; the buffers they create are described by their contents and are
    placed in the heap by the caller below.  [pjrt_ByteSizeOf] is the number
    of bytes a value of a shape takes on the host: it is what the runtime
    reads from an address it is given together with a shape. *)

Record PjRtDevice : Type :=
  mkPjRtDevice {
    device_id : Z;
    device_TransferToInfeed : World -> BorrowingLiteral -> Status;
    device_TransferFromOutfeed : World -> Shape -> StatusOr Literal }.

Record PjRtExecutable : Type :=
  mkPjRtExecutable {
    pjrt_ExecutePortable :
      World -> list nat -> Z -> ExecuteOptions -> StatusOr (list BufferContents);
    pjrt_Execute :
      World -> list (list nat) -> ExecuteOptions -> StatusOr (list (list BufferContents)) }.

Record PjRtClient : Type :=
  mkPjRtClient {
    pjrt_LookupDevice : Z -> StatusOr PjRtDevice;
    pjrt_ByteSizeOf : Shape -> nat;
    pjrt_BufferFromHostBuffer :
      World -> list byte -> Shape -> Z -> StatusOr BufferContents;
    pjrt_Compile : XlaComputation -> CompileOptions -> StatusOr PjRtExecutable;
    pjrt_ExecutableFingerprint : PjRtExecutable -> StatusOr (option string) }.

Record ExlaClient : Type := mkExlaClient { client_ : PjRtClient }.

(** Modelled from the spec: the accessor [client()] is declared in
    exla_client.h, which is not among the sources; it hands out the runtime
    handle the client owns. *)
Definition client (c : ExlaClient) : PjRtClient := client_ c.

(** [ExlaExecutable]: the compiled program, its optional fingerprint and the
    client it came from (the field [client_] of the class). *)
Record ExlaExecutable : Type :=
  mkExlaExecutable {
    executable_ : PjRtExecutable;
    fingerprint_ : option string;
    exe_client_ : ExlaClient }.

Definition LookupDevice (c : PjRtClient) (id : Z) : M PjRtDevice :=
  do* emit (EvLookupDevice id) in
  of_status_or (pjrt_LookupDevice c id).

(** [PjRtClient::BufferFromHostBuffer(data, shape, ...)] is given the
    address of the host bytes and the shape, not the number of bytes behind
    the address.  The runtime reads the bytes of a value of the shape from
    there: these are the first bytes of [data] when it holds that many, and
    the read runs past the end of the binary, which is undefined, when it
    holds fewer.  The event names the binary whose address was passed. *)
Definition BufferFromHostBuffer (c : PjRtClient) (data : list byte) (shape : Shape)
    (device : PjRtDevice) : M nat :=
  let size := pjrt_ByteSizeOf c shape in
  if (length data <? size)%nat
  then abort
  else
    let* w := get_world in
    match pjrt_BufferFromHostBuffer c w (take size data) shape (device_id device) with
    | Value cts =>
        let* h := alloc cts in
        do* emit (EvBufferFromHostBuffer data shape (device_id device) (Some h)) in
        ret h
    | Failure e =>
        do* emit (EvBufferFromHostBuffer data shape (device_id device) None) in
        fail e
    end.

(** The buffers a run produced are placed in the heap in order. *)
Fixpoint alloc_all (cs : list BufferContents) : M (list nat) :=
  match cs with
  | [] => ret []
  | c :: cs' => let* h := alloc c in let* hs := alloc_all cs' in ret (h :: hs)
  end.

Fixpoint alloc_replicas (css : list (list BufferContents)) : M (list (list nat)) :=
  match css with
  | [] => ret []
  | cs :: css' => let* hs := alloc_all cs in let* hss := alloc_replicas css' in ret (hs :: hss)
  end.

Definition ExecutePortable (e : PjRtExecutable) (args : list nat) (device : PjRtDevice)
    (options : ExecuteOptions) : M (list nat) :=
  do* emit (EvExecutePortable args (device_id device) options) in
  let* w := get_world in
  let* cs := of_status_or (pjrt_ExecutePortable e w args (device_id device) options) in
  let* hs := alloc_all cs in
  do* emit (EvResults [hs]) in
  ret hs.

Definition Execute (e : PjRtExecutable) (args : list (list nat))
    (options : ExecuteOptions) : M (list (list nat)) :=
  do* emit (EvExecute args options) in
  let* w := get_world in
  let* css := of_status_or (pjrt_Execute e w args options) in
  let* hss := alloc_replicas css in
  do* emit (EvResults hss) in
  ret hss.

Definition TransferToInfeed_device (device : PjRtDevice) (literal : BorrowingLiteral) : M unit :=
  do* emit (EvTransferToInfeed (device_id device) literal) in
  let* w := get_world in
  of_status (device_TransferToInfeed device w literal).

Definition TransferFromOutfeed_device (device : PjRtDevice) (shape : Shape) : M Literal :=
  do* emit (EvTransferFromOutfeed (device_id device) shape) in
  let* w := get_world in
  of_status_or (device_TransferFromOutfeed device w shape).

(** ** The code of exla_client.cc *)

Section ExlaClient.

(** [xla::LayoutUtil::LayoutsInShapesEqual] and [xla::Literal::Relayout]
    are used as the library gives them. *)
Variable LayoutsInShapesEqual : Shape -> Shape -> bool.
Variable Relayout : Literal -> Shape -> Literal.

(** [CopyLiteralToBinary] (lines 15-20): the bytes the new binary holds. *)
Definition CopyLiteralToBinary (literal : Literal) (size : Z) : list byte :=
  let actual_size := size_bytes literal in
  let size := if (size <? 0) || (size >? actual_size) then actual_size else size in
  take (Z.to_nat size) (untyped_data literal).

(** [ExlaBuffer::ToBinary] (lines 22-38). *)
Definition ToBinary (b : ExlaBuffer) (size : Z) : M term :=
  do* PjRtBuffer_BlockHostUntilReady (buffer_ b) in
  let* literal := PjRtBuffer_ToLiteral (buffer_ b) in
  let* pb := deref (buffer_ b) in
  let host_shape :=
    MakeShape (element_type (on_device_shape pb)) (dimensions (on_device_shape pb)) in
  if LayoutsInShapesEqual host_shape (literal_shape literal)
  then ret (TBinary (CopyLiteralToBinary literal size))
  else
    let new_literal := Relayout literal host_shape in
    ret (TBinary (CopyLiteralToBinary new_literal size)).

(** [ExlaBuffer::BlockHostUntilReady] (lines 40-42). *)
Definition BlockHostUntilReady (b : ExlaBuffer) : M unit :=
  PjRtBuffer_BlockHostUntilReady (buffer_ b).

(** [ExlaBuffer::Deallocate] (lines 44-52). *)
Definition Deallocate (b : ExlaBuffer) : M unit :=
  let* deleted := PjRtBuffer_IsDeleted (buffer_ b) in
  if deleted
  then fail (FailedPrecondition "Attempt to deallocate already deallocated buffer.")
  else
    do* PjRtBuffer_Delete (buffer_ b) in
    ret tt.

(** [ExlaClient::BufferFromBinary] (lines 173-183). *)
Definition BufferFromBinary (c : ExlaClient) (binary : list byte) (shape : Shape)
    (device_id : Z) (can_be_released_after_run : bool) : M ExlaBuffer :=
  let* device := LookupDevice (client_ c) device_id in
  let* buffer := BufferFromHostBuffer (client_ c) binary shape device in
  ret (mkExlaBuffer buffer can_be_released_after_run).

(** [tuple[i]] on the array [enif_get_tuple] hands out: reading past the
    arity is undefined. *)
Definition tuple_at (tuple : list term) (i : nat) : M term :=
  match tuple !! i with
  | Some t => ret t
  | None => abort
  end.

(** The loop of [UnpackRunArguments] (lines 67-93) over the cells of the
    argument list. *)
Fixpoint UnpackRunArguments_loop (arguments : list term) (c : ExlaClient)
    (device_id : Z) (arg_buffers : list ExlaBuffer) : M (list ExlaBuffer) :=
  match arguments with
  | [] => ret arg_buffers
  | head :: tail =>
      match head with
      | TTuple tuple =>
          let* t0 := tuple_at tuple 0 in
          match t0 with
          | TBinary data =>
              let* t1 := tuple_at tuple 1 in
              match t1 with
              | TShape shape =>
                  let* buf := BufferFromBinary c data shape device_id true in
                  UnpackRunArguments_loop tail c device_id (arg_buffers ++ [buf])
              | _ => fail (InvalidArgument "Expected argument to be shape reference.")
              end
          | _ => fail (InvalidArgument "Expected argument to be binary.")
          end
      | TBuffer buffer =>
          UnpackRunArguments_loop tail c device_id (arg_buffers ++ [buffer])
      | _ => fail (InvalidArgument "Expected argument to be buffer reference.")
      end
  end.

(** [UnpackRunArguments] (lines 54-96). *)
Definition UnpackRunArguments (arguments : term) (c : ExlaClient) (device_id : Z)
    : M (list ExlaBuffer) :=
  match arguments with
  | TList cells => UnpackRunArguments_loop cells c device_id []
  | _ => fail (InvalidArgument "Argument is not a list.")
  end.

Fixpoint destroy_all (hs : list nat) : M unit :=
  match hs with
  | [] => ret tt
  | h :: hs' => do* PjRtBuffer_destroy h in destroy_all hs'
  end.

(** The loop of [UnpackResult] (lines 101-111) and its return (line 112).
    [new ExlaBuffer(std::move(pjrt_buf))] leaves the flag at its default.
    When [ToBinary] fails the function is left at once: [buf] is not
    deleted, and the buffers still held by [result] are destroyed with it.
    Line 112 makes the list from the array at [&terms[0]] and the length
    [terms.size()].  With no result buffer the vector is empty: the length
    is 0 and the list made is the empty one, which is the value given here,
    but [terms[0]] then names an element that does not exist, which the
    language does not define.  The statements on calls that do not abort
    are therefore about executions that hand back at least one buffer
    ([some_results] below). *)
Fixpoint UnpackResult_loop (result : list nat) (keep_on_device : bool)
    (terms : list term) : M term :=
  match result with
  | [] => ret (nif_ok (TTuple [TList terms; TInt 0]))
  | pjrt_buf :: rest =>
      let buf := mkExlaBuffer pjrt_buf default_can_be_released_after_run in
      if keep_on_device
      then
        let* term := nif_make_buffer buf in
        UnpackResult_loop rest keep_on_device (terms ++ [term])
      else
        EXLA_ASSIGN_OR_RETURN_NIF (ToBinary buf (-1)) (destroy_all rest) (fun term =>
        do* PjRtBuffer_destroy (buffer_ buf) in
        UnpackResult_loop rest keep_on_device (terms ++ [term]))
  end.

(** [UnpackResult] (lines 98-113). *)
Definition UnpackResult (result : list nat) (keep_on_device : bool) : M term :=
  UnpackResult_loop result keep_on_device [].

(** The loop of [Run] over the input buffers (lines 142-154).  A failed wait
    leaves [Run] through [EXLA_EFFECT_OR_RETURN_NIF]; here it is the failure
    of the loop, turned into the error term where [Run] runs the loop. *)
Fixpoint Run_inputs (input_buffers : list ExlaBuffer) (pjrt_buffers : list nat)
    : M (list nat) :=
  match input_buffers with
  | [] => ret pjrt_buffers
  | buf :: rest =>
      let pjrt_buffers := pjrt_buffers ++ [buffer buf] in
      if release_after_run buf
      then
        do* BlockHostUntilReady buf in
        let* _term := nif_make_buffer buf in
        Run_inputs rest pjrt_buffers
      else Run_inputs rest pjrt_buffers
  end.

(** [result.at(0)]: throws when there is no first element. *)
Definition at_0 {A} (v : list A) : M A :=
  match v with
  | x :: _ => ret x
  | [] => abort
  end.

(** The dispatch of [Run] (lines 156-168).  In the second branch the
    replicas other than the first stay in [result] and are destroyed when
    the block is left. *)
Definition Run_dispatch (e : ExlaExecutable) (pjrt_buffers : list nat)
    (keep_on_device : bool) (device_id : Z) (options : ExecuteOptions) : M term :=
  if 0 <=? device_id
  then
    EXLA_ASSIGN_OR_RETURN_NIF
      (LookupDevice (client (exe_client_ e)) device_id) (ret tt) (fun device =>
    EXLA_ASSIGN_OR_RETURN_NIF
      (ExecutePortable (executable_ e) pjrt_buffers device options) (ret tt) (fun result =>
    EXLA_ASSIGN_OR_RETURN_NIF (UnpackResult result keep_on_device) (ret tt) (fun r =>
    ret r)))
  else
    let inputs := [pjrt_buffers] in
    EXLA_ASSIGN_OR_RETURN_NIF (Execute (executable_ e) inputs options) (ret tt) (fun result =>
    let* first := at_0 result in
    EXLA_ASSIGN_OR_RETURN_NIF
      (UnpackResult first keep_on_device) (destroy_all (concat (tail result))) (fun r =>
    do* destroy_all (concat (tail result)) in
    ret r)).

(** [ExlaExecutable::Run] (lines 121-169). *)
Definition Run (e : ExlaExecutable) (arguments : term) (keep_on_device : bool)
    (device_id : Z) : M term :=
  let options := mkExecuteOptions true false in
  EXLA_ASSIGN_OR_RETURN_NIF
    (if 0 <=? device_id
     then UnpackRunArguments arguments (exe_client_ e) device_id
     else UnpackRunArguments arguments (exe_client_ e) 0) (ret tt) (fun input_buffers =>
  EXLA_ASSIGN_OR_RETURN_NIF (Run_inputs input_buffers []) (ret tt) (fun pjrt_buffers =>
  Run_dispatch e pjrt_buffers keep_on_device device_id options)).

(** [ExlaClient::Compile] (lines 185-209). *)
Definition Compile (c : ExlaClient) (computation : XlaComputation)
    (argument_layouts : list Shape) (options : ExecutableBuildOptions)
    (compile_portable_executable : bool) : M ExlaExecutable :=
  let layouts :=
    map (fun shape =>
           let cpy_shape := MakeShape (element_type shape) (dimensions shape) in
           ClearLayout cpy_shape) argument_layouts in
  let compile_opts := mkCompileOptions layouts false options compile_portable_executable in
  let* executable :=
    (do* emit (EvCompile computation compile_opts) in
     of_status_or (pjrt_Compile (client_ c) computation compile_opts)) in
  let* fingerprint :=
    (do* emit EvExecutableFingerprint in
     of_status_or (pjrt_ExecutableFingerprint (client_ c) executable)) in
  ret (mkExlaExecutable executable fingerprint c).

(** The loop of [TransferToInfeed] over the cells of [data] (lines 227-236). *)
Fixpoint infeed_chunks (data : list term) (buf_ptrs : list (list byte))
    : M (list (list byte)) :=
  match data with
  | [] => ret buf_ptrs
  | head :: tail =>
      match head with
      | TBinary tmp_bin => infeed_chunks tail (buf_ptrs ++ [tmp_bin])
      | _ => fail (InvalidArgument "infeed operation expects a list of binaries")
      end
  end.

(** [enif_get_list_cell] fails on a term that is not a non-empty list. *)
Definition list_cells (data : term) : list term :=
  match data with
  | TList cells => cells
  | _ => []
  end.

(** [ExlaClient::TransferToInfeed] (lines 211-264). *)
Definition TransferToInfeed (c : ExlaClient) (data : term) (shape : Shape)
    (device_id : Z) : M unit :=
  if IsTuple shape
  then
    if IsNestedTuple shape
    then fail (InvalidArgument "nested tuples are not supported in infeed operation")
    else
      let* buf_ptrs := infeed_chunks (list_cells data) [] in
      let literal := mkBorrowingLiteral buf_ptrs shape in
      let* device := LookupDevice (client_ c) device_id in
      TransferToInfeed_device device literal
  else
    match list_cells data with
    | [] => fail (InvalidArgument "infeed operation expects a list of binaries")
    | head :: _tail =>
        match head with
        | TBinary binary =>
            let literal := mkBorrowingLiteral [binary] shape in
            let* device := LookupDevice (client_ c) device_id in
            TransferToInfeed_device device literal
        | _ => fail (InvalidArgument "infeed operation expects a list of binaries")
        end
    end.

(** [ExlaClient::TransferFromOutfeed] (lines 266-282). *)
Definition TransferFromOutfeed (c : ExlaClient) (device_id : Z) (shape : Shape) : M term :=
  let* device := LookupDevice (client_ c) device_id in
  let* literal := TransferFromOutfeed_device device shape in
  ret (TBinary (take (Z.to_nat (size_bytes literal)) (untyped_data literal))).

End ExlaClient.

(** ** A small runtime to run the code on

    Two devices, 0 and 1.  Transfers keep the bytes they are given, infeed
    accepts everything, outfeed yields four bytes.  The executable returns
    one buffer holding [bytes16], on one replica ([ExecutePortable]) or on
    two replicas ([Execute]). *)

Module Sample.

Definition f32_4 : Shape := MakeShape F32 [4].
Definition pair_shape : Shape := mkShape TUPLE [] [f32_4; f32_4] None.
Definition nested_shape : Shape := mkShape TUPLE [] [f32_4; pair_shape] None.

Definition device (id : Z) : PjRtDevice :=
  mkPjRtDevice id
    (fun _ _ => OK)
    (fun _ shape => Value (mkLiteral shape [x01; x02; x03; x04])).

Definition not_found : Error := mkError NOT_FOUND "No matching device found".

Definition lookup (id : Z) : StatusOr PjRtDevice :=
  if (0 <=? id) && (id <? 2) then Value (device id) else Failure not_found.

Definition bytes16 : list byte :=
  [x00; x00; x80; x3f; x00; x00; x00; x40; x00; x00; x40; x40; x00; x00; x80; x40].

Definition output : BufferContents :=
  mkContents f32_4 OK (Value (mkLiteral f32_4 bytes16)).

Definition executable : PjRtExecutable :=
  mkPjRtExecutable
    (fun _ _ _ _ => Value [output])
    (fun _ _ _ => Value [[output]; [output]]).

(** The bytes of an array of four-byte elements. *)
Definition byte_size (shape : Shape) : nat :=
  Z.to_nat (4 * fold_right Z.mul 1 (dimensions shape)).

Definition pjrt : PjRtClient :=
  mkPjRtClient lookup byte_size
    (fun _ data shape _ => Value (mkContents shape OK (Value (mkLiteral shape data))))
    (fun _ _ => Value executable)
    (fun _ => Value (Some "fingerprint")).

Definition exla : ExlaClient := mkExlaClient pjrt.

Definition exe : ExlaExecutable := mkExlaExecutable executable None exla.

Definition layouts_equal (a b : Shape) : bool :=
  match layout a, layout b with
  | Some x, Some y => if decide (x = y) then true else false
  | None, None => true
  | _, _ => false
  end.

Definition relayout (l : Literal) (s : Shape) : Literal :=
  mkLiteral s (rev (untyped_data l)).

Definition empty : World := mkWorld [] [] [].

(** A chunk list whose second cell is a binary and whose first is not. *)
Definition atom_then_binary : term := TList [TAtom "a"; TBinary [x01]].

(** A device id the client does not know. *)
Definition unknown_id : Z := 7.

(** Arguments of a run: the host bytes of four floats with their shape, then
    the handle of buffer 0. *)
Definition arguments : term :=
  TList [TTuple [TBinary bytes16; TShape f32_4]; TBuffer (mkExlaBuffer 0 false)].

Definition options : ExecuteOptions := mkExecuteOptions true false.

(** A world with one live buffer, number 0, holding [bytes16]. *)
Definition one_buffer : World :=
  mkWorld [mkPjRtBuffer output false false] [] [].

(** Arguments whose second cell cannot be decoded. *)
Definition bad_second_argument : term :=
  TList [TTuple [TBinary bytes16; TShape f32_4]; TAtom "a"].

(** A buffer whose transfer failed, and one that cannot be read back. *)
Definition failed : Error := mkError INTERNAL "failed".
Definition unready : BufferContents :=
  mkContents f32_4 (NotOK failed) (Value (mkLiteral f32_4 bytes16)).
Definition unreadable : BufferContents := mkContents f32_4 OK (Failure failed).

(** A world with three live buffers: 0 and 2 hold [bytes16], 1 cannot be
    read back. *)
Definition three_buffers : World :=
  mkWorld [mkPjRtBuffer output false false; mkPjRtBuffer unreadable false false;
           mkPjRtBuffer output false false] [] [].

(** A world whose one buffer is live but never becomes ready. *)
Definition unready_buffer : World :=
  mkWorld [mkPjRtBuffer unready false false] [] [].

(** An executable whose default execution hands back no replica. *)
Definition no_replica : PjRtExecutable :=
  mkPjRtExecutable (fun _ _ _ _ => Value [output]) (fun _ _ _ => Value []).
Definition exe_no_replica : ExlaExecutable := mkExlaExecutable no_replica None exla.

(** The shape [f32_4] with another layout and with tuple elements added. *)
Definition f32_4_other : Shape := mkShape F32 [4] [f32_4] (Some [7]).

(** A runtime whose transfers from the host are accepted and then end with
    an error, and arguments that are two host values. *)
Definition pjrt_unready : PjRtClient :=
  mkPjRtClient lookup byte_size
    (fun _ data shape _ =>
       Value (mkContents shape (NotOK failed) (Value (mkLiteral shape data))))
    (fun _ _ => Value executable)
    (fun _ => Value (Some "fingerprint")).
Definition exe_unready : ExlaExecutable :=
  mkExlaExecutable executable None (mkExlaClient pjrt_unready).
Definition two_host_arguments : term :=
  TList [TTuple [TBinary bytes16; TShape f32_4]; TTuple [TBinary bytes16; TShape f32_4]].

End Sample.

(** ** Predicates used by the statements *)

(** The events a call added to the log. *)
Definition new_events (w w' : World) : list Event :=
  drop (length (trace w)) (trace w').

(** Buffer [h] exists and its memory was not freed. *)
Definition live (w : World) (h : nat) : Prop :=
  exists pb, buffers w !! h = Some pb /\ freed pb = false.

Definition is_freed (w : World) (h : nat) : Prop :=
  exists pb, buffers w !! h = Some pb /\ freed pb = true.

(** [dev] is the device the client's lookup returns for [id]. *)
Definition resolved (c : PjRtClient) (id dev : Z) : Prop :=
  exists device, pjrt_LookupDevice c id = Value device /\ dev = device_id device.

(** How a call may change the world: it appends events, all in [P], it
    appends resources, and it keeps every buffer in its place with its
    contents; a buffer once deleted or freed stays so. *)
Definition evolves (P : Event -> Prop) (w w' : World) : Prop :=
  (exists t, trace w' = trace w ++ t /\ Forall P t) /\
  (exists rs, env_resources w' = env_resources w ++ rs) /\
  (forall h pb, buffers w !! h = Some pb ->
     exists pb', buffers w' !! h = Some pb' /\ contents pb' = contents pb /\
                 (is_deleted pb = true -> is_deleted pb' = true) /\
                 (freed pb = true -> freed pb' = true)).

Definition steps {A} (P : Event -> Prop) (m : M A) : Prop :=
  forall w r w', m w = (r, w') -> evolves P w w'.

(** The events that use a device. *)
Definition uses_device (ev : Event) : Prop :=
  match ev with
  | EvBufferFromHostBuffer _ _ _ _ | EvExecutePortable _ _ _
  | EvTransferToInfeed _ _ | EvTransferFromOutfeed _ _ => True
  | _ => False
  end.

(** The events of a device used are on the device resolved from [id]. *)
Definition on_resolved_device (c : PjRtClient) (id : Z) (ev : Event) : Prop :=
  match ev with
  | EvBufferFromHostBuffer _ _ dev _ | EvExecutePortable _ dev _
  | EvTransferToInfeed dev _ | EvTransferFromOutfeed dev _ => resolved c id dev
  | _ => True
  end.

Definition is_execution (ev : Event) : Prop :=
  match ev with
  | EvExecutePortable _ _ _ | EvExecute _ _ => True
  | _ => False
  end.

(** The events [Run] may log, by its flags: lookups and transfers go to
    [device_id], or to device 0 when it is negative; the portable execution
    belongs to the first case and the default one to the second; values are
    read back only when they are not kept on the device. *)
Definition Run_event (c : PjRtClient) (keep_on_device : bool) (device_id : Z)
    (ev : Event) : Prop :=
  match ev with
  | EvLookupDevice id => id = (if 0 <=? device_id then device_id else 0)
  | EvBufferFromHostBuffer _ _ dev _ =>
      resolved c (if 0 <=? device_id then device_id else 0) dev
  | EvExecutePortable _ dev options =>
      0 <= device_id /\ resolved c device_id dev /\
      options = mkExecuteOptions true false
  | EvExecute args options =>
      device_id < 0 /\ length args = 1%nat /\ options = mkExecuteOptions true false
  | EvResults replicas => 0 <= device_id -> length replicas = 1%nat
  | EvToLiteral _ => keep_on_device = false
  | EvBlockHostUntilReady _ | EvDestroy _ | EvMakeResource _ => True
  | _ => False
  end.

(** An argument of [Run] that can be decoded without reading outside a
    tuple or through a dangling buffer. *)
Definition wf_argument (w : World) (t : term) : Prop :=
  match t with
  | TTuple elems => (2 <= length elems)%nat
  | TBuffer b => release_after_run b = true -> live w (buffer b)
  | _ => True
  end.

Definition wf_arguments (w : World) (arguments : term) : Prop :=
  Forall (wf_argument w) (list_cells arguments).

(** Host bytes given with a shape hold at least the bytes of a value of the
    shape, so that the runtime reads within the binary. *)
Definition sized_argument (c : PjRtClient) (t : term) : Prop :=
  match t with
  | TTuple (TBinary data :: TShape shape :: _) => (pjrt_ByteSizeOf c shape <= length data)%nat
  | _ => True
  end.

Definition sized_arguments (c : PjRtClient) (arguments : term) : Prop :=
  Forall (sized_argument c) (list_cells arguments).

(** Every result set the executable hands back holds at least one buffer. *)
Definition some_results (e : PjRtExecutable) : Prop :=
  (forall w args dev options cs,
     pjrt_ExecutePortable e w args dev options = Value cs -> cs <> []) /\
  (forall w args options css,
     pjrt_Execute e w args options = Value css -> Forall (fun cs => cs <> []) css).

(** Which buffer of [Run]'s inputs stands for which argument: a handle
    stands for itself; host bytes with a shape stand for a buffer to release
    after the run, created (at or after place [base] of the heap) by a
    transfer of those bytes logged in [events]. *)
Definition input_of (base : nat) (events : list Event) (t : term) (b : ExlaBuffer)
    : Prop :=
  match t with
  | TBuffer b' => b = b'
  | TTuple (TBinary data :: TShape shape :: _) =>
      release_after_run b = true /\ (base <= buffer b)%nat /\
      exists dev, In (EvBufferFromHostBuffer data shape dev (Some (buffer b))) events
  | _ => False
  end.

Definition is_results (ev : Event) : Prop :=
  match ev with EvResults _ => True | _ => False end.

Definition is_readback (ev : Event) : Prop :=
  match ev with EvToLiteral _ => True | _ => False end.

Definition is_binary_term (t : term) : Prop := exists data, t = TBinary data.
Definition is_buffer_term (t : term) : Prop := exists b, t = TBuffer b.

(** The [{:ok, {outputs, 0}}] term of a successful run. *)
Definition run_ok (outs : list term) : term := nif_ok (TTuple [TList outs; TInt 0]).

(** The events of the loop of [Run] over inputs it gets through: a wait and
    a resource for each input tagged for release, in order. *)
Definition input_events (bufs : list ExlaBuffer) : list Event :=
  flat_map (fun b => [EvBlockHostUntilReady (buffer b); EvMakeResource b])
           (List.filter release_after_run bufs).

(** The bytes [ToBinary] copies from: the data of the literal read from the
    buffer, relaid out when its layout is not the host's. *)
Definition host_bytes (LayoutsInShapesEqual : Shape -> Shape -> bool)
    (Relayout : Literal -> Shape -> Literal) (pb : PjRtBuffer) (lit : Literal)
    : list byte :=
  let host_shape :=
    MakeShape (element_type (on_device_shape pb)) (dimensions (on_device_shape pb)) in
  untyped_data (if LayoutsInShapesEqual host_shape (literal_shape lit)
                then lit else Relayout lit host_shape).

(** Output [out] is buffer [h] read back: the binary of all the bytes of the
    buffer's value, in the host layout. *)
Definition read_back (LayoutsInShapesEqual : Shape -> Shape -> bool)
    (Relayout : Literal -> Shape -> Literal) (w : World) (h : nat) (out : term) : Prop :=
  exists pb lit,
    buffers w !! h = Some pb /\
    contents_value (contents pb) = Value lit /\
    out = TBinary (host_bytes LayoutsInShapesEqual Relayout pb lit).

(** The events of reading buffers back one after the other: each is waited
    for, read, and destroyed before the next is touched. *)
Definition read_back_events (hs : list nat) : list Event :=
  flat_map (fun h => [EvBlockHostUntilReady h; EvToLiteral h; EvDestroy h]) hs.

(** ** Inversion of the monad *)

Lemma bind_inv {A B} (m : M A) (k : A -> M B) w r w' :
  bind m k w = (r, w') ->
  (exists a w1, m w = (Returns a, w1) /\ k a w1 = (r, w')) \/
  (exists e, m w = (Fails e, w') /\ r = Fails e) \/
  (m w = (Aborts, w') /\ r = Aborts).
Proof.
  unfold bind. destruct (m w) as [[a|e|] w1]; intros H.
  - left. eauto.
  - right. left. inversion H; subst. eauto.
  - right. right. inversion H; subst. eauto.
Qed.

Lemma nif_inv {A} (m : M A) (u : M unit) (k : A -> M term) w r w' :
  EXLA_ASSIGN_OR_RETURN_NIF m u k w = (r, w') ->
  (exists a w1, m w = (Returns a, w1) /\ k a w1 = (r, w')) \/
  (exists e w1, m w = (Fails e, w1) /\
     bind u (fun _ => ret (nif_error (error_message e))) w1 = (r, w')) \/
  (m w = (Aborts, w') /\ r = Aborts).
Proof.
  unfold EXLA_ASSIGN_OR_RETURN_NIF. destruct (m w) as [[a|e|] w1]; intros H.
  - left. eauto.
  - right. left. eauto.
  - right. right. inversion H; subst. eauto.
Qed.

Lemma new_events_app w w' t : trace w' = trace w ++ t -> new_events w w' = t.
Proof.
  intros H. unfold new_events. rewrite H. apply drop_app_length.
Qed.

Lemma evolves_refl P w : evolves P w w.
Proof.
  split; [|split].
  - exists []. rewrite app_nil_r. auto.
  - exists []. rewrite app_nil_r. auto.
  - intros h pb H. exists pb. auto.
Qed.

Lemma evolves_trans P w1 w2 w3 : evolves P w1 w2 -> evolves P w2 w3 -> evolves P w1 w3.
Proof.
  intros [[t1 [E1 F1]] [[r1 R1] H1]] [[t2 [E2 F2]] [[r2 R2] H2]].
  split; [|split].
  - exists (t1 ++ t2). rewrite E2, E1, <- app_assoc. split; [done|].
    apply Forall_app; auto.
  - exists (r1 ++ r2). rewrite R2, R1, <- app_assoc. done.
  - intros h pb L. destruct (H1 h pb L) as [pb1 [L1 [C1 [D1 Fr1]]]].
    destruct (H2 h pb1 L1) as [pb2 [L2 [C2 [D2 Fr2]]]].
    exists pb2. repeat split; auto. congruence.
Qed.

Lemma evolves_weaken (P Q : Event -> Prop) w w' :
  (forall ev, P ev -> Q ev) -> evolves P w w' -> evolves Q w w'.
Proof.
  intros PQ [[t [E F]] H]. split; [|exact H].
  exists t. split; [done|]. eapply Forall_impl; eauto.
Qed.

Lemma evolves_new_events P w w' : evolves P w w' -> Forall P (new_events w w').
Proof.
  intros [[t [E F]] _]. rewrite (new_events_app _ _ _ E). exact F.
Qed.

(** ** How the primitive calls change the world *)

Lemma evolves_trace_only P w t :
  Forall P t ->
  evolves P w (mkWorld (buffers w) (env_resources w) (trace w ++ t)).
Proof.
  intros F. split; [|split]; simpl.
  - exists t. auto.
  - exists []. rewrite app_nil_r. auto.
  - intros h pb H. exists pb. auto.
Qed.

Lemma steps_ret {A} P (a : A) : steps P (ret a).
Proof. intros w r w' H. inversion H; subst. apply evolves_refl. Qed.

Lemma steps_fail {A} P e : steps P (@fail A e).
Proof. intros w r w' H. inversion H; subst. apply evolves_refl. Qed.

Lemma steps_abort {A} P : steps P (@abort A).
Proof. intros w r w' H. inversion H; subst. apply evolves_refl. Qed.

Lemma steps_get_world P : steps P get_world.
Proof. intros w r w' H. inversion H; subst. apply evolves_refl. Qed.

Lemma steps_of_status P s : steps P (of_status s).
Proof. destruct s; [apply steps_ret | apply steps_fail]. Qed.

Lemma steps_of_status_or {A} P (s : StatusOr A) : steps P (of_status_or s).
Proof. destruct s; [apply steps_ret | apply steps_fail]. Qed.

Lemma steps_emit P ev : P ev -> steps P (emit ev).
Proof.
  intros Pev w r w' H. inversion H; subst. apply evolves_trace_only. auto.
Qed.

Lemma steps_deref P h : steps P (deref h).
Proof.
  intros w r w'. unfold deref.
  destruct (buffers w !! h) as [pb|]; [destruct (freed pb)|];
    intros H; inversion H; subst; apply evolves_refl.
Qed.

Lemma deref_inv h w r w' :
  deref h w = (r, w') ->
  w' = w /\
  ((exists pb, r = Returns pb /\ buffers w !! h = Some pb /\ freed pb = false) \/
   (r = Aborts /\ ~ live w h)).
Proof.
  unfold deref, live. destruct (buffers w !! h) as [pb|] eqn:L.
  - destruct (freed pb) eqn:F; intros H; inversion H; subst; split; auto.
    + right. split; [done|]. intros [pb' [L' F']]. congruence.
    + left. eauto.
  - intros H; inversion H; subst. split; auto.
    right. split; [done|]. intros [pb' [L' F']]. congruence.
Qed.

Lemma deref_live h w pb :
  buffers w !! h = Some pb -> freed pb = false -> deref h w = (Returns pb, w).
Proof. intros L F. unfold deref. rewrite L, F. done. Qed.

Lemma evolves_store P w h pb pb' :
  buffers w !! h = Some pb ->
  contents pb' = contents pb ->
  (is_deleted pb = true -> is_deleted pb' = true) ->
  (freed pb = true -> freed pb' = true) ->
  evolves P w (mkWorld (<[h := pb']> (buffers w)) (env_resources w) (trace w)).
Proof.
  intros L C D F. split; [|split]; simpl.
  - exists []. rewrite app_nil_r. auto.
  - exists []. rewrite app_nil_r. auto.
  - intros h0 pb0 L0. destruct (decide (h = h0)) as [->|Hne].
    + exists pb'. rewrite list_lookup_insert_eq by (eapply lookup_lt_Some; eauto).
      assert (pb0 = pb) by congruence. subst. auto.
    + exists pb0. rewrite list_lookup_insert_ne by done. auto.
Qed.

Lemma steps_alloc P c : steps P (alloc c).
Proof.
  intros w r w' H. inversion H; subst. split; [|split]; simpl.
  - exists []. rewrite app_nil_r. auto.
  - exists []. rewrite app_nil_r. auto.
  - intros h pb L. exists pb. rewrite lookup_app_l by (eapply lookup_lt_Some; eauto). auto.
Qed.

Lemma steps_nif_make_buffer P b : P (EvMakeResource b) -> steps P (nif_make_buffer b).
Proof.
  intros Pb w r w' H. inversion H; subst. split; [|split]; simpl.
  - exists [EvMakeResource b]. auto.
  - exists [b]. auto.
  - intros h pb L. exists pb. auto.
Qed.

Lemma steps_bind {A B} P (m : M A) (k : A -> M B) :
  steps P m -> (forall a, steps P (k a)) -> steps P (bind m k).
Proof.
  intros Hm Hk w r w' H.
  destruct (bind_inv _ _ _ _ _ H) as [[a [w1 [H1 H2]]] | [[e [H1 _]] | [H1 _]]].
  - eapply evolves_trans; [eapply Hm | eapply Hk]; eauto.
  - eapply Hm; eauto.
  - eapply Hm; eauto.
Qed.

Lemma steps_nif {A} P (m : M A) (u : M unit) (k : A -> M term) :
  steps P m -> steps P u -> (forall a, steps P (k a)) ->
  steps P (EXLA_ASSIGN_OR_RETURN_NIF m u k).
Proof.
  intros Hm Hu Hk w r w' H.
  destruct (nif_inv _ _ _ _ _ _ H) as [[a [w1 [H1 H2]]] | [[e [w1 [H1 H2]]] | [H1 _]]].
  - eapply evolves_trans; [eapply Hm | eapply Hk]; eauto.
  - eapply evolves_trans; [eapply Hm; eauto|].
    exact (steps_bind P u _ Hu (fun _ => steps_ret P _) _ _ _ H2).
  - eapply Hm; eauto.
Qed.

Lemma steps_weaken {A} (P Q : Event -> Prop) (m : M A) :
  (forall ev, P ev -> Q ev) -> steps P m -> steps Q m.
Proof. intros PQ H w r w' E. eapply evolves_weaken; eauto. Qed.

Lemma steps_Delete P h : P (EvDelete h) -> steps P (PjRtBuffer_Delete h).
Proof.
  intros Ph w r w' H. unfold PjRtBuffer_Delete in H.
  destruct (bind_inv _ _ _ _ _ H) as [[pb [w1 [H1 H2]]] | [[e [H1 _]] | [H1 _]]];
    try (eapply steps_deref; eauto; fail).
  destruct (deref_inv _ _ _ _ H1) as [-> [[pb' [Er [L F]]] | [Er _]]]; [|discriminate].
  inversion Er; subst pb'. clear Er H1 H.
  unfold bind, store, emit in H2. simpl in H2. inversion H2; subst. clear H2.
  eapply evolves_trans.
  - eapply (evolves_store P w h pb (mkPjRtBuffer (contents pb) true (freed pb))); eauto.
  - apply (evolves_trace_only P
             (mkWorld (<[h:=mkPjRtBuffer (contents pb) true (freed pb)]> (buffers w))
                      (env_resources w) (trace w)) [EvDelete h]). auto.
Qed.

Lemma steps_destroy P h : P (EvDestroy h) -> steps P (PjRtBuffer_destroy h).
Proof.
  intros Ph w r w' H. unfold PjRtBuffer_destroy in H.
  destruct (bind_inv _ _ _ _ _ H) as [[pb [w1 [H1 H2]]] | [[e [H1 _]] | [H1 _]]];
    try (eapply steps_deref; eauto; fail).
  destruct (deref_inv _ _ _ _ H1) as [-> [[pb' [Er [L F]]] | [Er _]]]; [|discriminate].
  inversion Er; subst pb'. clear Er H1 H.
  unfold bind, store, emit in H2. simpl in H2. inversion H2; subst. clear H2.
  eapply evolves_trans.
  - eapply (evolves_store P w h pb (mkPjRtBuffer (contents pb) true true)); eauto.
  - apply (evolves_trace_only P
             (mkWorld (<[h:=mkPjRtBuffer (contents pb) true true]> (buffers w))
                      (env_resources w) (trace w)) [EvDestroy h]). auto.
Qed.

Lemma steps_Block P h :
  P (EvBlockHostUntilReady h) -> steps P (PjRtBuffer_BlockHostUntilReady h).
Proof.
  intros Ph. unfold PjRtBuffer_BlockHostUntilReady.
  apply steps_bind; [apply steps_emit; auto|]. intros _.
  apply steps_bind; [apply steps_deref|]. intros pb.
  destruct (is_deleted pb); [apply steps_fail | apply steps_of_status].
Qed.

Lemma steps_ToLiteral P h : P (EvToLiteral h) -> steps P (PjRtBuffer_ToLiteral h).
Proof.
  intros Ph. unfold PjRtBuffer_ToLiteral.
  apply steps_bind; [apply steps_emit; auto|]. intros _.
  apply steps_bind; [apply steps_deref|]. intros pb.
  destruct (is_deleted pb); [apply steps_fail | apply steps_of_status_or].
Qed.

Lemma steps_destroy_all P hs :
  (forall h, P (EvDestroy h)) -> steps P (destroy_all hs).
Proof.
  intros Ph. induction hs as [|h hs IH]; simpl.
  - apply steps_ret.
  - apply steps_bind; [apply steps_destroy; auto|]. intros _. exact IH.
Qed.

Lemma steps_alloc_all P cs : steps P (alloc_all cs).
Proof.
  induction cs as [|c cs IH]; simpl.
  - apply steps_ret.
  - apply steps_bind; [apply steps_alloc|]. intros h.
    apply steps_bind; [exact IH|]. intros hs. apply steps_ret.
Qed.

Lemma steps_alloc_replicas P css : steps P (alloc_replicas css).
Proof.
  induction css as [|cs css IH]; simpl.
  - apply steps_ret.
  - apply steps_bind; [apply steps_alloc_all|]. intros h.
    apply steps_bind; [exact IH|]. intros hs. apply steps_ret.
Qed.

Lemma steps_LookupDevice P c id :
  P (EvLookupDevice id) -> steps P (LookupDevice c id).
Proof.
  intros Pid. unfold LookupDevice.
  apply steps_bind; [apply steps_emit; auto|]. intros _. apply steps_of_status_or.
Qed.

Lemma LookupDevice_inv c id w r w' :
  LookupDevice c id w = (r, w') ->
  w' = mkWorld (buffers w) (env_resources w) (trace w ++ [EvLookupDevice id]) /\
  ((exists device, pjrt_LookupDevice c id = Value device /\ r = Returns device) \/
   (exists e, pjrt_LookupDevice c id = Failure e /\ r = Fails e)).
Proof.
  unfold LookupDevice, bind, emit. simpl.
  destruct (pjrt_LookupDevice c id) as [device|e]; simpl; intros H;
    inversion H; subst; split; eauto.
Qed.

Lemma steps_BufferFromHostBuffer P c data shape device :
  (forall h, P (EvBufferFromHostBuffer data shape (device_id device) h)) ->
  steps P (BufferFromHostBuffer c data shape device).
Proof.
  intros Ph. unfold BufferFromHostBuffer.
  destruct (length data <? pjrt_ByteSizeOf c shape)%nat; [apply steps_abort|].
  apply steps_bind; [apply steps_get_world|]. intros w0.
  match goal with
  | |- context [pjrt_BufferFromHostBuffer ?a ?b ?x ?s ?d] =>
      destruct (pjrt_BufferFromHostBuffer a b x s d) as [cts|e]
  end.
  - apply steps_bind; [apply steps_alloc|]. intros h.
    apply steps_bind; [apply steps_emit; auto|]. intros _. apply steps_ret.
  - apply steps_bind; [apply steps_emit; auto|]. intros _. apply steps_fail.
Qed.

Lemma steps_BufferFromBinary P c binary shape id flag :
  P (EvLookupDevice id) ->
  (forall dev h, resolved (client_ c) id dev ->
                 P (EvBufferFromHostBuffer binary shape dev h)) ->
  steps P (BufferFromBinary c binary shape id flag).
Proof.
  intros Pl Pb w r w' H. unfold BufferFromBinary in H.
  destruct (bind_inv _ _ _ _ _ H) as [[device [w1 [H1 H2]]] | [[e [H1 _]] | [H1 _]]];
    try (eapply steps_LookupDevice; eauto; fail).
  eapply evolves_trans; [eapply steps_LookupDevice; eauto|].
  destruct (LookupDevice_inv _ _ _ _ _ H1) as [_ [[dv [Hv Er]] | [e [_ Er]]]];
    [|discriminate].
  inversion Er; subst dv. revert H2.
  apply steps_bind.
  - apply steps_BufferFromHostBuffer. intros h. apply Pb. exists device. auto.
  - intros h. apply steps_ret.
Qed.

(** ** The events of the functions of the file *)

Lemma steps_UnpackRunArguments_loop P cells c id acc :
  P (EvLookupDevice id) ->
  (forall data shape dev h, resolved (client_ c) id dev ->
                            P (EvBufferFromHostBuffer data shape dev h)) ->
  steps P (UnpackRunArguments_loop cells c id acc).
Proof.
  intros Pl Pb. revert acc. induction cells as [|head tail IH]; intros acc; simpl.
  - apply steps_ret.
  - destruct head as [| | | |tuple| | |b]; try apply steps_fail; [|apply IH].
    apply steps_bind.
    { unfold tuple_at. destruct (tuple !! 0%nat); [apply steps_ret | apply steps_abort]. }
    intros t0. destruct t0 as [| | |data| | | |]; try apply steps_fail.
    apply steps_bind.
    { unfold tuple_at. destruct (tuple !! 1%nat); [apply steps_ret | apply steps_abort]. }
    intros t1. destruct t1 as [| | | | | |shape|]; try apply steps_fail.
    apply steps_bind; [apply steps_BufferFromBinary; auto|]. intros buf. apply IH.
Qed.

Lemma steps_UnpackRunArguments P arguments c id :
  P (EvLookupDevice id) ->
  (forall data shape dev h, resolved (client_ c) id dev ->
                            P (EvBufferFromHostBuffer data shape dev h)) ->
  steps P (UnpackRunArguments arguments c id).
Proof.
  intros Pl Pb. unfold UnpackRunArguments.
  destruct arguments; try apply steps_fail.
  apply steps_UnpackRunArguments_loop; auto.
Qed.

Lemma steps_Run_inputs P bufs acc :
  (forall h, P (EvBlockHostUntilReady h)) -> (forall b, P (EvMakeResource b)) ->
  steps P (Run_inputs bufs acc).
Proof.
  intros Pb Pm. revert acc. induction bufs as [|buf rest IH]; intros acc; simpl.
  - apply steps_ret.
  - destruct (release_after_run buf); [|apply IH].
    apply steps_bind; [apply steps_Block; auto|]. intros _.
    apply steps_bind; [apply steps_nif_make_buffer; auto|]. intros _. apply IH.
Qed.

Lemma steps_ExecutePortable P e args device options :
  P (EvExecutePortable args (device_id device) options) ->
  (forall hs, P (EvResults [hs])) ->
  steps P (ExecutePortable e args device options).
Proof.
  intros Pe Pr. unfold ExecutePortable.
  apply steps_bind; [apply steps_emit; auto|]. intros _.
  apply steps_bind; [apply steps_get_world|]. intros w0.
  apply steps_bind; [apply steps_of_status_or|]. intros cs.
  apply steps_bind; [apply steps_alloc_all|]. intros hs.
  apply steps_bind; [apply steps_emit; auto|]. intros _. apply steps_ret.
Qed.

Lemma steps_Execute P e args options :
  P (EvExecute args options) ->
  (forall hss, P (EvResults hss)) ->
  steps P (Execute e args options).
Proof.
  intros Pe Pr. unfold Execute.
  apply steps_bind; [apply steps_emit; auto|]. intros _.
  apply steps_bind; [apply steps_get_world|]. intros w0.
  apply steps_bind; [apply steps_of_status_or|]. intros cs.
  apply steps_bind; [apply steps_alloc_replicas|]. intros hs.
  apply steps_bind; [apply steps_emit; auto|]. intros _. apply steps_ret.
Qed.

Section Events.

Variable LayoutsInShapesEqual : Shape -> Shape -> bool.
Variable Relayout : Literal -> Shape -> Literal.

Lemma steps_ToBinary P b size :
  P (EvBlockHostUntilReady (buffer_ b)) -> P (EvToLiteral (buffer_ b)) ->
  steps P (ToBinary LayoutsInShapesEqual Relayout b size).
Proof.
  intros Pb Pl. unfold ToBinary.
  apply steps_bind; [apply steps_Block; auto|]. intros _.
  apply steps_bind; [apply steps_ToLiteral; auto|]. intros literal.
  apply steps_bind; [apply steps_deref|]. intros pb.
  match goal with |- steps _ (if ?c then _ else _) => destruct c end; apply steps_ret.
Qed.

Lemma steps_UnpackResult_loop P result keep terms :
  (forall b, P (EvMakeResource b)) ->
  (forall h, P (EvBlockHostUntilReady h)) ->
  (keep = false -> forall h, P (EvToLiteral h)) ->
  (forall h, P (EvDestroy h)) ->
  steps P (UnpackResult_loop LayoutsInShapesEqual Relayout result keep terms).
Proof.
  intros Pm Pb Pl Pd. revert terms.
  induction result as [|h rest IH]; intros terms; simpl.
  - apply steps_ret.
  - destruct keep.
    + apply steps_bind; [apply steps_nif_make_buffer; auto|]. intros t. apply IH.
    + apply steps_nif.
      * apply steps_ToBinary; simpl; auto.
      * apply steps_destroy_all; auto.
      * intros t. apply steps_bind; [apply steps_destroy; auto|]. intros _. apply IH.
Qed.

Lemma steps_Run_dispatch e pjrt_buffers keep d :
  steps (Run_event (client_ (exe_client_ e)) keep d)
        (Run_dispatch LayoutsInShapesEqual Relayout e pjrt_buffers keep d
                      (mkExecuteOptions true false)).
Proof.
  unfold Run_dispatch. destruct (0 <=? d) eqn:Hd.
  - apply Z.leb_le in Hd. intros w r w' H.
    destruct (nif_inv _ _ _ _ _ _ H) as [[device [w1 [H1 H2]]] | [[e0 [w1 [H1 H2]]] | [H1 _]]].
    + assert (Hl : evolves (Run_event (client_ (exe_client_ e)) keep d) w w1).
      { eapply steps_LookupDevice; eauto. simpl.
        destruct (0 <=? d) eqn:E; [done | apply Z.leb_gt in E; lia]. }
      eapply evolves_trans; [exact Hl|].
      destruct (LookupDevice_inv _ _ _ _ _ H1) as [_ [[dv [Hv Er]] | [e1 [_ Er]]]];
        [|discriminate].
      inversion Er; subst dv. revert H2. apply steps_nif.
      * apply steps_ExecutePortable; simpl; auto.
        split; [lia|]. split; [|done]. exists device. auto.
      * apply steps_ret.
      * intros result. apply steps_nif; [|apply steps_ret|intros; apply steps_ret].
        apply steps_UnpackResult_loop; simpl; auto.
    + eapply evolves_trans.
      * eapply steps_LookupDevice; eauto. simpl.
        destruct (0 <=? d) eqn:E; [done | apply Z.leb_gt in E; lia].
      * revert H2. apply steps_bind; [apply steps_ret|]. intros; apply steps_ret.
    + eapply steps_LookupDevice; eauto. simpl.
      destruct (0 <=? d) eqn:E; [done | apply Z.leb_gt in E; lia].
  - apply Z.leb_gt in Hd. apply steps_nif.
    + apply steps_Execute; simpl; auto. intros hss Hge. lia.
    + apply steps_ret.
    + intros result. apply steps_bind.
      { unfold at_0. destruct result; [apply steps_abort | apply steps_ret]. }
      intros first. apply steps_nif.
      * apply steps_UnpackResult_loop; simpl; auto.
      * apply steps_destroy_all; simpl; auto.
      * intros t. apply steps_bind; [apply steps_destroy_all; simpl; auto|].
        intros _. apply steps_ret.
Qed.

Lemma steps_Run e arguments keep d :
  steps (Run_event (client_ (exe_client_ e)) keep d)
        (Run LayoutsInShapesEqual Relayout e arguments keep d).
Proof.
  unfold Run. apply steps_nif.
  - destruct (0 <=? d) eqn:Hd.
    + apply steps_UnpackRunArguments; simpl; rewrite ?Hd; auto.
    + apply steps_UnpackRunArguments; simpl; rewrite ?Hd; auto.
  - apply steps_ret.
  - intros input_buffers. apply steps_nif.
    + apply steps_Run_inputs; simpl; auto.
    + apply steps_ret.
    + intros pjrt_buffers. apply steps_Run_dispatch.
Qed.

End Events.

(** ** Buffers: deallocation and readback *)

Lemma Deallocate_deleted b w pb :
  buffers w !! buffer_ b = Some pb -> freed pb = false -> is_deleted pb = true ->
  Deallocate b w =
    (Fails (FailedPrecondition "Attempt to deallocate already deallocated buffer."), w).
Proof.
  intros L F D. unfold Deallocate, PjRtBuffer_IsDeleted, bind.
  rewrite (deref_live _ _ _ L F). simpl. rewrite D. done.
Qed.

(** C1. The first [Deallocate] of a buffer that is not yet deallocated
    succeeds and releases the device memory: the runtime's [Delete] is
    called on it and the buffer is deleted afterwards.  Every later
    [Deallocate] of it, directly afterwards or after any other calls, fails
    with a failed-precondition error and changes nothing. *)
Theorem Deallocate_once_then_precondition_error (b : ExlaBuffer) (w : World)
    (pb : PjRtBuffer) :
  buffers w !! buffer_ b = Some pb -> freed pb = false -> is_deleted pb = false ->
  exists w1,
    Deallocate b w = (Returns tt, w1) /\
    buffers w1 !! buffer_ b = Some (mkPjRtBuffer (contents pb) true false) /\
    new_events w w1 = [EvDelete (buffer_ b)] /\
    forall w2, evolves (fun _ => True) w1 w2 -> live w2 (buffer_ b) ->
      exists e, Deallocate b w2 = (Fails e, w2) /\ code e = FAILED_PRECONDITION.
Proof.
  intros L F D.
  exists (mkWorld (<[buffer_ b := mkPjRtBuffer (contents pb) true false]> (buffers w))
                  (env_resources w) (trace w ++ [EvDelete (buffer_ b)])).
  assert (L1 : <[buffer_ b := mkPjRtBuffer (contents pb) true false]> (buffers w)
               !! buffer_ b = Some (mkPjRtBuffer (contents pb) true false)).
  { apply list_lookup_insert_eq. eapply lookup_lt_Some; eauto. }
  split; [|split; [|split]].
  - unfold Deallocate, PjRtBuffer_IsDeleted, PjRtBuffer_Delete, bind.
    rewrite (deref_live _ _ _ L F). simpl. rewrite D.
    rewrite (deref_live _ _ _ L F). simpl. rewrite F. done.
  - exact L1.
  - apply new_events_app. done.
  - intros w2 [_ [_ Hh]] [pb2 [L2 F2]].
    destruct (Hh _ _ L1) as [pb' [L' [_ [D' _]]]].
    assert (pb' = pb2) by congruence. subst pb'.
    eexists. split; [apply (Deallocate_deleted b w2 pb2); auto|]. done.
Qed.

Section Readback.

Variable LayoutsInShapesEqual : Shape -> Shape -> bool.
Variable Relayout : Literal -> Shape -> Literal.

Lemma CopyLiteralToBinary_full literal size :
  size < 0 \/ size_bytes literal < size ->
  CopyLiteralToBinary literal size = untyped_data literal.
Proof.
  intros H. unfold CopyLiteralToBinary.
  assert (E : (size <? 0) || (size >? size_bytes literal) = true).
  { apply orb_true_iff. destruct H; [left; apply Z.ltb_lt; lia | right; apply Z.gtb_lt; lia]. }
  rewrite E. unfold size_bytes. rewrite Nat2Z.id. apply firstn_all.
Qed.

Lemma CopyLiteralToBinary_prefix literal size :
  0 <= size <= size_bytes literal ->
  CopyLiteralToBinary literal size = take (Z.to_nat size) (untyped_data literal) /\
  Z.of_nat (length (CopyLiteralToBinary literal size)) = size.
Proof.
  intros H. unfold CopyLiteralToBinary.
  destruct ((size <? 0) || (size >? size_bytes literal)) eqn:E.
  - apply orb_true_iff in E. destruct E as [E|E];
      [apply Z.ltb_lt in E; lia | apply Z.gtb_lt in E; lia].
  - split; [done|]. rewrite length_take. unfold size_bytes in H. lia.
Qed.

(** C2. On a live buffer that is ready and whose value reads back as [lit],
    [ToBinary max_size] returns a binary: all the bytes of the serialization
    (the literal in the host layout) when [max_size] is negative or larger
    than their number, and exactly its first [max_size] bytes when
    [0 <= max_size <= actual_size]. *)
Theorem ToBinary_returns_prefix_of_serialization (b : ExlaBuffer) (w : World)
    (pb : PjRtBuffer) (lit : Literal) (max_size : Z) :
  buffers w !! buffer_ b = Some pb -> freed pb = false -> is_deleted pb = false ->
  contents_ready (contents pb) = OK ->
  contents_value (contents pb) = Value lit ->
  let host_shape :=
    MakeShape (element_type (on_device_shape pb)) (dimensions (on_device_shape pb)) in
  let serialization :=
    untyped_data (if LayoutsInShapesEqual host_shape (literal_shape lit)
                  then lit else Relayout lit host_shape) in
  let actual_size := Z.of_nat (length serialization) in
  exists out w',
    ToBinary LayoutsInShapesEqual Relayout b max_size w = (Returns (TBinary out), w') /\
    (max_size < 0 \/ actual_size < max_size -> out = serialization) /\
    (0 <= max_size <= actual_size ->
       out = take (Z.to_nat max_size) serialization /\ Z.of_nat (length out) = max_size).
Proof.
  intros L F D R V host_shape serialization actual_size.
  unfold ToBinary, PjRtBuffer_BlockHostUntilReady, PjRtBuffer_ToLiteral, bind, emit.
  simpl. unfold deref at 1. simpl. rewrite L, F, D, R. simpl.
  unfold deref at 1. simpl. rewrite L, F, D, V. simpl.
  unfold deref. simpl. rewrite L, F.
  subst serialization actual_size. fold host_shape.
  destruct (LayoutsInShapesEqual host_shape (literal_shape lit)); simpl;
    eexists; eexists; (split; [reflexivity|]); split; intros H.
  - apply CopyLiteralToBinary_full. exact H.
  - apply CopyLiteralToBinary_prefix. exact H.
  - apply CopyLiteralToBinary_full. exact H.
  - apply CopyLiteralToBinary_prefix. exact H.
Qed.

End Readback.

(** ** Infeed *)

(** C7. [TransferToInfeed] with a tuple shape one of whose elements is a
    tuple fails with an invalid-argument error whatever chunks are given,
    and the world is left as it was: no device is looked up and nothing is
    transferred. *)
Theorem TransferToInfeed_nested_tuple_invalid (c : ExlaClient) (data : term)
    (shape element : Shape) (device_id : Z) (w : World) :
  IsTuple shape = true -> In element (tuple_shapes shape) -> IsTuple element = true ->
  exists e,
    TransferToInfeed c data shape device_id w = (Fails e, w) /\
    code e = INVALID_ARGUMENT.
Proof.
  intros T I N. unfold TransferToInfeed. rewrite T.
  assert (E : IsNestedTuple shape = true).
  { unfold IsNestedTuple. rewrite T. simpl. apply existsb_exists. eauto. }
  rewrite E. eexists. split; [reflexivity|]. done.
Qed.

Lemma TransferToInfeed_array_inv c first rest shape d w :
  IsTuple shape = false ->
  TransferToInfeed c (TList (TBinary first :: rest)) shape d w =
    bind (LookupDevice (client_ c) d)
         (fun device => TransferToInfeed_device device (mkBorrowingLiteral [first] shape)) w.
Proof. intros T. unfold TransferToInfeed. rewrite T. reflexivity. Qed.

(** C8, as amended.  With a shape that is not a tuple and a chunk list
    whose first cell is a binary, that first chunk alone is the value
    transferred: the call is the same as with the other cells removed, and
    once the device resolves, the one transfer issued is of a literal over
    the first chunk. *)
Theorem TransferToInfeed_array_consumes_first_chunk (c : ExlaClient)
    (first : list byte) (rest : list term) (shape : Shape) (d : Z) (w : World) :
  IsTuple shape = false ->
  TransferToInfeed c (TList (TBinary first :: rest)) shape d w =
    TransferToInfeed c (TList [TBinary first]) shape d w /\
  forall device, pjrt_LookupDevice (client_ c) d = Value device ->
    new_events w (snd (TransferToInfeed c (TList (TBinary first :: rest)) shape d w)) =
      [EvLookupDevice d;
       EvTransferToInfeed (device_id device) (mkBorrowingLiteral [first] shape)].
Proof.
  intros T. split.
  - rewrite !TransferToInfeed_array_inv by exact T. reflexivity.
  - intros device Hl. rewrite TransferToInfeed_array_inv by exact T.
    unfold bind, LookupDevice, TransferToInfeed_device, bind, emit, get_world. simpl.
    rewrite Hl. simpl.
    match goal with
    | |- context [of_status ?s ?x] => destruct (of_status s x) as [[u|e|] w1] eqn:E
    end;
      unfold of_status in E;
      match type of E with
      | context [device_TransferToInfeed ?a ?b ?c] =>
          destruct (device_TransferToInfeed a b c)
      end; inversion E; subst; simpl;
      apply new_events_app; simpl; rewrite <- app_assoc; reflexivity.
Qed.

(** C8 as first stated fails: the list below holds a binary, in second
    place; the shape is an array and device 0 exists, yet the call returns
    an invalid-argument error and nothing is looked up or transferred. *)
Lemma TransferToInfeed_binary_not_first_rejected :
  IsTuple Sample.f32_4 = false /\
  In (TBinary [x01]) (list_cells Sample.atom_then_binary) /\
  TransferToInfeed Sample.exla Sample.atom_then_binary Sample.f32_4 0 Sample.empty =
    (Fails (InvalidArgument "infeed operation expects a list of binaries"), Sample.empty) /\
  ~ (exists dev literal,
        In (EvTransferToInfeed dev literal)
           (new_events Sample.empty
              (snd (TransferToInfeed Sample.exla Sample.atom_then_binary Sample.f32_4 0
                      Sample.empty)))).
Proof.
  split; [reflexivity|]. split; [simpl; auto|]. split; [reflexivity|].
  intros [dev [literal Hin]]. exact Hin.
Qed.

(** ** Compilation *)

Lemma ClearLayout_MakeShape et dims :
  ClearLayout (MakeShape et dims) = mkShape et dims [] None.
Proof. reflexivity. Qed.

(** C6. [Compile] hands the runtime, for each argument shape, the shape
    made of its element type and dimensions alone, without layout; the
    arguments-are-tupled flag is false, the build options and the
    portability flag are the caller's.  The call succeeds exactly when the
    runtime compiles the program and yields a fingerprint, and the
    executable returned holds that compiled program, that optional
    fingerprint and the client. *)
Theorem Compile_strips_layouts_and_keeps_fingerprint (c : ExlaClient)
    (computation : XlaComputation) (shapes : list Shape)
    (options : ExecutableBuildOptions) (portable : bool) (w : World) :
  let compile_opts :=
    mkCompileOptions
      (map (fun s => mkShape (element_type s) (dimensions s) [] None) shapes)
      false options portable in
  Forall (fun s => layout s = None) (argument_layouts compile_opts) /\
  (exists rest,
     new_events w (snd (Compile c computation shapes options portable w)) =
       EvCompile computation compile_opts :: rest) /\
  fst (Compile c computation shapes options portable w) =
    match pjrt_Compile (client_ c) computation compile_opts with
    | Failure e => Fails e
    | Value executable =>
        match pjrt_ExecutableFingerprint (client_ c) executable with
        | Failure e => Fails e
        | Value fingerprint => Returns (mkExlaExecutable executable fingerprint c)
        end
    end.
Proof.
  intros compile_opts.
  assert (E : map (fun shape => ClearLayout (MakeShape (element_type shape) (dimensions shape)))
                  shapes =
              map (fun s => mkShape (element_type s) (dimensions s) [] None) shapes).
  { apply map_ext. intros s. apply ClearLayout_MakeShape. }
  subst compile_opts. split; [|split].
  - simpl. apply List.Forall_map. apply List.Forall_forall. intros s _. reflexivity.
  - unfold Compile. cbv zeta. rewrite E.
    unfold bind, emit. simpl.
    match goal with
    | |- context [pjrt_Compile ?a ?b ?o] => destruct (pjrt_Compile a b o) as [pexe|e]
    end; simpl.
    + destruct (pjrt_ExecutableFingerprint (client_ c) pexe); simpl;
        eexists; apply new_events_app; simpl; rewrite <- app_assoc; reflexivity.
    + eexists. apply new_events_app. reflexivity.
  - unfold Compile. cbv zeta. rewrite E.
    unfold bind, emit. simpl.
    match goal with
    | |- context [pjrt_Compile ?a ?b ?o] => destruct (pjrt_Compile a b o) as [pexe|e]
    end; simpl; [|reflexivity].
    destruct (pjrt_ExecutableFingerprint (client_ c) pexe); reflexivity.
Qed.

(** ** Device ids *)

Lemma steps_TransferToInfeed P c data shape id :
  P (EvLookupDevice id) ->
  (forall dev lit, resolved (client_ c) id dev -> P (EvTransferToInfeed dev lit)) ->
  steps P (TransferToInfeed c data shape id).
Proof.
  intros Pl Pt.
  assert (Hsend : forall lit,
            steps P (bind (LookupDevice (client_ c) id)
                          (fun device => TransferToInfeed_device device lit))).
  { intros lit w r w' H.
    destruct (bind_inv _ _ _ _ _ H) as [[device [w1 [H1 H2]]] | [[e [H1 _]] | [H1 _]]];
      try (eapply steps_LookupDevice; eauto; fail).
    eapply evolves_trans; [eapply steps_LookupDevice; eauto|].
    destruct (LookupDevice_inv _ _ _ _ _ H1) as [_ [[dv [Hv Er]] | [e [_ Er]]]];
      [|discriminate].
    inversion Er; subst dv. revert H2. unfold TransferToInfeed_device.
    apply steps_bind; [apply steps_emit; apply Pt; exists device; auto|]. intros _.
    apply steps_bind; [apply steps_get_world|]. intros w0. apply steps_of_status. }
  unfold TransferToInfeed. destruct (IsTuple shape).
  - destruct (IsNestedTuple shape); [apply steps_fail|].
    apply steps_bind; [|intros buf_ptrs; apply Hsend].
    generalize (@nil (list byte)). induction (list_cells data) as [|head tail IH];
      intros acc; simpl; [apply steps_ret|].
    destruct head; try apply steps_fail. apply IH.
  - destruct (list_cells data) as [|head tail]; [apply steps_fail|].
    destruct head; try apply steps_fail. apply Hsend.
Qed.

Lemma steps_TransferFromOutfeed P c id shape :
  P (EvLookupDevice id) ->
  (forall dev, resolved (client_ c) id dev -> P (EvTransferFromOutfeed dev shape)) ->
  steps P (TransferFromOutfeed c id shape).
Proof.
  intros Pl Pt w r w' H. unfold TransferFromOutfeed in H.
  destruct (bind_inv _ _ _ _ _ H) as [[device [w1 [H1 H2]]] | [[e [H1 _]] | [H1 _]]];
    try (eapply steps_LookupDevice; eauto; fail).
  eapply evolves_trans; [eapply steps_LookupDevice; eauto|].
  destruct (LookupDevice_inv _ _ _ _ _ H1) as [_ [[dv [Hv Er]] | [e [_ Er]]]];
    [|discriminate].
  inversion Er; subst dv. revert H2.
  apply steps_bind; [|intros; apply steps_ret].
  unfold TransferFromOutfeed_device.
  apply steps_bind; [apply steps_emit; apply Pt; exists device; auto|]. intros _.
  apply steps_bind; [apply steps_get_world|]. intros w0. apply steps_of_status_or.
Qed.

Lemma LookupDevice_unknown c id err w :
  pjrt_LookupDevice c id = Failure err ->
  LookupDevice c id w =
    (Fails err, mkWorld (buffers w) (env_resources w) (trace w ++ [EvLookupDevice id])).
Proof. intros H. unfold LookupDevice, bind, emit. simpl. rewrite H. reflexivity. Qed.

Lemma live_same_buffers w w' h : buffers w' = buffers w -> live w h -> live w' h.
Proof. intros E [pb H]. exists pb. rewrite E. exact H. Qed.

Lemma Block_inv h w r w' :
  PjRtBuffer_BlockHostUntilReady h w = (r, w') ->
  w' = mkWorld (buffers w) (env_resources w) (trace w ++ [EvBlockHostUntilReady h]) /\
  ((r = Aborts /\ ~ live w h) \/
   (exists pb, buffers w !! h = Some pb /\ freed pb = false /\
      ((r = Returns tt /\ is_deleted pb = false /\ contents_ready (contents pb) = OK) \/
       (exists e, r = Fails e)))).
Proof.
  unfold PjRtBuffer_BlockHostUntilReady, bind, emit, deref, live. simpl.
  destruct (buffers w !! h) as [pb|] eqn:L.
  - destruct (freed pb) eqn:F.
    + intros H; inversion H; subst. split; [done|]. left. split; [done|].
      intros [pb' [L' F']]. congruence.
    + destruct (is_deleted pb) eqn:D.
      * intros H; inversion H; subst. split; [done|]. right. exists pb. eauto 10.
      * destruct (contents_ready (contents pb)) as [|e] eqn:R; simpl;
          intros H; inversion H; subst; (split; [done|]); right; exists pb; eauto 10.
  - intros H; inversion H; subst. split; [done|]. left. split; [done|].
    intros [pb' [L' F']]. congruence.
Qed.

Lemma UnpackRunArguments_loop_unknown c id err :
  pjrt_LookupDevice (client_ c) id = Failure err ->
  forall cells acc w r w',
    UnpackRunArguments_loop cells c id acc w = (r, w') ->
    buffers w' = buffers w /\
    match r with
    | Returns bufs => exists more, bufs = acc ++ more /\ Forall (fun b => In (TBuffer b) cells) more
    | Fails _ => True
    | Aborts => forall w0, ~ Forall (wf_argument w0) cells
    end.
Proof.
  intros Hl. induction cells as [|head tail IH]; intros acc w r w' H; simpl in H.
  - inversion H; subst. split; [done|]. exists []. rewrite app_nil_r. auto.
  - destruct head as [| | | |tuple| | |b]; try (inversion H; subst; split; done).
    + unfold bind, tuple_at in H.
      destruct tuple as [|t0 tuple]; simpl in H.
      { inversion H; subst. split; [done|]. intros w0 Hwf.
        inversion Hwf as [|? ? Hw _]; subst. simpl in Hw. lia. }
      destruct t0 as [| | |data| | | |]; try (inversion H; subst; split; done).
      destruct tuple as [|t1 tuple]; simpl in H.
      { inversion H; subst. split; [done|]. intros w0 Hwf.
        inversion Hwf as [|? ? Hw _]; subst. simpl in Hw. lia. }
      destruct t1 as [| | | | | |shape|]; try (inversion H; subst; split; done).
      unfold BufferFromBinary, bind in H. rewrite (LookupDevice_unknown _ _ _ _ Hl) in H.
      inversion H; subst. split; done.
    + destruct (IH _ _ _ _ H) as [Hb Hr]. split; [exact Hb|].
      destruct r as [bufs|e|].
      * destruct Hr as [more [E F]]. exists (b :: more).
        rewrite E, <- app_assoc. split; [done|].
        constructor; [left; done|]. eapply Forall_impl; [exact F|].
        intros b0 Hb0. right. exact Hb0.
      * done.
      * intros w0 Hwf. inversion Hwf; subst. eapply Hr; eauto.
Qed.

Lemma Run_inputs_buffers bufs :
  forall acc w r w', Run_inputs bufs acc w = (r, w') -> buffers w' = buffers w.
Proof.
  induction bufs as [|buf rest IH]; intros acc w r w' H; simpl in H.
  - inversion H; subst. done.
  - destruct (release_after_run buf); [|eapply IH; eauto].
    destruct (bind_inv _ _ _ _ _ H) as [[u [w1 [H1 H2]]] | [[e [H1 _]] | [H1 _]]];
      try (destruct (Block_inv _ _ _ _ H1) as [-> _]; done).
    destruct (Block_inv _ _ _ _ H1) as [-> _].
    unfold bind, nif_make_buffer in H2. simpl in H2.
    apply IH in H2. simpl in H2. exact H2.
Qed.

Lemma Run_inputs_no_abort bufs :
  forall acc w r w',
    (forall b, In b bufs -> release_after_run b = true -> live w (buffer b)) ->
    Run_inputs bufs acc w = (r, w') -> r <> Aborts.
Proof.
  induction bufs as [|buf rest IH]; intros acc w r w' Hlive H; simpl in H.
  - inversion H; subst. done.
  - destruct (release_after_run buf) eqn:Rel.
    + destruct (bind_inv _ _ _ _ _ H) as [[u [w1 [H1 H2]]] | [[e [H1 ->]] | [H1 ->]]].
      * destruct (Block_inv _ _ _ _ H1) as [-> _].
        unfold bind, nif_make_buffer in H2. simpl in H2.
        eapply IH; [|exact H2]. intros b Hb Hr.
        eapply live_same_buffers; [|apply Hlive; auto; right; exact Hb]. done.
      * done.
      * destruct (Block_inv _ _ _ _ H1) as [_ [[_ Hn] | [pb [_ [_ [[Hr _] | [e Hr]]]]]]];
          try discriminate.
        exfalso. apply Hn. apply Hlive; [left; done | exact Rel].
    + eapply IH; [|exact H]. intros b Hb Hr. apply Hlive; auto. right. exact Hb.
Qed.

Section DeviceIds.

Variable LayoutsInShapesEqual : Shape -> Shape -> bool.
Variable Relayout : Literal -> Shape -> Literal.

Lemma Run_dispatch_unknown e pjrt_buffers keep d err w :
  0 <= d -> pjrt_LookupDevice (client_ (exe_client_ e)) d = Failure err ->
  fst (Run_dispatch LayoutsInShapesEqual Relayout e pjrt_buffers keep d
                    (mkExecuteOptions true false) w)
  = Returns (nif_error (error_message err)).
Proof.
  intros Hd Hl. unfold Run_dispatch.
  destruct (0 <=? d) eqn:E; [|apply Z.leb_gt in E; lia].
  unfold EXLA_ASSIGN_OR_RETURN_NIF, client.
  rewrite (LookupDevice_unknown _ _ _ _ Hl). reflexivity.
Qed.

Lemma Run_unknown_device e arguments keep d err w :
  0 <= d -> pjrt_LookupDevice (client_ (exe_client_ e)) d = Failure err ->
  (fst (Run LayoutsInShapesEqual Relayout e arguments keep d w) = Aborts /\
   ~ wf_arguments w arguments) \/
  (exists msg,
     fst (Run LayoutsInShapesEqual Relayout e arguments keep d w) =
       Returns (nif_error msg)).
Proof.
  intros Hd Hl.
  destruct (Run LayoutsInShapesEqual Relayout e arguments keep d w) as [r w'] eqn:H.
  simpl. unfold Run in H. destruct (0 <=? d) eqn:E; [|apply Z.leb_gt in E; lia].
  destruct (nif_inv _ _ _ _ _ _ H) as [[bufs [w1 [Hu H2]]] | [[e0 [w1 [Hu H2]]] | [Hu ->]]].
  - destruct arguments as [| | | | |cells| |]; try discriminate. simpl in Hu.
    destruct (UnpackRunArguments_loop_unknown _ _ _ Hl _ _ _ _ _ Hu)
      as [Hb [more [Em Fm]]]. simpl in Em. subst more.
    destruct (nif_inv _ _ _ _ _ _ H2) as [[pj [w2 [Hi H3]]] | [[e1 [w2 [Hi H3]]] | [Hi ->]]].
    + right. eexists.
      pose proof (Run_dispatch_unknown e pj keep d err w2 Hd Hl) as Hx.
      rewrite H3 in Hx. exact Hx.
    + right. inversion H3; subst. eexists. reflexivity.
    + left. split; [reflexivity|]. intros Hwf.
      eapply Run_inputs_no_abort; [|exact Hi|reflexivity].
      intros b Hin Hr. eapply live_same_buffers; [exact Hb|].
      unfold wf_arguments in Hwf. simpl in Hwf.
      rewrite List.Forall_forall in Fm, Hwf.
      apply (Hwf (TBuffer b) (Fm b Hin)). exact Hr.
  - right. inversion H2; subst. eexists. reflexivity.
  - left. split; [reflexivity|].
    destruct arguments as [| | | | |cells| |]; try discriminate. simpl in Hu.
    destruct (UnpackRunArguments_loop_unknown _ _ _ Hl _ _ _ _ _ Hu) as [_ Hr].
    apply Hr.
Qed.

Lemma TransferToInfeed_unknown c data shape id err w :
  pjrt_LookupDevice (client_ c) id = Failure err ->
  exists e w', TransferToInfeed c data shape id w = (Fails e, w') /\
               (e = err \/ code e = INVALID_ARGUMENT).
Proof.
  intros Hl. unfold TransferToInfeed. destruct (IsTuple shape).
  - destruct (IsNestedTuple shape); [eexists; eexists; split; [reflexivity|right; done]|].
    unfold bind.
    destruct (infeed_chunks (list_cells data) [] w) as [[ptrs|e|] w1] eqn:Hc.
    + rewrite (LookupDevice_unknown _ _ _ _ Hl). eauto.
    + exists e, w1. split; [done|]. right.
      revert Hc. generalize (@nil (list byte)).
      induction (list_cells data) as [|head tail IH]; intros acc Hc; simpl in Hc;
        [discriminate|].
      destruct head; try (inversion Hc; subst; reflexivity). eapply IH; eauto.
    + exfalso. revert Hc. generalize (@nil (list byte)).
      induction (list_cells data) as [|head tail IH]; intros acc Hc; simpl in Hc;
        [discriminate|].
      destruct head; try discriminate. eapply IH; eauto.
  - destruct (list_cells data) as [|head tail];
      [eexists; eexists; split; [reflexivity|right; done]|].
    destruct head; try (eexists; eexists; split; [reflexivity|right; done]).
    unfold bind. rewrite (LookupDevice_unknown _ _ _ _ Hl). eauto.
Qed.

Lemma Run_event_on_resolved c keep d ev :
  0 <= d -> Run_event c keep d ev -> on_resolved_device c d ev.
Proof.
  intros Hd. destruct (0 <=? d) eqn:E; [|apply Z.leb_gt in E; lia].
  destruct ev; simpl; rewrite ?E; try tauto.
Qed.

Lemma unresolved_not_used c id err ev :
  pjrt_LookupDevice c id = Failure err -> on_resolved_device c id ev -> ~ uses_device ev.
Proof.
  intros Hl Hr Hu. destruct ev; simpl in *; try done;
    destruct Hr as [dv [Hv _]]; congruence.
Qed.

(** C9, as amended.  Each operation that takes a device id uses a device
    only as the lookup of that id returned it.  When the lookup fails,
    [BufferFromBinary] and [TransferFromOutfeed] fail with the lookup's
    error; [TransferToInfeed] fails with it or with an invalid-argument
    error raised before the lookup is reached; [Run] with a non-negative id
    never returns outputs and, given arguments that decode, returns an
    error term instead of aborting.  None of them uses a device or executes
    anything. *)
Theorem device_id_resolved_or_operation_fails (c : ExlaClient) (id : Z) :
  (forall binary shape flag w,
     Forall (on_resolved_device (client_ c) id)
            (new_events w (snd (BufferFromBinary c binary shape id flag w)))) /\
  (forall data shape w,
     Forall (on_resolved_device (client_ c) id)
            (new_events w (snd (TransferToInfeed c data shape id w)))) /\
  (forall shape w,
     Forall (on_resolved_device (client_ c) id)
            (new_events w (snd (TransferFromOutfeed c id shape w)))) /\
  (forall executable fingerprint arguments keep w, 0 <= id ->
     Forall (on_resolved_device (client_ c) id)
            (new_events w
               (snd (Run LayoutsInShapesEqual Relayout
                         (mkExlaExecutable executable fingerprint c) arguments keep id w)))) /\
  forall err, pjrt_LookupDevice (client_ c) id = Failure err ->
    (forall binary shape flag w,
       fst (BufferFromBinary c binary shape id flag w) = Fails err /\
       new_events w (snd (BufferFromBinary c binary shape id flag w)) = [EvLookupDevice id]) /\
    (forall shape w,
       fst (TransferFromOutfeed c id shape w) = Fails err /\
       new_events w (snd (TransferFromOutfeed c id shape w)) = [EvLookupDevice id]) /\
    (forall data shape w,
       (exists e, fst (TransferToInfeed c data shape id w) = Fails e /\
                  (e = err \/ code e = INVALID_ARGUMENT)) /\
       Forall (fun ev => ~ uses_device ev)
              (new_events w (snd (TransferToInfeed c data shape id w)))) /\
    (forall executable fingerprint arguments keep w, 0 <= id ->
       let call := Run LayoutsInShapesEqual Relayout
                       (mkExlaExecutable executable fingerprint c) arguments keep id w in
       (forall outs, fst call <> Returns (run_ok outs)) /\
       (wf_arguments w arguments -> exists msg, fst call = Returns (nif_error msg)) /\
       Forall (fun ev => ~ uses_device ev /\ ~ is_execution ev) (new_events w (snd call))).
Proof.
  assert (Hbuf : forall binary shape flag w,
     Forall (on_resolved_device (client_ c) id)
            (new_events w (snd (BufferFromBinary c binary shape id flag w)))).
  { intros. apply evolves_new_events.
    destruct (BufferFromBinary c binary shape id flag w) as [r w'] eqn:H.
    eapply steps_BufferFromBinary; [| |exact H]; simpl; auto. }
  assert (Hin : forall data shape w,
     Forall (on_resolved_device (client_ c) id)
            (new_events w (snd (TransferToInfeed c data shape id w)))).
  { intros. apply evolves_new_events.
    destruct (TransferToInfeed c data shape id w) as [r w'] eqn:H.
    eapply steps_TransferToInfeed; [| |exact H]; simpl; auto. }
  assert (Hout : forall shape w,
     Forall (on_resolved_device (client_ c) id)
            (new_events w (snd (TransferFromOutfeed c id shape w)))).
  { intros. apply evolves_new_events.
    destruct (TransferFromOutfeed c id shape w) as [r w'] eqn:H.
    eapply steps_TransferFromOutfeed; [| |exact H]; simpl; auto. }
  assert (Hrun : forall executable fingerprint arguments keep w, 0 <= id ->
     Forall (Run_event (client_ c) keep id)
            (new_events w
               (snd (Run LayoutsInShapesEqual Relayout
                         (mkExlaExecutable executable fingerprint c) arguments keep id w)))).
  { intros ex fp arguments keep w Hd. apply evolves_new_events.
    destruct (Run LayoutsInShapesEqual Relayout (mkExlaExecutable ex fp c)
                  arguments keep id w) as [r w'] eqn:H.
    exact (steps_Run LayoutsInShapesEqual Relayout (mkExlaExecutable ex fp c)
                     arguments keep id _ _ _ H). }
  split; [exact Hbuf|]. split; [exact Hin|]. split; [exact Hout|]. split.
  { intros ex fp arguments keep w Hd. eapply Forall_impl; [apply Hrun; exact Hd|].
    intros ev. apply Run_event_on_resolved. exact Hd. }
  intros err Hl. split; [|split; [|split]].
  - intros. unfold BufferFromBinary, bind.
    rewrite (LookupDevice_unknown _ _ _ _ Hl). simpl. split; [done|].
    apply new_events_app. done.
  - intros. unfold TransferFromOutfeed, bind.
    rewrite (LookupDevice_unknown _ _ _ _ Hl). simpl. split; [done|].
    apply new_events_app. done.
  - intros data shape w. split.
    + destruct (TransferToInfeed_unknown c data shape id err w Hl) as [e [w' [H He]]].
      exists e. rewrite H. auto.
    + eapply Forall_impl; [apply Hin|]. intros ev. apply unresolved_not_used with err. exact Hl.
  - intros ex fp arguments keep w Hd call.
    pose proof (Run_unknown_device (mkExlaExecutable ex fp c) arguments keep id err w Hd Hl)
      as Hcase. fold call in Hcase.
    split; [|split].
    + intros outs Heq. destruct Hcase as [[Ha _] | [msg Hm]]; rewrite Heq in *; discriminate.
    + intros Hwf. destruct Hcase as [[_ Hn] | Hm]; [contradiction | exact Hm].
    + eapply Forall_impl; [apply Hrun; exact Hd|]. intros ev Hev. split.
      * eapply unresolved_not_used; [exact Hl|]. eapply Run_event_on_resolved; eauto.
      * destruct ev; simpl in *; try tauto.
        -- destruct Hev as [_ [[dv [Hv _]] _]]. congruence.
        -- lia.
Qed.

End DeviceIds.

(** C9 as first stated fails: on the unknown device id 7, [TransferToInfeed]
    with a nested tuple shape neither looks the id up nor fails with the
    lookup's not-found error or an error of the runtime; it returns the
    file's own invalid-argument error and the runtime is never called. *)
Lemma TransferToInfeed_unknown_device_invalid_argument_without_lookup :
  pjrt_LookupDevice (client_ Sample.exla) Sample.unknown_id = Failure Sample.not_found /\
  TransferToInfeed Sample.exla (TList []) Sample.nested_shape Sample.unknown_id Sample.empty =
    (Fails (InvalidArgument "nested tuples are not supported in infeed operation"),
     Sample.empty) /\
  code (InvalidArgument "nested tuples are not supported in infeed operation") <> NOT_FOUND /\
  ~ In (EvLookupDevice Sample.unknown_id)
       (new_events Sample.empty
          (snd (TransferToInfeed Sample.exla (TList []) Sample.nested_shape
                  Sample.unknown_id Sample.empty))) /\
  new_events Sample.empty
    (snd (TransferToInfeed Sample.exla (TList []) Sample.nested_shape Sample.unknown_id
            Sample.empty)) = [].
Proof.
  split; [reflexivity|]. split; [reflexivity|]. split; [discriminate|].
  split; [intros Hin; exact Hin | reflexivity].
Qed.

(** ** Facts about the heap and the log used for [Run] *)

Lemma evolves_trace P w w' : evolves P w w' -> exists t, trace w' = trace w ++ t.
Proof. intros [[t [E _]] _]. eauto. Qed.

Lemma new_events_trans P Q w w1 w2 :
  evolves P w w1 -> evolves Q w1 w2 ->
  new_events w w2 = new_events w w1 ++ new_events w1 w2.
Proof.
  intros H1 H2. destruct (evolves_trace _ _ _ H1) as [t1 E1].
  destruct (evolves_trace _ _ _ H2) as [t2 E2].
  rewrite (new_events_app _ _ _ E1), (new_events_app _ _ _ E2).
  apply new_events_app. rewrite E2, E1, app_assoc. done.
Qed.

Lemma evolves_length P w w' :
  evolves P w w' -> (length (buffers w) <= length (buffers w'))%nat.
Proof.
  intros [_ [_ H]]. destruct (buffers w) as [|pb l] eqn:E using rev_ind; [simpl; lia|].
  clear IHl. destruct (H (length l) pb) as [pb' [L _]].
  { rewrite lookup_app_r by lia. rewrite Nat.sub_diag. done. }
  apply lookup_lt_Some in L. rewrite length_app. simpl. lia.
Qed.

Lemma evolves_freed P w w' h : evolves P w w' -> is_freed w h -> is_freed w' h.
Proof.
  intros [_ [_ H]] [pb [L F]]. destruct (H h pb L) as [pb' [L' [_ [_ F']]]].
  exists pb'. auto.
Qed.

Lemma evolves_resources P w w' b :
  evolves P w w' -> In b (env_resources w) -> In b (env_resources w').
Proof.
  intros [_ [[rs E] _]] H. rewrite E. apply in_or_app. left. exact H.
Qed.

Lemma destroy_inv h w w' :
  PjRtBuffer_destroy h w = (Returns tt, w') -> is_freed w' h.
Proof.
  unfold PjRtBuffer_destroy. intros H.
  destruct (bind_inv _ _ _ _ _ H) as [[pb [w1 [H1 H2]]] | [[e [_ He]] | [_ He]]];
    try discriminate.
  destruct (deref_inv _ _ _ _ H1) as [-> [[pb' [Er [L F]]] | [Er _]]]; [|discriminate].
  unfold bind, store, emit in H2. simpl in H2. inversion H2; subst.
  exists (mkPjRtBuffer (contents pb) true true). simpl. split; [|done].
  apply list_lookup_insert_eq. eapply lookup_lt_Some; eauto.
Qed.

Lemma destroy_all_ok hs :
  forall w w', destroy_all hs w = (Returns tt, w') -> Forall (is_freed w') hs.
Proof.
  induction hs as [|h hs IH]; intros w w' H; simpl in H; [constructor|].
  destruct (bind_inv _ _ _ _ _ H) as [[u [w1 [H1 H2]]] | [[e [_ He]] | [_ He]]];
    try discriminate.
  destruct u. constructor; [|eapply IH; eauto].
  eapply (evolves_freed (fun _ => True)).
  - eapply steps_destroy_all; [|exact H2]. done.
  - eapply destroy_inv; eauto.
Qed.

Lemma alloc_all_trace cs :
  forall w r w', alloc_all cs w = (r, w') ->
    trace w' = trace w /\ exists hs, r = Returns hs /\ length hs = length cs.
Proof.
  induction cs as [|c cs IH]; intros w r w' H; simpl in H.
  - inversion H; subst. split; [done|]. exists []. done.
  - unfold bind, alloc in H. simpl in H.
    match type of H with
    | context [alloc_all cs ?x] => destruct (alloc_all cs x) as [r1 w1] eqn:H1
    end.
    destruct (IH _ _ _ H1) as [Et [hs [-> Hlen]]]. simpl in Et.
    inversion H; subst. split; [done|]. eexists. split; [reflexivity|]. simpl. lia.
Qed.

Lemma alloc_replicas_trace css :
  forall w r w', alloc_replicas css w = (r, w') ->
    trace w' = trace w /\ exists hss, r = Returns hss /\ length hss = length css.
Proof.
  induction css as [|cs css IH]; intros w r w' H; simpl in H.
  - inversion H; subst. split; [done|]. exists []. done.
  - unfold bind in H. destruct (alloc_all cs w) as [r0 w0] eqn:H0.
    destruct (alloc_all_trace _ _ _ _ H0) as [E0 [hs [-> _]]].
    destruct (alloc_replicas css w0) as [r1 w1] eqn:H1.
    destruct (IH _ _ _ H1) as [Et [hss [-> Hlen]]].
    inversion H; subst. split; [congruence|].
    eexists. split; [reflexivity|]. simpl. lia.
Qed.

Lemma ExecutePortable_ok e args device options w hs w' :
  ExecutePortable e args device options w = (Returns hs, w') ->
  new_events w w' = [EvExecutePortable args (device_id device) options; EvResults [hs]].
Proof.
  unfold ExecutePortable, bind, emit, get_world. simpl.
  match goal with
  | |- context [of_status_or ?s ?x] => destruct s as [cs|err]; simpl; [|discriminate]
  end.
  match goal with
  | |- context [alloc_all cs ?x] => destruct (alloc_all cs x) as [r1 w1] eqn:H1
  end.
  destruct (alloc_all_trace _ _ _ _ H1) as [Et [hs1 [-> _]]]. simpl in Et.
  intros H. inversion H; subst. apply new_events_app. simpl.
  rewrite Et, <- app_assoc. done.
Qed.

Lemma Execute_ok e args options w hss w' :
  Execute e args options w = (Returns hss, w') ->
  new_events w w' = [EvExecute args options; EvResults hss].
Proof.
  unfold Execute, bind, emit, get_world. simpl.
  match goal with
  | |- context [of_status_or ?s ?x] => destruct s as [css|err]; simpl; [|discriminate]
  end.
  match goal with
  | |- context [alloc_replicas css ?x] => destruct (alloc_replicas css x) as [r1 w1] eqn:H1
  end.
  destruct (alloc_replicas_trace _ _ _ _ H1) as [Et [hss1 [-> _]]]. simpl in Et.
  intros H. inversion H; subst. apply new_events_app. simpl.
  rewrite Et, <- app_assoc. done.
Qed.

(** ** The buffers an execution hands back are new *)

Lemma alloc_all_fresh cs :
  forall w,
    alloc_all cs w =
      (Returns (seq (length (buffers w)) (length cs)),
       mkWorld (buffers w ++ map (fun c => mkPjRtBuffer c false false) cs)
               (env_resources w) (trace w)).
Proof.
  induction cs as [|c cs IH]; intros w; simpl.
  - rewrite app_nil_r. destruct w. reflexivity.
  - unfold bind, alloc. rewrite IH. simpl. rewrite length_app. simpl.
    rewrite Nat.add_1_r, <- app_assoc. reflexivity.
Qed.

Lemma alloc_replicas_fresh css :
  forall w, exists hss,
    alloc_replicas css w =
      (Returns hss,
       mkWorld (buffers w ++ map (fun c => mkPjRtBuffer c false false) (concat css))
               (env_resources w) (trace w)) /\
    concat hss = seq (length (buffers w)) (length (concat css)).
Proof.
  induction css as [|cs css IH]; intros w; simpl.
  - exists []. rewrite app_nil_r. destruct w. split; reflexivity.
  - unfold bind. rewrite alloc_all_fresh.
    destruct (IH (mkWorld (buffers w ++ map (fun c => mkPjRtBuffer c false false) cs)
                          (env_resources w) (trace w))) as [hss [Ha Hc]].
    rewrite Ha. simpl in *. eexists. split.
    + rewrite map_app, app_assoc. reflexivity.
    + simpl. rewrite Hc, !length_app, length_map, seq_app. reflexivity.
Qed.

Lemma fresh_handles_live (old : list PjRtBuffer) cs res tr :
  Forall (live (mkWorld (old ++ map (fun c => mkPjRtBuffer c false false) cs) res tr))
         (seq (length old) (length cs)).
Proof.
  apply List.Forall_forall. intros h Hin. apply in_seq in Hin.
  unfold live. simpl. rewrite lookup_app_r by lia.
  destruct (map (fun c => mkPjRtBuffer c false false) cs !! (h - length old)%nat)
    as [pb|] eqn:L.
  - exists pb. split; [done|].
    apply list_lookup_fmap_Some_1 in L. destruct L as [c [-> _]]. done.
  - apply lookup_ge_None in L. rewrite length_map in L. lia.
Qed.

Lemma live_by_lookup w w' h : buffers w' !! h = buffers w !! h -> live w h -> live w' h.
Proof. intros E [pb H]. exists pb. rewrite E. exact H. Qed.

Lemma NoDup_app_disjoint {A} (l l' : list A) a :
  List.NoDup (l ++ l') -> In a l -> ~ In a l'.
Proof.
  induction l as [|x l IH]; intros Hnd Hin Hin'; [destruct Hin|].
  simpl in Hnd. inversion Hnd as [|? ? Hx Hnd']; subst.
  destruct Hin as [->|Hin].
  - apply Hx. apply in_or_app. right. exact Hin'.
  - exact (IH Hnd' Hin Hin').
Qed.

Lemma Execute_inv e args options w r w1 :
  Execute e args options w = (r, w1) ->
  match r with
  | Returns hss => List.NoDup (concat hss) /\ Forall (live w1) (concat hss)
  | Fails _ => True
  | Aborts => False
  end.
Proof.
  unfold Execute, bind, emit, get_world. simpl.
  match goal with
  | |- context [of_status_or ?s ?x] => destruct s as [css|err]; simpl
  end; [|intros H; inversion H; subst; exact I].
  match goal with
  | |- context [alloc_replicas css ?x] => destruct (alloc_replicas_fresh css x) as [hss [Ha Hc]]
  end.
  rewrite Ha. simpl. intros H. inversion H; subst. simpl in Hc. rewrite Hc. split.
  - apply List.seq_NoDup.
  - apply (fresh_handles_live (buffers w) (concat css)).
Qed.

Lemma ExecutePortable_inv e args device options w r w1 :
  ExecutePortable e args device options w = (r, w1) ->
  match r with
  | Returns hs => List.NoDup hs /\ Forall (live w1) hs
  | Fails _ => True
  | Aborts => False
  end.
Proof.
  unfold ExecutePortable, bind, emit, get_world. simpl.
  match goal with
  | |- context [of_status_or ?s ?x] => destruct s as [cs|err]; simpl
  end; [|intros H; inversion H; subst; exact I].
  rewrite alloc_all_fresh. simpl. intros H. inversion H; subst. split.
  - apply List.seq_NoDup.
  - apply (fresh_handles_live (buffers w) cs).
Qed.

(** ** Reading back and packing, step by step *)

Lemma destroy_frame h0 h w r w' :
  PjRtBuffer_destroy h0 w = (r, w') -> h <> h0 -> buffers w' !! h = buffers w !! h.
Proof.
  unfold PjRtBuffer_destroy, bind, deref, store, emit.
  destruct (buffers w !! h0) as [pb|]; [destruct (freed pb)|]; simpl;
    intros H Hne; inversion H; subst; simpl; try done.
  apply list_lookup_insert_ne. congruence.
Qed.

Lemma destroy_all_frame hs :
  forall h w r w', destroy_all hs w = (r, w') -> ~ In h hs ->
                   buffers w' !! h = buffers w !! h.
Proof.
  induction hs as [|h0 hs IH]; intros h w r w' H Hnin; simpl in H.
  - inversion H; subst. done.
  - destruct (bind_inv _ _ _ _ _ H) as [[u [w1 [H1 H2]]] | [[e [H1 _]] | [H1 _]]].
    + rewrite (IH _ _ _ _ H2) by (intros Hin; apply Hnin; right; exact Hin).
      eapply destroy_frame; eauto. intros ->. apply Hnin. left. done.
    + eapply destroy_frame; eauto. intros ->. apply Hnin. left. done.
    + eapply destroy_frame; eauto. intros ->. apply Hnin. left. done.
Qed.

Section Unpacking.

Variable LayoutsInShapesEqual : Shape -> Shape -> bool.
Variable Relayout : Literal -> Shape -> Literal.

Lemma ToBinary_inv b size w r w' :
  ToBinary LayoutsInShapesEqual Relayout b size w = (r, w') ->
  buffers w' = buffers w /\ env_resources w' = env_resources w /\
  match r with
  | Returns t =>
      exists pb lit,
        buffers w !! buffer_ b = Some pb /\ freed pb = false /\ is_deleted pb = false /\
        contents_ready (contents pb) = OK /\ contents_value (contents pb) = Value lit /\
        t = TBinary (CopyLiteralToBinary
                       (if LayoutsInShapesEqual
                             (MakeShape (element_type (on_device_shape pb))
                                        (dimensions (on_device_shape pb)))
                             (literal_shape lit)
                        then lit
                        else Relayout lit
                               (MakeShape (element_type (on_device_shape pb))
                                          (dimensions (on_device_shape pb)))) size) /\
        new_events w w' = [EvBlockHostUntilReady (buffer_ b); EvToLiteral (buffer_ b)]
  | Fails e =>
      exists pb,
        buffers w !! buffer_ b = Some pb /\ freed pb = false /\
        ((new_events w w' = [EvBlockHostUntilReady (buffer_ b)] /\
          (is_deleted pb = true \/ contents_ready (contents pb) = NotOK e)) \/
         (new_events w w' = [EvBlockHostUntilReady (buffer_ b); EvToLiteral (buffer_ b)] /\
          contents_ready (contents pb) = OK /\
          contents_value (contents pb) = Failure e))
  | Aborts => ~ live w (buffer_ b)
  end.
Proof.
  unfold ToBinary, PjRtBuffer_BlockHostUntilReady, PjRtBuffer_ToLiteral, bind, emit, deref,
    live. simpl.
  destruct (buffers w !! buffer_ b) as [pb|] eqn:L.
  2:{ intros H; inversion H; subst. simpl. split; [done|]. split; [done|].
      intros [pb [L' _]]. discriminate. }
  destruct (freed pb) eqn:F.
  { intros H; inversion H; subst. simpl. split; [done|]. split; [done|].
    intros [pb' [L' F']]. congruence. }
  destruct (is_deleted pb) eqn:D.
  { intros H; inversion H; subst. simpl. split; [done|]. split; [done|].
    exists pb. split; [done|]. split; [done|]. left. split; [|left; done].
    apply new_events_app. done. }
  destruct (contents_ready (contents pb)) as [|e0] eqn:R; simpl.
  2:{ intros H; inversion H; subst. simpl. split; [done|]. split; [done|].
      exists pb. split; [done|]. split; [done|]. left. split; [|right; done].
      apply new_events_app. done. }
  rewrite L, F, D.
  destruct (contents_value (contents pb)) as [lit|e0] eqn:V; simpl.
  2:{ intros H; inversion H; subst. simpl. split; [done|]. split; [done|].
      exists pb. split; [done|]. split; [done|]. right.
      split; [apply new_events_app; simpl; rewrite <- app_assoc; done|]. done. }
  rewrite L, F.
  match goal with |- (if ?c then _ else _) _ = _ -> _ => destruct c eqn:Hle end;
    intros H; inversion H; subst; simpl; (split; [done|]); (split; [done|]);
    exists pb, lit; rewrite Hle;
    repeat (split; [done|]); apply new_events_app; simpl; rewrite <- app_assoc; done.
Qed.

Lemma UnpackResult_loop_keep result :
  forall terms w,
    UnpackResult_loop LayoutsInShapesEqual Relayout result true terms w =
      (Returns (run_ok (terms ++ map (fun h => TBuffer (mkExlaBuffer h false)) result)),
       mkWorld (buffers w)
               (env_resources w ++ map (fun h => mkExlaBuffer h false) result)
               (trace w ++ map (fun h => EvMakeResource (mkExlaBuffer h false)) result)).
Proof.
  induction result as [|h rest IH]; intros terms w; simpl.
  - rewrite !app_nil_r. destruct w. reflexivity.
  - unfold bind, nif_make_buffer. simpl. rewrite IH. simpl.
    rewrite <- !app_assoc. reflexivity.
Qed.

Lemma UnpackResult_loop_read_back result :
  forall terms w t w',
    UnpackResult_loop LayoutsInShapesEqual Relayout result false terms w = (Returns t, w') ->
    env_resources w' = env_resources w /\
    length (buffers w') = length (buffers w) /\
    ((exists outs,
        t = run_ok (terms ++ outs) /\
        Forall2 (fun h out =>
                   exists pb lit,
                     buffers w' !! h = Some pb /\
                     contents_value (contents pb) = Value lit /\
                     out = TBinary (host_bytes LayoutsInShapesEqual Relayout pb lit))
                result outs) \/
     (exists msg before h after,
        t = nif_error msg /\ result = before ++ h :: after /\
        Forall (is_freed w') before /\ Forall (is_freed w') after /\
        (~ In h before -> ~ In h after -> buffers w' !! h = buffers w !! h))).
Proof.
  induction result as [|h rest IH]; intros terms w t w' H; simpl in H.
  - inversion H; subst. split; [done|]. split; [done|]. left. exists [].
    rewrite app_nil_r. split; [done | constructor].
  - destruct (nif_inv _ _ _ _ _ _ H)
      as [[term [w1 [H1 H2]]] | [[e [w1 [H1 H2]]] | [_ He]]]; [| |discriminate].
    + destruct (ToBinary_inv _ _ _ _ _ H1)
        as [Hb1 [Hr1 [pb [lit [L [F [D [R [V [Et _]]]]]]]]]]. simpl in L.
      destruct (bind_inv _ _ _ _ _ H2) as [[u [w2 [Hd H3]]] | [[e [_ He]] | [_ He]]];
        try discriminate.
      simpl in Hd. destruct u.
      assert (Ed : evolves (fun _ => True) w1 w2) by (eapply steps_destroy; eauto; done).
      assert (El : evolves (fun _ => True) w2 w').
      { eapply steps_UnpackResult_loop; [| | | |exact H3]; done. }
      assert (Hlen2 : length (buffers w2) = length (buffers w1)).
      { revert Hd. unfold PjRtBuffer_destroy, bind, deref, store, emit.
        destruct (buffers w1 !! h) as [pb0|]; [destruct (freed pb0)|]; simpl;
          intros Hx; inversion Hx; subst; simpl. apply length_insert. }
      assert (Hres2 : env_resources w2 = env_resources w1).
      { revert Hd. unfold PjRtBuffer_destroy, bind, deref, store, emit.
        destruct (buffers w1 !! h) as [pb0|]; [destruct (freed pb0)|]; simpl;
          intros Hx; inversion Hx; subst; simpl. done. }
      destruct (IH _ _ _ _ H3) as [Hres [Hlen Hcase]].
      split; [congruence|]. split; [rewrite Hlen, Hlen2, Hb1; done|].
      destruct Hcase as [[outs [Eo F2]] | [msg [before [h1 [after [Em [Er [Fb [Fa Hkeep]]]]]]]]].
      * left. exists (term :: outs). rewrite Eo, <- app_assoc. split; [done|].
        constructor; [|exact F2].
        destruct Ed as [_ [_ Hd1]]. destruct El as [_ [_ Hl1]].
        rewrite <- Hb1 in L. destruct (Hd1 _ _ L) as [pb2 [L2 [C2 _]]].
        destruct (Hl1 _ _ L2) as [pb3 [L3 [C3 _]]].
        exists pb3, lit. split; [exact L3|]. split; [congruence|].
        rewrite Et. unfold host_bytes, on_device_shape. rewrite C3, C2.
        rewrite CopyLiteralToBinary_full by (left; lia). reflexivity.
      * right. exists msg, (h :: before), h1, after. split; [exact Em|].
        split; [rewrite Er; done|]. split.
        { constructor; [|exact Fb]. eapply evolves_freed; [exact El|].
          eapply destroy_inv; eauto. }
        split; [exact Fa|]. intros Hnb Hna.
        rewrite Hkeep by (auto; intros Hin; apply Hnb; right; exact Hin).
        rewrite (destroy_frame _ _ _ _ _ Hd) by (intros ->; apply Hnb; left; done).
        rewrite Hb1. done.
    + destruct (ToBinary_inv _ _ _ _ _ H1) as [Hb1 [Hr1 _]].
      destruct (bind_inv _ _ _ _ _ H2) as [[u [w2 [Hd H3]]] | [[e0 [_ He]] | [_ He]]];
        try discriminate.
      inversion H3; subst t w2. destruct u.
      assert (Eu : evolves (fun _ => True) w1 w')
        by (eapply steps_destroy_all; [|exact Hd]; done).
      assert (Hsame : env_resources w' = env_resources w1 /\
                      length (buffers w') = length (buffers w1)).
      { clear -Hd. revert w1 Hd. induction rest as [|h0 rest IHr]; intros w1 Hd; simpl in Hd.
        - inversion Hd; subst. done.
        - destruct (bind_inv _ _ _ _ _ Hd) as [[u [w2 [H1 H2]]] | [[e [_ He]] | [_ He]]];
            try discriminate.
          destruct (IHr _ H2) as [R2 L2]. revert H1.
          unfold PjRtBuffer_destroy, bind, deref, store, emit.
          destruct (buffers w1 !! h0) as [pb0|]; [destruct (freed pb0)|]; simpl;
            intros Hx; inversion Hx; subst; simpl in *.
          split; [done|]. rewrite L2. apply length_insert. }
      destruct Hsame as [Hres Hlen].
      split; [congruence|]. split; [congruence|].
      right. exists (error_message e), [], h, rest. split; [done|]. split; [done|].
      split; [constructor|]. split; [eapply destroy_all_ok; eauto|].
      intros _ Hna. rewrite (destroy_all_frame _ _ _ _ _ Hd Hna), Hb1. done.
Qed.

Lemma evolves_trace_new P w w' : evolves P w w' -> trace w' = trace w ++ new_events w w'.
Proof. intros [[t [E _]] _]. rewrite (new_events_app _ _ _ E). exact E. Qed.

Lemma destroy_trace h w w' :
  PjRtBuffer_destroy h w = (Returns tt, w') -> trace w' = trace w ++ [EvDestroy h].
Proof.
  unfold PjRtBuffer_destroy, bind, deref, store, emit.
  destruct (buffers w !! h) as [pb|]; [destruct (freed pb)|]; simpl;
    intros H; inversion H; subst; reflexivity.
Qed.

Lemma destroy_all_trace hs :
  forall w w', destroy_all hs w = (Returns tt, w') -> trace w' = trace w ++ map EvDestroy hs.
Proof.
  induction hs as [|h hs IH]; intros w w' H; simpl in H.
  - inversion H; subst. rewrite app_nil_r. reflexivity.
  - destruct (bind_inv _ _ _ _ _ H) as [[u [w1 [H1 H2]]] | [[e [_ He]] | [_ He]]];
      try discriminate.
    destruct u. rewrite (IH _ _ H2), (destroy_trace _ _ _ H1), <- app_assoc. reflexivity.
Qed.

(** Packing results that are read back logs, for each buffer in turn, its
    wait, its readback and its destruction, and nothing else. *)
Lemma UnpackResult_loop_read_back_trace result :
  forall terms w outs w',
    UnpackResult_loop LayoutsInShapesEqual Relayout result false terms w
      = (Returns (run_ok outs), w') ->
    trace w' = trace w ++ read_back_events result.
Proof.
  induction result as [|h rest IH]; intros terms w outs w' H; simpl in H.
  - inversion H; subst. unfold read_back_events. simpl. rewrite app_nil_r. reflexivity.
  - destruct (nif_inv _ _ _ _ _ _ H)
      as [[term [w1 [H1 H2]]] | [[e [w1 [H1 H2]]] | [_ He]]]; [| |discriminate].
    + assert (E1 : evolves (fun _ => True) w w1) by (eapply steps_ToBinary; eauto; done).
      destruct (ToBinary_inv _ _ _ _ _ H1) as [_ [_ [pb [lit [_ [_ [_ [_ [_ [_ Hev]]]]]]]]]].
      destruct (bind_inv _ _ _ _ _ H2) as [[u [w2 [Hd H3]]] | [[e [_ He]] | [_ He]]];
        try discriminate.
      destruct u. simpl in Hd, Hev.
      rewrite (IH _ _ _ _ H3), (destroy_trace _ _ _ Hd), (evolves_trace_new _ _ _ E1), Hev.
      unfold read_back_events. simpl. rewrite <- !app_assoc. reflexivity.
    + destruct (bind_inv _ _ _ _ _ H2) as [[u [w2 [_ H3]]] | [[e0 [_ He]] | [_ He]]];
        discriminate.
Qed.

End Unpacking.

(** ** Results of a run *)

Section Results.

Variable LayoutsInShapesEqual : Shape -> Shape -> bool.
Variable Relayout : Literal -> Shape -> Literal.

Lemma ToBinary_returns_binary b size w t w' :
  ToBinary LayoutsInShapesEqual Relayout b size w = (Returns t, w') -> is_binary_term t.
Proof.
  unfold ToBinary. intros H.
  destruct (bind_inv _ _ _ _ _ H) as [[u [w1 [_ H1]]] | [[e [_ He]] | [_ He]]];
    try discriminate.
  destruct (bind_inv _ _ _ _ _ H1) as [[lit [w2 [_ H2]]] | [[e [_ He]] | [_ He]]];
    try discriminate.
  destruct (bind_inv _ _ _ _ _ H2) as [[pb [w3 [_ H3]]] | [[e [_ He]] | [_ He]]];
    try discriminate.
  revert H3.
  match goal with |- (if ?c then _ else _) _ = _ -> _ => destruct c end;
    intros H3; inversion H3; subst; eexists; reflexivity.
Qed.

Lemma UnpackResult_loop_returns result :
  forall keep terms w t w',
    UnpackResult_loop LayoutsInShapesEqual Relayout result keep terms w = (Returns t, w') ->
    (exists msg, t = nif_error msg /\ keep = false) \/
    (exists outs,
       t = run_ok (terms ++ outs) /\ length outs = length result /\
       (keep = true -> outs = map (fun h => TBuffer (mkExlaBuffer h false)) result) /\
       (keep = false -> Forall is_binary_term outs /\ Forall (is_freed w') result)).
Proof.
  induction result as [|h rest IH]; intros keep terms w t w' H; simpl in H.
  - inversion H; subst. right. exists []. rewrite app_nil_r.
    split; [done|]. split; [done|]. split; [done|]. intros _. split; constructor.
  - destruct keep.
    + unfold bind, nif_make_buffer in H. simpl in H.
      destruct (IH _ _ _ _ _ H) as [[msg [_ Hk]] | [outs [Et [Hlen [Hk _]]]]];
        [discriminate|].
      right. exists (TBuffer (mkExlaBuffer h false) :: outs).
      rewrite Et, <- app_assoc. split; [done|]. split; [simpl; lia|].
      split; [|discriminate]. intros _. simpl. rewrite (Hk eq_refl). done.
    + destruct (nif_inv _ _ _ _ _ _ H)
        as [[term [w1 [H1 H2]]] | [[e [w1 [H1 H2]]] | [_ He]]]; [| |discriminate].
      * destruct (bind_inv _ _ _ _ _ H2) as [[u [w2 [Hd H3]]] | [[e [_ He]] | [_ He]]];
          try discriminate.
        destruct u. simpl in Hd.
        destruct (IH _ _ _ _ _ H3) as [[msg [Em Hk]] | [outs [Et [Hlen [_ Hk]]]]].
        { left. eauto. }
        right. exists (term :: outs). rewrite Et, <- app_assoc.
        split; [done|]. split; [simpl; lia|]. split; [discriminate|]. intros _.
        destruct (Hk eq_refl) as [Hb Hf]. split.
        -- constructor; [eapply ToBinary_returns_binary; eauto | exact Hb].
        -- constructor; [|exact Hf].
           eapply (evolves_freed (fun _ => True)); [|eapply destroy_inv; eauto].
           eapply steps_UnpackResult_loop; [| | | |exact H3]; done.
      * left. destruct (bind_inv _ _ _ _ _ H2) as [[u [w2 [_ H3]]] | [[e0 [_ He]] | [_ He]]];
          try discriminate.
        inversion H3; subst. eauto.
Qed.

Lemma nif_error_not_ok msg outs : nif_error msg <> run_ok outs.
Proof. discriminate. Qed.

Lemma read_back_evolves P w w' h out :
  evolves P w w' ->
  read_back LayoutsInShapesEqual Relayout w h out ->
  read_back LayoutsInShapesEqual Relayout w' h out.
Proof.
  intros [_ [_ Hb]] [pb [lit [L [V E]]]].
  destruct (Hb _ _ L) as [pb' [L' [C _]]].
  exists pb', lit. split; [exact L'|]. split; [congruence|].
  rewrite E. unfold host_bytes, on_device_shape. rewrite C. reflexivity.
Qed.

(** What a successful [UnpackResult] returns for the buffers it was given. *)
Lemma UnpackResult_ok result keep w outs w' :
  UnpackResult LayoutsInShapesEqual Relayout result keep w = (Returns (run_ok outs), w') ->
  length outs = length result /\
  (keep = true ->
     outs = map (fun h => TBuffer (mkExlaBuffer h false)) result /\
     buffers w' = buffers w /\
     Forall (fun h => In (mkExlaBuffer h false) (env_resources w')) result) /\
  (keep = false ->
     Forall is_binary_term outs /\ Forall (is_freed w') result /\
     Forall2 (read_back LayoutsInShapesEqual Relayout w') result outs).
Proof.
  intros H. unfold UnpackResult in H.
  destruct (UnpackResult_loop_returns _ _ _ _ _ _ H) as [[msg [Em _]] | [o [Et [Hlen [Hk Hf]]]]].
  { exfalso. symmetry in Em. revert Em. apply nif_error_not_ok. }
  simpl in Et. inversion Et; subst o. split; [exact Hlen|]. split.
  - intros ->. split; [exact (Hk eq_refl)|].
    rewrite UnpackResult_loop_keep in H. inversion H as [[Eo Ew]]. simpl.
    split; [done|]. apply List.Forall_forall. intros h Hin.
    apply in_or_app. right. apply (in_map (fun h0 => mkExlaBuffer h0 false)). exact Hin.
  - intros ->. destruct (Hf eq_refl) as [Hb Hfr]. split; [exact Hb|]. split; [exact Hfr|].
    destruct (UnpackResult_loop_read_back _ _ _ _ _ _ _ H)
      as [_ [_ [[o [Eo F2]] | [msg [before [h [after [Em _]]]]]]]].
    + simpl in Eo. inversion Eo; subst o. exact F2.
    + discriminate Em.
Qed.

Lemma no_results_in l replicas :
  Forall (fun ev => ~ is_results ev) l -> ~ In (EvResults replicas) l.
Proof.
  intros F Hin. rewrite List.Forall_forall in F. apply (F _ Hin). exact I.
Qed.

(** A successful portable dispatch: the device came from the lookup, the
    execution produced one result set, and the outputs are that set's:
    handles of its buffers, which stay live and are resources, or their
    values read back, after which they are freed. *)
Lemma Run_dispatch_portable_ok e pjrt_buffers keep d w outs w' :
  0 <= d ->
  Run_dispatch LayoutsInShapesEqual Relayout e pjrt_buffers keep d
               (mkExecuteOptions true false) w = (Returns (run_ok outs), w') ->
  exists device hs,
    pjrt_LookupDevice (client_ (exe_client_ e)) d = Value device /\
    In (EvExecutePortable pjrt_buffers (device_id device) (mkExecuteOptions true false))
       (new_events w w') /\
    In (EvResults [hs]) (new_events w w') /\
    (forall replicas, In (EvResults replicas) (new_events w w') -> replicas = [hs]) /\
    length outs = length hs /\
    (keep = true ->
       outs = map (fun h => TBuffer (mkExlaBuffer h false)) hs /\
       Forall (live w') hs /\
       Forall (fun h => In (mkExlaBuffer h false) (env_resources w')) hs) /\
    (keep = false ->
       Forall is_binary_term outs /\ Forall (is_freed w') hs /\
       Forall2 (read_back LayoutsInShapesEqual Relayout w') hs outs /\
       exists before, new_events w w' = before ++ read_back_events hs).
Proof.
  intros Hd H. unfold Run_dispatch in H.
  destruct (0 <=? d) eqn:E; [|apply Z.leb_gt in E; lia].
  destruct (nif_inv _ _ _ _ _ _ H)
    as [[device [w1 [H1 H2]]] | [[e0 [w1 [_ H2]]] | [_ He]]]; [| |discriminate].
  2:{ inversion H2. }
  destruct (LookupDevice_inv _ _ _ _ _ H1) as [_ [[dv [Hv Er]] | [e1 [_ Er]]]];
    [|discriminate].
  inversion Er; subst dv. clear Er.
  destruct (nif_inv _ _ _ _ _ _ H2)
    as [[hs [w2 [H3 H4]]] | [[e0 [w2 [_ H4]]] | [_ He]]]; [| |discriminate].
  2:{ inversion H4. }
  destruct (nif_inv _ _ _ _ _ _ H4)
    as [[t [w3 [H5 H6]]] | [[e0 [w3 [_ H6]]] | [_ He]]]; [| |discriminate].
  2:{ inversion H6. }
  inversion H6; subst t w3. clear H6.
  destruct (UnpackResult_ok _ _ _ _ _ H5) as [Hlen [Hk Hf]].
  destruct (ExecutePortable_inv _ _ _ _ _ _ _ H3) as [_ Hlive].
  exists device, hs. split; [exact Hv|].
  assert (E1 : evolves (fun ev => ~ is_results ev) w w1)
    by (eapply steps_LookupDevice; eauto; simpl; tauto).
  assert (E2 : evolves (fun _ => True) w1 w2)
    by (eapply steps_ExecutePortable; [| |exact H3]; done).
  assert (E3 : evolves (fun ev => ~ is_results ev) w2 w').
  { eapply steps_UnpackResult_loop; [| | | |exact H5]; simpl; tauto. }
  assert (E23 : evolves (fun _ => True) w1 w').
  { eapply evolves_trans; [exact E2|]. eapply evolves_weaken; [|exact E3]. done. }
  rewrite (new_events_trans _ _ _ _ _ E1 E23).
  rewrite (new_events_trans _ _ _ _ _ E2 E3).
  rewrite (ExecutePortable_ok _ _ _ _ _ _ _ H3).
  split; [|split; [|split; [|split; [exact Hlen|split]]]].
  - apply in_or_app. right. apply in_or_app. left. left. done.
  - apply in_or_app. right. apply in_or_app. left. right. left. done.
  - intros replicas Hin. apply in_app_or in Hin. destruct Hin as [Hin|Hin].
    { exfalso. eapply no_results_in; [|exact Hin]. apply (evolves_new_events _ _ _ E1). }
    apply in_app_or in Hin. destruct Hin as [Hin|Hin].
    + destruct Hin as [Hin|[Hin|[]]]; [discriminate|]. inversion Hin. done.
    + exfalso. eapply no_results_in; [|exact Hin]. apply (evolves_new_events _ _ _ E3).
  - intros Hkeep. destruct (Hk Hkeep) as [Eo [Eb Hres]].
    split; [exact Eo|]. split; [|exact Hres].
    eapply Forall_impl; [exact Hlive|]. intros h. apply live_same_buffers. exact Eb.
  - intros Hkeep. destruct (Hf Hkeep) as [Hb [Hfr F2]].
    split; [exact Hb|]. split; [exact Hfr|]. split; [exact F2|].
    subst keep. unfold UnpackResult in H5.
    rewrite (new_events_app _ _ _ (UnpackResult_loop_read_back_trace _ _ _ _ _ _ _ H5)).
    eexists. rewrite !app_assoc. reflexivity.
Qed.

(** A successful default dispatch: one execution with the one list of
    inputs; the outputs are the first replica's, as above, and the buffers
    of the other replicas are freed. *)
Lemma Run_dispatch_default_ok e pjrt_buffers keep d w outs w' :
  d < 0 ->
  Run_dispatch LayoutsInShapesEqual Relayout e pjrt_buffers keep d
               (mkExecuteOptions true false) w = (Returns (run_ok outs), w') ->
  exists first others,
    In (EvExecute [pjrt_buffers] (mkExecuteOptions true false)) (new_events w w') /\
    In (EvResults (first :: others)) (new_events w w') /\
    (forall replicas, In (EvResults replicas) (new_events w w') ->
                      replicas = first :: others) /\
    length outs = length first /\
    (keep = true ->
       outs = map (fun h => TBuffer (mkExlaBuffer h false)) first /\
       Forall (live w') first /\
       Forall (fun h => In (mkExlaBuffer h false) (env_resources w')) first) /\
    (keep = false ->
       Forall is_binary_term outs /\ Forall (is_freed w') first /\
       Forall2 (read_back LayoutsInShapesEqual Relayout w') first outs /\
       exists before,
         new_events w w' = before ++ read_back_events first ++ map EvDestroy (concat others)) /\
    Forall (is_freed w') (concat others).
Proof.
  intros Hd H. unfold Run_dispatch in H.
  destruct (0 <=? d) eqn:E; [apply Z.leb_le in E; lia|].
  destruct (nif_inv _ _ _ _ _ _ H)
    as [[hss [w1 [H1 H2]]] | [[e0 [w1 [_ H2]]] | [_ He]]]; [| |discriminate].
  2:{ inversion H2. }
  destruct (bind_inv _ _ _ _ _ H2) as [[first [w2 [Ha H3]]] | [[e0 [_ He]] | [_ He]]];
    try discriminate.
  destruct hss as [|first0 others]; [discriminate|]. inversion Ha; subst first0 w2. clear Ha.
  simpl in H3.
  destruct (nif_inv _ _ _ _ _ _ H3)
    as [[t [w3 [H5 H6]]] | [[e0 [w3 [_ H6]]] | [_ He]]]; [| |discriminate].
  2:{ destruct (bind_inv _ _ _ _ _ H6) as [[u [w4 [_ H7]]] | [[e1 [_ He]] | [_ He]]];
        try discriminate; inversion H7. }
  destruct (bind_inv _ _ _ _ _ H6) as [[u [w4 [Hdes H7]]] | [[e1 [_ He]] | [_ He]]];
    try discriminate.
  inversion H7; subst t w4. clear H7. destruct u.
  destruct (UnpackResult_ok _ _ _ _ _ H5) as [Hlen [Hk Hf]].
  destruct (Execute_inv _ _ _ _ _ _ H1) as [Hnd Hlive]. simpl in Hnd, Hlive.
  assert (E1 : evolves (fun _ => True) w w1) by (eapply steps_Execute; [| |exact H1]; done).
  assert (E2 : evolves (fun ev => ~ is_results ev) w1 w3).
  { eapply steps_UnpackResult_loop; [| | | |exact H5]; simpl; tauto. }
  assert (E3 : evolves (fun ev => ~ is_results ev) w3 w').
  { eapply steps_destroy_all; [|exact Hdes]; simpl; tauto. }
  pose proof (evolves_trans _ _ _ _ E2 E3) as E23.
  exists first, others.
  rewrite (new_events_trans _ _ _ _ _ E1 E23).
  rewrite (Execute_ok _ _ _ _ _ _ H1).
  split; [left; done|]. split; [right; left; done|]. split; [|split; [exact Hlen|]].
  { intros replicas Hin. apply in_app_or in Hin. destruct Hin as [Hin|Hin].
    - destruct Hin as [Hin|[Hin|[]]]; [discriminate|]. inversion Hin. done.
    - exfalso. eapply no_results_in; [|exact Hin]. apply (evolves_new_events _ _ _ E23). }
  split; [|split].
  - intros Hkeep. destruct (Hk Hkeep) as [Eo [Eb Hres]]. split; [exact Eo|]. split.
    + apply List.Forall_forall. intros h Hin.
      eapply live_by_lookup.
      * eapply destroy_all_frame; [exact Hdes|].
        exact (NoDup_app_disjoint _ _ _ Hnd Hin).
      * eapply live_same_buffers; [exact Eb|].
        rewrite List.Forall_forall in Hlive. apply Hlive. apply in_or_app. left. exact Hin.
    + eapply Forall_impl; [exact Hres|]. intros h.
      apply evolves_resources with (P := fun ev => ~ is_results ev). exact E3.
  - intros Hkeep. destruct (Hf Hkeep) as [Hb [Hfr F2]]. split; [exact Hb|].
    split; [|split].
    + eapply Forall_impl; [exact Hfr|]. intros h.
      apply evolves_freed with (P := fun ev => ~ is_results ev). exact E3.
    + eapply Forall2_impl; [exact F2|]. intros h out.
      apply read_back_evolves with (P := fun ev => ~ is_results ev). exact E3.
    + subst keep. unfold UnpackResult in H5.
      rewrite (new_events_trans _ _ _ _ _ E2 E3).
      rewrite (new_events_app _ _ _ (UnpackResult_loop_read_back_trace _ _ _ _ _ _ _ H5)).
      rewrite (new_events_app _ _ _ (destroy_all_trace _ _ _ Hdes)).
      eexists. reflexivity.
  - eapply destroy_all_ok; eauto.
Qed.

End Results.

(** ** [Run]: dispatch and outputs *)

(** Decoding the arguments and waiting for the inputs executes nothing. *)
Lemma Run_prepare_events arguments c id w r1 w1 bufs r2 w2 :
  UnpackRunArguments arguments c id w = (r1, w1) ->
  Run_inputs bufs [] w1 = (r2, w2) ->
  evolves (fun ev => ~ is_results ev /\ ~ is_execution ev) w w1 /\
  evolves (fun ev => ~ is_results ev /\ ~ is_execution ev) w1 w2.
Proof.
  intros H1 H2. split.
  - eapply steps_UnpackRunArguments; [| |exact H1]; simpl; tauto.
  - eapply steps_Run_inputs; [| |exact H2]; simpl; tauto.
Qed.

Lemma in_new_events_later P Q w w1 w2 ev :
  evolves P w w1 -> evolves Q w1 w2 ->
  In ev (new_events w1 w2) -> In ev (new_events w w2).
Proof.
  intros E1 E2 Hin. rewrite (new_events_trans _ _ _ _ _ E1 E2).
  apply in_or_app. right. exact Hin.
Qed.

Lemma results_of_dispatch P w w2 w' replicas :
  evolves (fun ev => ~ is_results ev /\ ~ is_execution ev) w w2 -> evolves P w2 w' ->
  In (EvResults replicas) (new_events w w') -> In (EvResults replicas) (new_events w2 w').
Proof.
  intros E1 E2 Hin. rewrite (new_events_trans _ _ _ _ _ E1 E2) in Hin.
  apply in_app_or in Hin. destruct Hin as [Hin|Hin]; [|exact Hin].
  exfalso. pose proof (evolves_new_events _ _ _ E1) as F.
  rewrite List.Forall_forall in F. destruct (F _ Hin) as [Hn _]. apply Hn. exact I.
Qed.

Section RunDispatch.

Variable LayoutsInShapesEqual : Shape -> Shape -> bool.
Variable Relayout : Literal -> Shape -> Literal.

Lemma Run_ok_phases e arguments keep d w outs w' :
  Run LayoutsInShapesEqual Relayout e arguments keep d w = (Returns (run_ok outs), w') ->
  exists bufs w1 pjrt_buffers w2,
    UnpackRunArguments arguments (exe_client_ e) (if 0 <=? d then d else 0) w
      = (Returns bufs, w1) /\
    Run_inputs bufs [] w1 = (Returns pjrt_buffers, w2) /\
    Run_dispatch LayoutsInShapesEqual Relayout e pjrt_buffers keep d
                 (mkExecuteOptions true false) w2 = (Returns (run_ok outs), w').
Proof.
  intros H. unfold Run in H.
  destruct (nif_inv _ _ _ _ _ _ H)
    as [[bufs [w1 [H1 H2]]] | [[e0 [w1 [_ H2]]] | [_ He]]]; [| |discriminate].
  2:{ inversion H2. }
  destruct (nif_inv _ _ _ _ _ _ H2)
    as [[pj [w2 [H3 H4]]] | [[e0 [w2 [_ H4]]] | [_ He]]]; [| |discriminate].
  2:{ inversion H4. }
  exists bufs, w1, pj, w2. split; [|auto].
  destruct (0 <=? d); exact H1.
Qed.

(** C3. [Run] with [device_id >= 0] never executes against the default
    configuration: each execution is portable, on the device the lookup of
    [device_id] returned, and yields one result set.  The outputs of a
    successful run are that set's, one per buffer and in order: the handles
    of its buffers when they are kept on the device, their values read back
    when they are not.  With [device_id < 0] it never executes portably: the
    execution is the default one, on the one list of inputs, and the outputs
    of a successful run are, in the same way, those of the first replica
    only; the buffers of the other replicas are freed. *)
Theorem Run_dispatches_by_device_id (e : ExlaExecutable) (arguments : term)
    (keep : bool) (d : Z) (w : World) :
  let c := client_ (exe_client_ e) in
  let options := mkExecuteOptions true false in
  let call := Run LayoutsInShapesEqual Relayout e arguments keep d w in
  let events := new_events w (snd call) in
  (0 <= d ->
     Forall (fun ev => match ev with
                       | EvExecute _ _ => False
                       | EvExecutePortable _ dev opts => resolved c d dev /\ opts = options
                       | EvResults replicas => length replicas = 1%nat
                       | _ => True
                       end) events /\
     forall outs, fst call = Returns (run_ok outs) ->
       exists pjrt_buffers device hs,
         pjrt_LookupDevice c d = Value device /\
         In (EvExecutePortable pjrt_buffers (device_id device) options) events /\
         In (EvResults [hs]) events /\
         (forall replicas, In (EvResults replicas) events -> replicas = [hs]) /\
         length outs = length hs /\
         (keep = true -> outs = map (fun h => TBuffer (mkExlaBuffer h false)) hs) /\
         (keep = false ->
            Forall2 (read_back LayoutsInShapesEqual Relayout (snd call)) hs outs)) /\
  (d < 0 ->
     Forall (fun ev => match ev with
                       | EvExecutePortable _ _ _ => False
                       | EvExecute inputs opts => length inputs = 1%nat /\ opts = options
                       | _ => True
                       end) events /\
     forall outs, fst call = Returns (run_ok outs) ->
       exists pjrt_buffers first others,
         In (EvExecute [pjrt_buffers] options) events /\
         In (EvResults (first :: others)) events /\
         (forall replicas, In (EvResults replicas) events -> replicas = first :: others) /\
         length outs = length first /\
         (keep = true -> outs = map (fun h => TBuffer (mkExlaBuffer h false)) first) /\
         (keep = false ->
            Forall2 (read_back LayoutsInShapesEqual Relayout (snd call)) first outs) /\
         Forall (is_freed (snd call)) (concat others)).
Proof.
  intros c options call events.
  destruct call as [r w'] eqn:Hcall. simpl in events.
  pose proof (steps_Run LayoutsInShapesEqual Relayout e arguments keep d _ _ _ Hcall) as Hev.
  apply evolves_new_events in Hev. fold c events in Hev.
  split; intros Hd.
  - split.
    + eapply Forall_impl; [exact Hev|]. intros ev. destruct ev; simpl; try tauto. lia.
    + intros outs Hr. simpl in Hr. subst r.
      destruct (Run_ok_phases _ _ _ _ _ _ _ Hcall) as [bufs [w1 [pj [w2 [H1 [H2 H3]]]]]].
      destruct (Run_prepare_events _ _ _ _ _ _ _ _ _ H1 H2) as [E1 E2].
      pose proof (evolves_trans _ _ _ _ E1 E2) as E12.
      pose proof (steps_Run_dispatch _ _ _ _ _ _ _ _ _ H3) as E3.
      destruct (Run_dispatch_portable_ok _ _ _ _ _ _ _ _ _ Hd H3)
        as [device [hs [Hv [Hx [Hres [Huniq [Hlen [Hk Hf]]]]]]]].
      exists pj, device, hs. split; [exact Hv|].
      split; [eapply in_new_events_later; eauto|].
      split; [eapply in_new_events_later; eauto|].
      split; [|split; [exact Hlen|split]].
      * intros replicas Hin. apply Huniq. eapply results_of_dispatch; eauto.
      * intros Hkeep. exact (proj1 (Hk Hkeep)).
      * intros Hkeep. simpl. exact (proj1 (proj2 (proj2 (Hf Hkeep)))).
  - split.
    + eapply Forall_impl; [exact Hev|]. intros ev. destruct ev; simpl; try tauto. lia.
    + intros outs Hr. simpl in Hr. subst r.
      destruct (Run_ok_phases _ _ _ _ _ _ _ Hcall) as [bufs [w1 [pj [w2 [H1 [H2 H3]]]]]].
      destruct (Run_prepare_events _ _ _ _ _ _ _ _ _ H1 H2) as [E1 E2].
      pose proof (evolves_trans _ _ _ _ E1 E2) as E12.
      pose proof (steps_Run_dispatch _ _ _ _ _ _ _ _ _ H3) as E3.
      destruct (Run_dispatch_default_ok _ _ _ _ _ _ _ _ _ Hd H3)
        as [first [others [Hx [Hres [Huniq [Hlen [Hk [Hf Hfreed]]]]]]]].
      exists pj, first, others.
      split; [eapply in_new_events_later; eauto|].
      split; [eapply in_new_events_later; eauto|].
      split; [|split; [exact Hlen|split; [|split; [|exact Hfreed]]]].
      * intros replicas Hin. apply Huniq. eapply results_of_dispatch; eauto.
      * intros Hkeep. exact (proj1 (Hk Hkeep)).
      * intros Hkeep. simpl. exact (proj1 (proj2 (proj2 (Hf Hkeep)))).
Qed.

(** C5. A successful [Run] returns one output for each buffer of the result
    set the execution handed back (the first replica's when there are
    several), in the order of the buffers.  With [keep_on_device] each
    output is the handle of its buffer, which is still live and is a
    resource of the caller's environment, and no buffer was read back to the
    host during the call.  Without it each output is a binary holding all
    the bytes of its buffer's value in the host layout, so that no buffer
    handle is among the outputs.  The buffers are read one after the other,
    each destroyed as soon as it was read, and every buffer the execution
    produced is freed when the call returns. *)
Theorem Run_outputs_kept_or_read_back (e : ExlaExecutable) (arguments : term)
    (keep : bool) (d : Z) (w : World) (outs : list term) :
  let call := Run LayoutsInShapesEqual Relayout e arguments keep d w in
  let events := new_events w (snd call) in
  fst call = Returns (run_ok outs) ->
  exists result others,
    In (EvResults (result :: others)) events /\
    (forall replicas, In (EvResults replicas) events -> replicas = result :: others) /\
    length outs = length result /\
    (keep = true ->
       outs = map (fun h => TBuffer (mkExlaBuffer h false)) result /\
       Forall (live (snd call)) result /\
       Forall (fun h => In (mkExlaBuffer h false) (env_resources (snd call))) result /\
       Forall (fun ev => ~ is_readback ev) events) /\
    (keep = false ->
       Forall2 (read_back LayoutsInShapesEqual Relayout (snd call)) result outs /\
       Forall is_binary_term outs /\
       Forall (is_freed (snd call)) (concat (result :: others)) /\
       exists before,
         events = before ++ read_back_events result ++ map EvDestroy (concat others)).
Proof.
  intros call events. subst events.
  destruct call as [r w'] eqn:Hcall. simpl. intros Hr. subst r.
  pose proof (steps_Run LayoutsInShapesEqual Relayout e arguments keep d _ _ _ Hcall) as Hev.
  apply evolves_new_events in Hev.
  destruct (Run_ok_phases _ _ _ _ _ _ _ Hcall) as [bufs [w1 [pj [w2 [H1 [H2 H3]]]]]].
  destruct (Run_prepare_events _ _ _ _ _ _ _ _ _ H1 H2) as [E1 E2].
  pose proof (evolves_trans _ _ _ _ E1 E2) as E12.
  pose proof (steps_Run_dispatch _ _ _ _ _ _ _ _ _ H3) as E3.
  assert (Hok : exists first others,
             In (EvResults (first :: others)) (new_events w2 w') /\
             (forall replicas, In (EvResults replicas) (new_events w2 w') ->
                               replicas = first :: others) /\
             length outs = length first /\
             (keep = true ->
                outs = map (fun h => TBuffer (mkExlaBuffer h false)) first /\
                Forall (live w') first /\
                Forall (fun h => In (mkExlaBuffer h false) (env_resources w')) first) /\
             (keep = false ->
                Forall is_binary_term outs /\ Forall (is_freed w') first /\
                Forall2 (read_back LayoutsInShapesEqual Relayout w') first outs /\
                exists before,
                  new_events w2 w' =
                    before ++ read_back_events first ++ map EvDestroy (concat others)) /\
             Forall (is_freed w') (concat others)).
  { destruct (Z_lt_le_dec d 0) as [Hd|Hd].
    - destruct (Run_dispatch_default_ok _ _ _ _ _ _ _ _ _ Hd H3)
        as [first [others [_ [Hin [Huniq [Hlen [Hk [Hf Hfreed]]]]]]]].
      exists first, others. auto 10.
    - destruct (Run_dispatch_portable_ok _ _ _ _ _ _ _ _ _ Hd H3)
        as [device [hs [_ [_ [Hin [Huniq [Hlen [Hk Hf]]]]]]]].
      exists hs, []. split; [exact Hin|]. split; [exact Huniq|]. split; [exact Hlen|].
      split; [exact Hk|]. split; [|constructor].
      intros Hkeep. destruct (Hf Hkeep) as [Hb [Hfr [F2 [before Eb]]]].
      split; [exact Hb|]. split; [exact Hfr|]. split; [exact F2|].
      exists before. simpl. rewrite app_nil_r. exact Eb. }
  destruct Hok as [first [others [Hin [Huniq [Hlen [Hk [Hf Hfreed]]]]]]].
  exists first, others.
  split; [eapply in_new_events_later; eauto|].
  split; [|split; [exact Hlen|split]].
  - intros replicas Hr. apply Huniq. eapply results_of_dispatch; eauto.
  - intros Hkeep. destruct (Hk Hkeep) as [Eo [Hl Hres]].
    split; [exact Eo|]. split; [exact Hl|]. split; [exact Hres|].
    eapply Forall_impl; [exact Hev|]. intros ev Hrun Hrb.
    destruct ev; simpl in *; try contradiction. congruence.
  - intros Hkeep. destruct (Hf Hkeep) as [Hb [Hfr [F2 [before Eb]]]].
    split; [exact F2|]. split; [exact Hb|]. split.
    + simpl. apply Forall_app. split; [exact Hfr | exact Hfreed].
    + exists (new_events w w2 ++ before).
      rewrite (new_events_trans _ _ _ _ _ E12 E3), Eb, <- app_assoc. reflexivity.
Qed.

End RunDispatch.

(** ** [Run]: the input buffers *)

Lemma BufferFromBinary_ok c data shape id flag w buf w1 :
  BufferFromBinary c data shape id flag w = (Returns buf, w1) ->
  exists dev,
    resolved (client_ c) id dev /\
    buf = mkExlaBuffer (length (buffers w)) flag /\
    new_events w w1 =
      [EvLookupDevice id;
       EvBufferFromHostBuffer data shape dev (Some (length (buffers w)))].
Proof.
  unfold BufferFromBinary, bind, LookupDevice, bind, emit, BufferFromHostBuffer, bind,
    get_world, alloc, emit. simpl.
  destruct (pjrt_LookupDevice (client_ c) id) as [device|e] eqn:Hl; simpl; [|discriminate].
  destruct (length data <? pjrt_ByteSizeOf (client_ c) shape)%nat; [discriminate|].
  simpl.
  match goal with
  | |- context [pjrt_BufferFromHostBuffer ?a ?b ?c ?d ?f] =>
      destruct (pjrt_BufferFromHostBuffer a b c d f) as [cts|e]; simpl; [|discriminate]
  end.
  intros H. inversion H; subst. exists (device_id device).
  split; [exists device; auto|]. split; [done|].
  apply new_events_app. simpl. rewrite <- app_assoc. done.
Qed.

Lemma input_of_mono base base' (events events' : list Event) t b :
  (base <= base')%nat -> (forall ev, In ev events' -> In ev events) ->
  input_of base' events' t b -> input_of base events t b.
Proof.
  intros Hb Hev. destruct t as [| | | |tuple| | |]; simpl; auto.
  destruct tuple as [|t0 tuple]; auto. destruct t0; auto.
  destruct tuple as [|t1 tuple]; auto. destruct t1; auto.
  intros [Hr [Hbase [dev Hin]]]. split; [exact Hr|]. split; [lia|]. eauto.
Qed.

Lemma UnpackRunArguments_loop_returns c id cells :
  forall acc w bufs w1,
    UnpackRunArguments_loop cells c id acc w = (Returns bufs, w1) ->
    exists more,
      bufs = acc ++ more /\
      Forall2 (input_of (length (buffers w)) (new_events w w1)) cells more /\
      (forall data shape dev h,
         In (EvBufferFromHostBuffer data shape dev (Some h)) (new_events w w1) ->
         In (mkExlaBuffer h true) more).
Proof.
  induction cells as [|head tail IH]; intros acc w bufs w1 H; simpl in H.
  - inversion H; subst. exists []. rewrite app_nil_r. split; [done|]. split; [constructor|].
    unfold new_events. rewrite drop_all. intros ? ? ? ? Hin. simpl in Hin. contradiction.
  - destruct head as [| | | |tuple| | |b]; try discriminate.
    + unfold bind, tuple_at in H.
      destruct tuple as [|t0 tuple]; simpl in H; [discriminate|].
      destruct t0 as [| | |data| | | |]; try discriminate.
      destruct tuple as [|t1 tuple]; simpl in H; [discriminate|].
      destruct t1 as [| | | | | |shape|]; try discriminate.
      destruct (BufferFromBinary c data shape id true w) as [[buf|e|] wm] eqn:Hb;
        try discriminate.
      destruct (BufferFromBinary_ok _ _ _ _ _ _ _ _ Hb) as [dev [Hres [Ebuf Eev]]].
      assert (E1 : evolves (fun _ => True) w wm).
      { eapply steps_BufferFromBinary; [| |exact Hb]; done. }
      assert (E2 : evolves (fun _ => True) wm w1).
      { eapply steps_UnpackRunArguments_loop; [| |exact H]; done. }
      destruct (IH _ _ _ _ H) as [more [Em [F2 Hmat]]].
      exists (buf :: more). rewrite Em, <- app_assoc. split; [done|].
      rewrite (new_events_trans _ _ _ _ _ E1 E2), Eev. split.
      * constructor.
        -- simpl. subst buf. simpl. split; [done|]. split; [lia|].
           exists dev. right. left. done.
        -- eapply Forall2_impl; [exact F2|]. intros t b0.
           apply input_of_mono; [eapply evolves_length; eauto|].
           intros ev Hin. apply in_or_app. right. exact Hin.
      * intros data0 shape0 dev0 h Hin. apply in_app_or in Hin.
        destruct Hin as [[Hin|[Hin|[]]]|Hin].
        -- discriminate.
        -- inversion Hin; subst. left. done.
        -- right. eapply Hmat; eauto.
    + destruct (IH _ _ _ _ H) as [more [Em [F2 Hmat]]].
      exists (b :: more). rewrite Em, <- app_assoc. split; [done|]. split.
      * constructor; [simpl; done | exact F2].
      * intros data0 shape0 dev0 h Hin. right. eapply Hmat; eauto.
Qed.

Lemma Run_inputs_returns bufs :
  forall acc w pjrt_buffers w2,
    Run_inputs bufs acc w = (Returns pjrt_buffers, w2) ->
    pjrt_buffers = acc ++ map buffer bufs /\
    forall b, In b bufs -> release_after_run b = true ->
      In (EvBlockHostUntilReady (buffer b)) (new_events w w2) /\
      (exists pb, buffers w2 !! buffer b = Some pb /\ freed pb = false /\
                  is_deleted pb = false /\ contents_ready (contents pb) = OK) /\
      In b (env_resources w2).
Proof.
  induction bufs as [|buf rest IH]; intros acc w pj w2 H; simpl in H.
  - inversion H; subst. rewrite app_nil_r. split; [done|]. intros b [].
  - destruct (release_after_run buf) eqn:Rel.
    + destruct (bind_inv _ _ _ _ _ H) as [[u [wa [Hblk H2]]] | [[e [_ He]] | [_ He]]];
        try discriminate.
      unfold bind, nif_make_buffer in H2. simpl in H2.
      destruct (Block_inv _ _ _ _ Hblk)
        as [Ewa [[Er _] | [pb [L [F [[_ [D R]] | [e Er]]]]]]]; try discriminate.
      subst wa. simpl in H2.
      pose proof (Run_inputs_buffers _ _ _ _ _ H2) as Hbufs. simpl in Hbufs.
      set (wb := mkWorld (buffers w) (env_resources w ++ [buf])
                         ((trace w ++ [EvBlockHostUntilReady (buffer_ buf)])
                            ++ [EvMakeResource buf])) in *.
      assert (E1 : evolves (fun _ => True) w wb).
      { split; [|split]; simpl.
        - eexists. rewrite <- app_assoc. split; [reflexivity|]. repeat constructor.
        - eauto.
        - intros h pb0 L0. exists pb0. auto. }
      assert (E2 : evolves (fun _ => True) wb w2).
      { eapply steps_Run_inputs; [| |exact H2]; done. }
      destruct (IH _ _ _ _ H2) as [Epj Hrest]. split.
      { rewrite Epj, <- app_assoc. done. }
      intros b [Hb|Hb] Hr.
      * subst b. split; [|split].
        -- rewrite (new_events_trans _ _ _ _ _ E1 E2). apply in_or_app. left.
           rewrite (new_events_app w wb
                      [EvBlockHostUntilReady (buffer_ buf); EvMakeResource buf]).
           ++ left. reflexivity.
           ++ simpl. rewrite <- app_assoc. reflexivity.
        -- exists pb. rewrite Hbufs. auto.
        -- eapply evolves_resources; [exact E2|]. simpl. apply in_or_app. right. left. done.
      * destruct (Hrest b Hb Hr) as [Hblk' [Hpb Hres]]. split; [|auto].
        eapply in_new_events_later; eauto.
    + destruct (IH _ _ _ _ H) as [Epj Hrest]. split.
      { rewrite Epj, <- app_assoc. done. }
      intros b [Hb|Hb] Hr; [congruence|]. apply Hrest; auto.
Qed.

Section RunInputs.

Variable LayoutsInShapesEqual : Shape -> Shape -> bool.
Variable Relayout : Literal -> Shape -> Literal.

Lemma Run_after_inputs e arguments keep d w bufs w1 pjrt_buffers w2 :
  UnpackRunArguments arguments (exe_client_ e) (if 0 <=? d then d else 0) w
    = (Returns bufs, w1) ->
  Run_inputs bufs [] w1 = (Returns pjrt_buffers, w2) ->
  Run LayoutsInShapesEqual Relayout e arguments keep d w =
    Run_dispatch LayoutsInShapesEqual Relayout e pjrt_buffers keep d
                 (mkExecuteOptions true false) w2.
Proof.
  intros H1 H2. unfold Run, EXLA_ASSIGN_OR_RETURN_NIF at 1.
  destruct (0 <=? d); rewrite H1; unfold EXLA_ASSIGN_OR_RETURN_NIF at 1;
    rewrite H2; reflexivity.
Qed.

(** Either [Run] reaches its dispatch, or it ends while decoding or waiting
    and has then executed nothing. *)
Lemma Run_phases e arguments keep d w r w' :
  Run LayoutsInShapesEqual Relayout e arguments keep d w = (r, w') ->
  (exists bufs w1 pjrt_buffers w2,
     UnpackRunArguments arguments (exe_client_ e) (if 0 <=? d then d else 0) w
       = (Returns bufs, w1) /\
     Run_inputs bufs [] w1 = (Returns pjrt_buffers, w2) /\
     Run_dispatch LayoutsInShapesEqual Relayout e pjrt_buffers keep d
                  (mkExecuteOptions true false) w2 = (r, w')) \/
  evolves (fun ev => ~ is_results ev /\ ~ is_execution ev) w w'.
Proof.
  intros H.
  destruct (UnpackRunArguments arguments (exe_client_ e) (if 0 <=? d then d else 0) w)
    as [r1 w1] eqn:H1.
  assert (E1 : evolves (fun ev => ~ is_results ev /\ ~ is_execution ev) w w1).
  { eapply steps_UnpackRunArguments; [| |exact H1]; simpl; tauto. }
  assert (Hrun : Run LayoutsInShapesEqual Relayout e arguments keep d w =
                 EXLA_ASSIGN_OR_RETURN_NIF (fun _ => (r1, w1)) (ret tt)
                   (fun input_buffers =>
                      EXLA_ASSIGN_OR_RETURN_NIF (Run_inputs input_buffers []) (ret tt)
                        (fun pjrt_buffers =>
                           Run_dispatch LayoutsInShapesEqual Relayout e pjrt_buffers keep d
                                        (mkExecuteOptions true false))) w).
  { unfold Run, EXLA_ASSIGN_OR_RETURN_NIF at 1. symmetry.
    unfold EXLA_ASSIGN_OR_RETURN_NIF at 1. destruct (0 <=? d); rewrite H1; reflexivity. }
  rewrite Hrun in H. clear Hrun. unfold EXLA_ASSIGN_OR_RETURN_NIF at 1 in H.
  destruct r1 as [bufs|e0|].
  - destruct (Run_inputs bufs [] w1) as [r2 w2] eqn:H2.
    assert (E2 : evolves (fun ev => ~ is_results ev /\ ~ is_execution ev) w1 w2).
    { eapply steps_Run_inputs; [| |exact H2]; simpl; tauto. }
    unfold EXLA_ASSIGN_OR_RETURN_NIF at 1 in H. rewrite H2 in H.
    destruct r2 as [pj|e1|].
    + left. exists bufs, w1, pj, w2. auto.
    + right. inversion H; subst. eapply evolves_trans; eauto.
    + right. inversion H; subst. eapply evolves_trans; eauto.
  - right. inversion H; subst. exact E1.
  - right. inversion H; subst. exact E1.
Qed.

Lemma steps_Run_dispatch_inputs e pjrt_buffers keep d options :
  steps (fun ev => match ev with
                   | EvExecute inputs _ => inputs = [pjrt_buffers]
                   | EvExecutePortable inputs _ _ => inputs = pjrt_buffers
                   | EvBufferFromHostBuffer _ _ _ _ => False
                   | _ => True
                   end)
        (Run_dispatch LayoutsInShapesEqual Relayout e pjrt_buffers keep d options).
Proof.
  unfold Run_dispatch. destruct (0 <=? d).
  - apply steps_nif; [apply steps_LookupDevice; done | apply steps_ret |].
    intros device. apply steps_nif; [apply steps_ExecutePortable; done | apply steps_ret |].
    intros result. apply steps_nif; [|apply steps_ret|intros; apply steps_ret].
    apply steps_UnpackResult_loop; done.
  - apply steps_nif; [apply steps_Execute; done | apply steps_ret |].
    intros result. apply steps_bind.
    { unfold at_0. destruct result; [apply steps_abort | apply steps_ret]. }
    intros first. apply steps_nif.
    + apply steps_UnpackResult_loop; done.
    + apply steps_destroy_all; done.
    + intros t. apply steps_bind; [apply steps_destroy_all; done|].
      intros _. apply steps_ret.
Qed.

(** X24. Once [Run] has decoded its arguments and its waits have returned,
    it goes on with the dispatch, and nothing was executed before.  At that
    point every buffer materialized from host bytes during the call is one
    of the inputs, tagged for release after the run; it was waited for, its
    transfer is complete, and it is a resource of the caller's environment.
    It is still one when [Run] is over, whatever the device lookup, the
    execution or the readback end with. *)
Theorem Run_materialized_inputs_tracked_before_dispatch (e : ExlaExecutable)
    (arguments : term) (keep : bool) (d : Z) (w : World)
    (bufs : list ExlaBuffer) (w1 : World) (pjrt_buffers : list nat) (w2 : World) :
  UnpackRunArguments arguments (exe_client_ e) (if 0 <=? d then d else 0) w
    = (Returns bufs, w1) ->
  Run_inputs bufs [] w1 = (Returns pjrt_buffers, w2) ->
  let call := Run LayoutsInShapesEqual Relayout e arguments keep d w in
  call = Run_dispatch LayoutsInShapesEqual Relayout e pjrt_buffers keep d
                      (mkExecuteOptions true false) w2 /\
  Forall (fun ev => ~ is_execution ev) (new_events w w2) /\
  forall data shape dev h,
    In (EvBufferFromHostBuffer data shape dev (Some h)) (new_events w w2) ->
    In (mkExlaBuffer h true) bufs /\
    In (EvBlockHostUntilReady h) (new_events w w2) /\
    (exists pb, buffers w2 !! h = Some pb /\ freed pb = false /\
                is_deleted pb = false /\ contents_ready (contents pb) = OK) /\
    In (mkExlaBuffer h true) (env_resources w2) /\
    In (mkExlaBuffer h true) (env_resources (snd call)).
Proof.
  intros H1 H2 call.
  pose proof (Run_after_inputs e arguments keep d w bufs w1 pjrt_buffers w2 H1 H2) as Hcall.
  fold call in Hcall.
  destruct (Run_prepare_events _ _ _ _ _ _ _ _ _ H1 H2) as [E1 E2].
  assert (E2' : evolves (fun ev => match ev with
                                   | EvBufferFromHostBuffer _ _ _ _ => False
                                   | _ => True
                                   end) w1 w2).
  { eapply steps_Run_inputs; [| |exact H2]; done. }
  split; [exact Hcall|]. split.
  { eapply Forall_impl; [apply (evolves_new_events _ _ _ (evolves_trans _ _ _ _ E1 E2))|].
    intros ev [_ Hx]. exact Hx. }
  intros data shape dev h Hin.
  rewrite (new_events_trans _ _ _ _ _ E1 E2) in Hin. apply in_app_or in Hin.
  destruct Hin as [Hin|Hin].
  2:{ exfalso. pose proof (evolves_new_events _ _ _ E2') as F.
      rewrite List.Forall_forall in F. exact (F _ Hin). }
  assert (Hb : In (mkExlaBuffer h true) bufs).
  { destruct arguments as [| | | | |cells| |]; try discriminate. simpl in H1.
    destruct (UnpackRunArguments_loop_returns _ _ _ _ _ _ _ H1) as [more [Em [_ Hmat]]].
    simpl in Em. subst more. eapply Hmat; eauto. }
  destruct (Run_inputs_returns _ _ _ _ _ H2) as [_ Hin2].
  destruct (Hin2 _ Hb eq_refl) as [Hblk [Hpb Hres]]. simpl in Hblk, Hpb.
  split; [exact Hb|]. split; [eapply in_new_events_later; eauto|].
  split; [exact Hpb|]. split; [exact Hres|].
  destruct call as [r w'] eqn:Ec. simpl. symmetry in Hcall.
  eapply evolves_resources; [|exact Hres].
  eapply steps_Run_dispatch. exact Hcall.
Qed.

(** C10. In a [Run] with a negative [device_id] the only device looked up
    is device 0 and every transfer of host bytes goes to the device that
    lookup returned.  The execution gets one buffer per argument, in order:
    for an argument that is a buffer handle the handle's own buffer, with no
    transfer; for host bytes a buffer created during the call by the
    transfer of those bytes. *)
Theorem Run_default_materializes_on_device_0 (e : ExlaExecutable) (arguments : term)
    (keep : bool) (d : Z) (w : World) :
  d < 0 ->
  let c := client_ (exe_client_ e) in
  let call := Run LayoutsInShapesEqual Relayout e arguments keep d w in
  let events := new_events w (snd call) in
  Forall (fun ev => match ev with
                    | EvLookupDevice id => id = 0
                    | EvBufferFromHostBuffer _ _ dev _ => resolved c 0 dev
                    | EvExecutePortable _ _ _ => False
                    | _ => True
                    end) events /\
  forall inputs options, In (EvExecute inputs options) events ->
    exists bufs,
      inputs = [map buffer bufs] /\
      Forall2 (input_of (length (buffers w)) events) (list_cells arguments) bufs.
Proof.
  intros Hd c call events. destruct call as [r w'] eqn:Hcall. simpl in events.
  assert (Hneg : (0 <=? d) = false) by (apply Z.leb_gt; lia).
  split.
  - pose proof (steps_Run LayoutsInShapesEqual Relayout e arguments keep d _ _ _ Hcall) as Hev.
    apply evolves_new_events in Hev. eapply Forall_impl; [exact Hev|].
    intros ev. destruct ev; simpl; rewrite ?Hneg; try tauto. lia.
  - intros inputs options Hin.
    destruct (Run_phases _ _ _ _ _ _ _ Hcall)
      as [[bufs [w1 [pj [w2 [H1 [H2 H3]]]]]] | Hnone].
    2:{ exfalso. pose proof (evolves_new_events _ _ _ Hnone) as F.
        rewrite List.Forall_forall in F. destruct (F _ Hin) as [_ Hx]. apply Hx. exact I. }
    destruct (Run_prepare_events _ _ _ _ _ _ _ _ _ H1 H2) as [E1 E2].
    pose proof (evolves_trans _ _ _ _ E1 E2) as E12.
    pose proof (steps_Run_dispatch_inputs _ _ _ _ _ _ _ _ H3) as E3.
    unfold events in Hin. rewrite (new_events_trans _ _ _ _ _ E12 E3) in Hin.
    apply in_app_or in Hin. destruct Hin as [Hin|Hin].
    { exfalso. pose proof (evolves_new_events _ _ _ E12) as F.
      rewrite List.Forall_forall in F. destruct (F _ Hin) as [_ Hx]. apply Hx. exact I. }
    pose proof (evolves_new_events _ _ _ E3) as F3.
    rewrite List.Forall_forall in F3. pose proof (F3 _ Hin) as Einputs. simpl in Einputs.
    destruct (Run_inputs_returns _ _ _ _ _ H2) as [Epj _]. simpl in Epj.
    exists bufs. split; [congruence|].
    destruct arguments as [| | | | |cells| |]; try discriminate. simpl in H1. simpl.
    destruct (UnpackRunArguments_loop_returns _ _ _ _ _ _ _ H1) as [more [Em [F2 _]]].
    simpl in Em. subst more. eapply Forall2_impl; [exact F2|]. intros t b.
    apply input_of_mono; [lia|]. intros ev Hev. unfold events.
    assert (E23 : evolves (fun _ => True) w1 w').
    { eapply evolves_trans; eapply evolves_weaken; [|exact E2| |exact E3]; done. }
    rewrite (new_events_trans _ _ _ _ _ E1 E23).
    apply in_or_app. left. exact Hev.
Qed.

End RunInputs.

(** C4. The code does not keep this in every call: when [Run] returns
    before its dispatch, the inputs it has materialized by then are left
    untracked, against the comment at lines 145-149.  On the runtime whose
    transfers end with an error, two host values make [Run] return an error
    term at the first wait (line 151): buffers 1 and 2 were created from the
    host bytes and are live, the second was never waited for, and neither
    is a resource of the environment.  On the sample runtime the arguments
    "host bytes with their shape, then an atom" make [Run] return an error
    term from the decoding (line 90), after it has created buffer 1 from the
    host bytes: the buffer is live, nothing waited for it and it is no
    resource. *)
Theorem Run_early_return_leaves_materialized_inputs_untracked :
  let call := Run Sample.layouts_equal Sample.relayout Sample.exe_unready
                  Sample.two_host_arguments false 0 Sample.one_buffer in
  let events := new_events Sample.one_buffer (snd call) in
  let call' := Run Sample.layouts_equal Sample.relayout Sample.exe
                   Sample.bad_second_argument false 0 Sample.one_buffer in
  let events' := new_events Sample.one_buffer (snd call') in
  (fst call = Returns (nif_error "failed") /\
   In (EvBufferFromHostBuffer Sample.bytes16 Sample.f32_4 0 (Some 1%nat)) events /\
   In (EvBufferFromHostBuffer Sample.bytes16 Sample.f32_4 0 (Some 2%nat)) events /\
   live (snd call) 1 /\ live (snd call) 2 /\
   In (EvBlockHostUntilReady 1) events /\
   ~ In (EvBlockHostUntilReady 2) events /\
   Forall (fun ev => ~ is_execution ev) events /\
   env_resources (snd call) = []) /\
  (fst call' = Returns (nif_error "Expected argument to be buffer reference.") /\
   In (EvBufferFromHostBuffer Sample.bytes16 Sample.f32_4 0 (Some 1%nat)) events' /\
   live (snd call') 1 /\
   ~ In (EvBlockHostUntilReady 1) events' /\
   Forall (fun ev => ~ is_execution ev) events' /\
   env_resources (snd call') = []).
Proof.
  assert (Hlive : forall w h pb, buffers w !! h = Some pb -> freed pb = false -> live w h).
  { intros w h pb L F. exists pb. auto. }
  assert (Hnot : forall h (l : list Event),
            forallb (fun ev => match ev with
                               | EvBlockHostUntilReady h' => negb (h' =? h)%nat
                               | _ => true
                               end) l = true ->
            ~ In (EvBlockHostUntilReady h) l).
  { intros h l Hall Hin. rewrite forallb_forall in Hall. specialize (Hall _ Hin).
    simpl in Hall. rewrite Nat.eqb_refl in Hall. discriminate. }
  assert (Hnox : forall l : list Event,
            forallb (fun ev => match ev with
                               | EvExecutePortable _ _ _ | EvExecute _ _ => false
                               | _ => true
                               end) l = true ->
            Forall (fun ev => ~ is_execution ev) l).
  { intros l Hall. apply List.Forall_forall. intros ev Hin Hx.
    rewrite forallb_forall in Hall. specialize (Hall _ Hin).
    destruct ev; simpl in Hx; try contradiction; discriminate. }
  split.
  - split; [reflexivity|]. split; [vm_compute; auto|]. split; [vm_compute; auto|].
    split; [eapply Hlive; reflexivity|]. split; [eapply Hlive; reflexivity|].
    split; [vm_compute; auto 10|]. split; [apply Hnot; reflexivity|].
    split; [apply Hnox; reflexivity | reflexivity].
  - split; [reflexivity|]. split; [vm_compute; auto|].
    split; [eapply Hlive; reflexivity|]. split; [apply Hnot; reflexivity|].
    split; [apply Hnox; reflexivity | reflexivity].
Qed.

(** ** The theorems at work on the sample runtime *)

Lemma Deallocate_once_then_precondition_error_witness :
  exists w1,
    Deallocate (mkExlaBuffer 0 false) Sample.one_buffer = (Returns tt, w1) /\
    new_events Sample.one_buffer w1 = [EvDelete 0].
Proof.
  destruct (Deallocate_once_then_precondition_error (mkExlaBuffer 0 false)
              Sample.one_buffer (mkPjRtBuffer Sample.output false false)
              eq_refl eq_refl eq_refl) as [w1 [H1 [_ [H3 _]]]].
  exists w1. split; [exact H1 | exact H3].
Defined.

Lemma ToBinary_returns_prefix_of_serialization_witness :
  exists out w',
    ToBinary Sample.layouts_equal Sample.relayout (mkExlaBuffer 0 false) 3 Sample.one_buffer
      = (Returns (TBinary out), w') /\
    Z.of_nat (length out) = 3.
Proof.
  destruct (ToBinary_returns_prefix_of_serialization Sample.layouts_equal Sample.relayout
              (mkExlaBuffer 0 false) Sample.one_buffer
              (mkPjRtBuffer Sample.output false false)
              (mkLiteral Sample.f32_4 Sample.bytes16) 3
              eq_refl eq_refl eq_refl eq_refl eq_refl) as [out [w' [H [_ Hp]]]].
  exists out, w'. split; [exact H|]. apply Hp. simpl. lia.
Defined.

Lemma Run_dispatches_by_device_id_witness :
  let run keep d :=
    Run Sample.layouts_equal Sample.relayout Sample.exe Sample.arguments keep d
        Sample.one_buffer in
  let events keep d := new_events Sample.one_buffer (snd (run keep d)) in
  (exists pjrt_buffers device hs,
     pjrt_LookupDevice Sample.pjrt 1 = Value device /\
     In (EvExecutePortable pjrt_buffers (device_id device) Sample.options) (events true 1) /\
     [TBuffer (mkExlaBuffer 2 false)] = map (fun h => TBuffer (mkExlaBuffer h false)) hs) /\
  (exists hs,
     In (EvResults [hs]) (events false 1) /\
     Forall2 (read_back Sample.layouts_equal Sample.relayout (snd (run false 1)))
             hs [TBinary Sample.bytes16]) /\
  (exists first others,
     In (EvResults (first :: others)) (events true (-1)) /\
     [TBuffer (mkExlaBuffer 2 false)] = map (fun h => TBuffer (mkExlaBuffer h false)) first) /\
  (exists first others,
     In (EvResults (first :: others)) (events false (-1)) /\
     Forall2 (read_back Sample.layouts_equal Sample.relayout (snd (run false (-1))))
             first [TBinary Sample.bytes16] /\
     Forall (is_freed (snd (run false (-1)))) (concat others)).
Proof.
  intros run events. split; [|split; [|split]].
  - destruct (Run_dispatches_by_device_id Sample.layouts_equal Sample.relayout Sample.exe
                Sample.arguments true 1 Sample.one_buffer) as [Hportable _].
    destruct Hportable as [_ Hok]; [lia|].
    destruct (Hok [TBuffer (mkExlaBuffer 2 false)] eq_refl)
      as [pj [device [hs [Hv [Hx [_ [_ [_ [Hk _]]]]]]]]].
    exists pj, device, hs. split; [exact Hv|]. split; [exact Hx|]. apply Hk. reflexivity.
  - destruct (Run_dispatches_by_device_id Sample.layouts_equal Sample.relayout Sample.exe
                Sample.arguments false 1 Sample.one_buffer) as [Hportable _].
    destruct Hportable as [_ Hok]; [lia|].
    destruct (Hok [TBinary Sample.bytes16] eq_refl)
      as [pj [device [hs [_ [_ [Hr [_ [_ [_ Hf]]]]]]]]].
    exists hs. split; [exact Hr|]. apply Hf. reflexivity.
  - destruct (Run_dispatches_by_device_id Sample.layouts_equal Sample.relayout Sample.exe
                Sample.arguments true (-1) Sample.one_buffer) as [_ Hdefault].
    destruct Hdefault as [_ Hok]; [lia|].
    destruct (Hok [TBuffer (mkExlaBuffer 2 false)] eq_refl)
      as [pj [first [others [_ [Hr [_ [_ [Hk _]]]]]]]].
    exists first, others. split; [exact Hr|]. apply Hk. reflexivity.
  - destruct (Run_dispatches_by_device_id Sample.layouts_equal Sample.relayout Sample.exe
                Sample.arguments false (-1) Sample.one_buffer) as [_ Hdefault].
    destruct Hdefault as [_ Hok]; [lia|].
    destruct (Hok [TBinary Sample.bytes16] eq_refl)
      as [pj [first [others [_ [Hr [_ [_ [_ [Hf Hfreed]]]]]]]]].
    exists first, others. split; [exact Hr|]. split; [apply Hf; reflexivity | exact Hfreed].
Defined.

Lemma Run_materialized_inputs_tracked_before_dispatch_witness :
  In (mkExlaBuffer 1 true)
     (env_resources
        (snd (Run Sample.layouts_equal Sample.relayout Sample.exe Sample.arguments
                  false (-1) Sample.one_buffer))).
Proof.
  edestruct (Run_materialized_inputs_tracked_before_dispatch Sample.layouts_equal
               Sample.relayout Sample.exe Sample.arguments false (-1) Sample.one_buffer)
    as [_ [_ H]]; [vm_compute; reflexivity | vm_compute; reflexivity |].
  apply (H Sample.bytes16 Sample.f32_4 0 1%nat). vm_compute. auto.
Defined.

Lemma Run_outputs_kept_or_read_back_witness :
  let run keep d :=
    Run Sample.layouts_equal Sample.relayout Sample.exe Sample.arguments keep d
        Sample.one_buffer in
  let events keep d := new_events Sample.one_buffer (snd (run keep d)) in
  (exists result others,
     In (EvResults (result :: others)) (events true 1) /\
     [TBuffer (mkExlaBuffer 2 false)] = map (fun h => TBuffer (mkExlaBuffer h false)) result /\
     Forall (live (snd (run true 1))) result /\
     Forall (fun ev => ~ is_readback ev) (events true 1)) /\
  (exists result others,
     In (EvResults (result :: others)) (events false (-1)) /\
     Forall2 (read_back Sample.layouts_equal Sample.relayout (snd (run false (-1))))
             result [TBinary Sample.bytes16] /\
     Forall (is_freed (snd (run false (-1)))) (concat (result :: others))).
Proof.
  intros run events. split.
  - destruct (Run_outputs_kept_or_read_back Sample.layouts_equal Sample.relayout
                Sample.exe Sample.arguments true 1 Sample.one_buffer
                [TBuffer (mkExlaBuffer 2 false)] eq_refl)
      as [result [others [Hin [_ [_ [Hkept _]]]]]].
    destruct (Hkept eq_refl) as [Eo [Hl [_ Hno]]].
    exists result, others. auto.
  - destruct (Run_outputs_kept_or_read_back Sample.layouts_equal Sample.relayout
                Sample.exe Sample.arguments false (-1) Sample.one_buffer
                [TBinary Sample.bytes16] eq_refl)
      as [result [others [Hin [_ [_ [_ Hread]]]]]].
    destruct (Hread eq_refl) as [F2 [_ [Hfr _]]].
    exists result, others. auto.
Defined.

Lemma TransferToInfeed_nested_tuple_invalid_witness :
  exists e,
    TransferToInfeed Sample.exla (TList [TBinary [x01]]) Sample.nested_shape 0 Sample.empty
      = (Fails e, Sample.empty) /\
    code e = INVALID_ARGUMENT.
Proof.
  apply (TransferToInfeed_nested_tuple_invalid Sample.exla (TList [TBinary [x01]])
           Sample.nested_shape Sample.pair_shape 0 Sample.empty).
  - reflexivity.
  - simpl. auto.
  - reflexivity.
Defined.

Lemma TransferToInfeed_array_consumes_first_chunk_witness :
  TransferToInfeed Sample.exla (TList [TBinary [x01]; TAtom "a"]) Sample.f32_4 0 Sample.empty =
    TransferToInfeed Sample.exla (TList [TBinary [x01]]) Sample.f32_4 0 Sample.empty.
Proof.
  apply (TransferToInfeed_array_consumes_first_chunk Sample.exla [x01] [TAtom "a"]
           Sample.f32_4 0 Sample.empty).
  reflexivity.
Defined.

Lemma device_id_resolved_or_operation_fails_witness :
  fst (BufferFromBinary Sample.exla [x01] Sample.f32_4 Sample.unknown_id false Sample.empty)
    = Fails Sample.not_found /\
  exists msg,
    fst (Run Sample.layouts_equal Sample.relayout Sample.exe Sample.arguments true
             Sample.unknown_id Sample.one_buffer) = Returns (nif_error msg).
Proof.
  destruct (device_id_resolved_or_operation_fails Sample.layouts_equal Sample.relayout
              Sample.exla Sample.unknown_id) as [_ [_ [_ [_ Hunknown]]]].
  destruct (Hunknown Sample.not_found eq_refl) as [Hbuf [_ [_ Hrun]]].
  split.
  - apply Hbuf.
  - destruct (Hrun Sample.executable None Sample.arguments true Sample.one_buffer)
      as [_ [Hmsg _]]; [unfold Sample.unknown_id; lia|].
    apply Hmsg. unfold wf_arguments. simpl.
    constructor; [simpl; lia|]. constructor; [|constructor].
    simpl. intros Hr. discriminate Hr.
Defined.

Lemma Run_default_materializes_on_device_0_witness :
  exists bufs,
    [[1%nat; 0%nat]] = [map buffer bufs] /\
    Forall2 (input_of 1
               (new_events Sample.one_buffer
                  (snd (Run Sample.layouts_equal Sample.relayout Sample.exe
                            Sample.arguments false (-1) Sample.one_buffer))))
            (list_cells Sample.arguments) bufs.
Proof.
  destruct (Run_default_materializes_on_device_0 Sample.layouts_equal Sample.relayout
              Sample.exe Sample.arguments false (-1) Sample.one_buffer) as [_ H]; [lia|].
  apply (H [[1%nat; 0%nat]] Sample.options). vm_compute. auto 10.
Defined.

(** * Further properties of the code *)

(** ** Outfeed and infeed *)

Lemma take_size_bytes literal :
  take (Z.to_nat (size_bytes literal)) (untyped_data literal) = untyped_data literal.
Proof. unfold size_bytes. rewrite Nat2Z.id. apply firstn_all. Qed.

(** X1. [TransferFromOutfeed] returns a value only when the lookup of the
    device and the transfer from its outfeed both succeed; the binary then
    holds every byte of the literal the device delivered.  It looks the
    device up, then issues one transfer, and touches neither the heap nor
    the resources.  When it fails, the error is the lookup's or the
    transfer's. *)
Theorem TransferFromOutfeed_returns_whole_literal (c : ExlaClient) (id : Z)
    (shape : Shape) (w : World) (r : Outcome term) (w' : World) :
  TransferFromOutfeed c id shape w = (r, w') ->
  buffers w' = buffers w /\ env_resources w' = env_resources w /\
  match r with
  | Returns t =>
      exists device literal w0,
        pjrt_LookupDevice (client_ c) id = Value device /\
        device_TransferFromOutfeed device w0 shape = Value literal /\
        t = TBinary (untyped_data literal) /\
        new_events w w' =
          [EvLookupDevice id; EvTransferFromOutfeed (device_id device) shape]
  | Fails e =>
      pjrt_LookupDevice (client_ c) id = Failure e \/
      exists device w0,
        pjrt_LookupDevice (client_ c) id = Value device /\
        device_TransferFromOutfeed device w0 shape = Failure e
  | Aborts => False
  end.
Proof.
  unfold TransferFromOutfeed, bind, LookupDevice, bind, emit, TransferFromOutfeed_device,
    bind, emit, get_world. simpl.
  destruct (pjrt_LookupDevice (client_ c) id) as [device|e] eqn:Hl; simpl.
  - match goal with
    | |- context [device_TransferFromOutfeed ?a ?b ?s] =>
        destruct (device_TransferFromOutfeed a b s) as [literal|e] eqn:Ht
    end; simpl; intros H; inversion H; subst; simpl; (split; [done|]); (split; [done|]).
    + exists device, literal. eexists. split; [done|]. split; [exact Ht|].
      split; [rewrite take_size_bytes; done|].
      apply new_events_app. simpl. rewrite <- app_assoc. done.
    + right. exists device. eexists. split; [done|]. exact Ht.
  - intros H; inversion H; subst. simpl. auto.
Qed.


Lemma infeed_chunks_rejects data :
  forall acc w t, In t data -> ~ is_binary_term t ->
    exists e, infeed_chunks data acc w = (Fails e, w) /\ code e = INVALID_ARGUMENT.
Proof.
  induction data as [|head tail IH]; intros acc w t Hin Hnb; [destruct Hin|].
  simpl. destruct head as [| | |chunk| | | |];
    try (eexists; split; [reflexivity | reflexivity]).
  destruct Hin as [<-|Hin].
  - exfalso. apply Hnb. eexists. reflexivity.
  - eapply IH; eauto.
Qed.


(** X3. [TransferToInfeed] checks the chunks before it looks the device up.
    With a tuple shape that holds no tuple, one cell that is not a binary
    makes it fail with an invalid-argument error; with an array shape, so
    does data whose first cell is missing or is not a binary.  In both cases
    the world is left as it was. *)
Theorem TransferToInfeed_rejects_chunks_before_lookup (c : ExlaClient) (data : term)
    (shape : Shape) (id : Z) (w : World) :
  (IsTuple shape = true /\ IsNestedTuple shape = false /\
   exists t, In t (list_cells data) /\ ~ is_binary_term t) \/
  (IsTuple shape = false /\
   forall chunk rest, list_cells data <> TBinary chunk :: rest) ->
  exists e, TransferToInfeed c data shape id w = (Fails e, w) /\
            code e = INVALID_ARGUMENT.
Proof.
  intros [[T [N [t [Hin Hnb]]]] | [T Hhead]]; unfold TransferToInfeed; rewrite T.
  - rewrite N. unfold bind.
    destruct (infeed_chunks_rejects _ [] w t Hin Hnb) as [e [He Hc]].
    rewrite He. eauto.
  - destruct (list_cells data) as [|head tail]; [eexists; split; reflexivity|].
    destruct head as [| | |chunk| | | |]; try (eexists; split; reflexivity).
    exfalso. eapply Hhead. reflexivity.
Qed.

(** ** Buffers from host bytes *)

(** X4. Given a binary that holds at least the bytes of a value of the
    shape, [BufferFromBinary] does not abort, and it makes no resource.
    When it returns, the buffer is a new one at the end of the heap, live
    and not deleted, with the flag asked for, and the buffers that existed
    are as they were; the device was the one looked up and the runtime was
    handed the first bytes of the binary, as many as the shape takes.  When
    the lookup or the transfer fails, the heap is unchanged. *)
Theorem BufferFromBinary_creates_fresh_live_buffer (c : ExlaClient)
    (binary : list byte) (shape : Shape) (id : Z) (flag : bool)
    (w : World) (r : Outcome ExlaBuffer) (w' : World) :
  (pjrt_ByteSizeOf (client_ c) shape <= length binary)%nat ->
  BufferFromBinary c binary shape id flag w = (r, w') ->
  env_resources w' = env_resources w /\
  match r with
  | Returns buf =>
      buf = mkExlaBuffer (length (buffers w)) flag /\
      exists device w0 cts,
        pjrt_LookupDevice (client_ c) id = Value device /\
        pjrt_BufferFromHostBuffer (client_ c) w0
          (take (pjrt_ByteSizeOf (client_ c) shape) binary) shape (device_id device)
          = Value cts /\
        buffers w' = buffers w ++ [mkPjRtBuffer cts false false] /\
        In (EvBufferFromHostBuffer binary shape (device_id device)
              (Some (length (buffers w)))) (new_events w w')
  | Fails e => buffers w' = buffers w
  | Aborts => False
  end.
Proof.
  intros Hsize.
  unfold BufferFromBinary, bind, LookupDevice, bind, emit, BufferFromHostBuffer. simpl.
  destruct (pjrt_LookupDevice (client_ c) id) as [device|e] eqn:Hl; simpl.
  - destruct (length binary <? pjrt_ByteSizeOf (client_ c) shape)%nat eqn:Hlt;
      [apply Nat.ltb_lt in Hlt; lia|].
    unfold bind, get_world, alloc, emit. simpl.
    match goal with
    | |- context [pjrt_BufferFromHostBuffer ?a ?b ?x ?d ?f] =>
        destruct (pjrt_BufferFromHostBuffer a b x d f) as [cts|e] eqn:Ht
    end; simpl; intros H; inversion H; subst; simpl; (split; [done|]); [|done].
    split; [done|]. exists device. eexists. exists cts.
    split; [done|]. split; [exact Ht|]. split; [done|].
    erewrite new_events_app; [|simpl; rewrite <- app_assoc; reflexivity].
    right. left. done.
  - intros H; inversion H; subst. simpl. auto.
Qed.

(** ** Decoding the arguments of a run *)

Lemma UnpackRunArguments_loop_handles bufs :
  forall c id acc w,
    UnpackRunArguments_loop (map TBuffer bufs) c id acc w = (Returns (acc ++ bufs), w).
Proof.
  induction bufs as [|b bufs IH]; intros c id acc w; simpl.
  - rewrite app_nil_r. done.
  - rewrite IH, <- app_assoc. done.
Qed.

(** X5. Arguments that are all buffer handles are decoded to exactly those
    buffers, in order, whatever the device id, known or not: the runtime is
    not called and the world is left as it was. *)
Theorem UnpackRunArguments_passes_handles_through (bufs : list ExlaBuffer)
    (c : ExlaClient) (id : Z) (w : World) :
  UnpackRunArguments (TList (map TBuffer bufs)) c id w = (Returns bufs, w).
Proof. simpl. apply (UnpackRunArguments_loop_handles bufs c id [] w). Qed.

Lemma BufferFromBinary_heap c data shape id flag w r w' :
  BufferFromBinary c data shape id flag w = (r, w') ->
  env_resources w' = env_resources w /\
  ((exists cts dev,
      r = Returns (mkExlaBuffer (length (buffers w)) flag) /\
      buffers w' = buffers w ++ [mkPjRtBuffer cts false false] /\
      new_events w w' =
        [EvLookupDevice id;
         EvBufferFromHostBuffer data shape dev (Some (length (buffers w)))]) \/
   (exists e, r = Fails e /\ buffers w' = buffers w /\
      (pjrt_LookupDevice (client_ c) id = Failure e \/
       exists device w0,
         pjrt_LookupDevice (client_ c) id = Value device /\
         pjrt_BufferFromHostBuffer (client_ c) w0
           (take (pjrt_ByteSizeOf (client_ c) shape) data) shape (device_id device)
           = Failure e)) \/
   (r = Aborts /\ buffers w' = buffers w /\
    (length data < pjrt_ByteSizeOf (client_ c) shape)%nat)).
Proof.
  unfold BufferFromBinary, bind, LookupDevice, bind, emit, BufferFromHostBuffer. simpl.
  destruct (pjrt_LookupDevice (client_ c) id) as [device|e] eqn:Hl; simpl.
  - destruct (length data <? pjrt_ByteSizeOf (client_ c) shape)%nat eqn:Hlt.
    { apply Nat.ltb_lt in Hlt. intros H; inversion H; subst. simpl.
      split; [done|]. right. right. auto. }
    unfold bind, get_world, alloc, emit. simpl.
    match goal with
    | |- context [pjrt_BufferFromHostBuffer ?a ?b ?x ?d ?f] =>
        destruct (pjrt_BufferFromHostBuffer a b x d f) as [cts|e] eqn:Ht
    end; simpl; intros H; inversion H; subst; simpl; (split; [done|]).
    + left. exists cts, (device_id device). split; [done|]. split; [done|].
      apply new_events_app. simpl. rewrite <- app_assoc. done.
    + right. left. exists e. split; [done|]. split; [done|]. right.
      exists device. eexists. split; [done|]. exact Ht.
  - intros H; inversion H; subst. simpl. split; [done|]. right. left. eauto.
Qed.

Lemma UnpackRunArguments_loop_heap c id cells :
  forall acc w r w',
    UnpackRunArguments_loop cells c id acc w = (r, w') ->
    env_resources w' = env_resources w /\
    exists new,
      buffers w' = buffers w ++ new /\
      Forall (fun pb => is_deleted pb = false /\ freed pb = false) new /\
      forall h, (length (buffers w) <= h < length (buffers w'))%nat ->
        exists data shape dev,
          In (EvBufferFromHostBuffer data shape dev (Some h)) (new_events w w').
Proof.
  assert (Hnone : forall w (r : Outcome (list ExlaBuffer)),
     env_resources w = env_resources w /\
     exists new,
       buffers w = buffers w ++ new /\
       Forall (fun pb => is_deleted pb = false /\ freed pb = false) new /\
       forall h, (length (buffers w) <= h < length (buffers w))%nat ->
         exists data shape dev,
           In (EvBufferFromHostBuffer data shape dev (Some h)) (new_events w w)).
  { intros w _. split; [done|]. exists []. rewrite app_nil_r.
    split; [done|]. split; [constructor|]. intros h Hh. lia. }
  induction cells as [|head tail IH]; intros acc w r w' H; simpl in H.
  - inversion H; subst. apply (Hnone w' (Returns acc)).
  - destruct head as [| | | |tuple| | |b];
      try (inversion H; subst; apply (Hnone w' (Aborts)); fail); [|eapply IH; eauto].
    unfold bind, tuple_at in H.
    destruct tuple as [|t0 tuple]; simpl in H;
      [inversion H; subst; apply (Hnone w' Aborts)|].
    destruct t0 as [| | |data| | | |];
      try (inversion H; subst; apply (Hnone w' Aborts); fail).
    destruct tuple as [|t1 tuple]; simpl in H;
      [inversion H; subst; apply (Hnone w' Aborts)|].
    destruct t1 as [| | | | | |shape|];
      try (inversion H; subst; apply (Hnone w' Aborts); fail).
    destruct (BufferFromBinary c data shape id true w) as [rb wm] eqn:Hb.
    assert (E1 : evolves (fun _ => True) w wm).
    { eapply steps_BufferFromBinary; [| |exact Hb]; done. }
    destruct (BufferFromBinary_heap _ _ _ _ _ _ _ _ Hb)
      as [Hres [[cts [dev [-> [Hbufs Hev]]]] | [[e [-> [Hbufs _]]] | [-> [Hbufs _]]]]].
    + assert (E2 : evolves (fun _ => True) wm w').
      { eapply steps_UnpackRunArguments_loop; [| |exact H]; done. }
      destruct (IH _ _ _ _ H) as [Hres' [new [Hnew [Hlive Hfrom]]]].
      split; [congruence|]. exists (mkPjRtBuffer cts false false :: new).
      split; [rewrite Hnew, Hbufs, <- app_assoc; done|].
      split; [constructor; [done | exact Hlive]|].
      intros h Hh. rewrite (new_events_trans _ _ _ _ _ E1 E2).
      destruct (decide (h = length (buffers w))) as [->|Hne].
      * exists data, shape, dev. apply in_or_app. left. rewrite Hev. right. left. done.
      * destruct (Hfrom h) as [d0 [s0 [dv0 Hin]]].
        { rewrite Hbufs, length_app. simpl. lia. }
        exists d0, s0, dv0. apply in_or_app. right. exact Hin.
    + inversion H; subst. split; [done|]. exists []. rewrite app_nil_r.
      split; [done|]. split; [constructor|]. intros h Hh. rewrite Hbufs in Hh. lia.
    + inversion H; subst. split; [done|]. exists []. rewrite app_nil_r.
      split; [done|]. split; [constructor|]. intros h Hh. rewrite Hbufs in Hh. lia.
Qed.

(** X6. Decoding the arguments makes no resource and deletes or frees
    nothing, however it ends: the heap only grows, by live buffers, each
    created by a transfer of host bytes logged during the call.  So when
    decoding stops at a bad argument, the buffers materialized for the
    arguments before it are left live in the heap and are resources of
    nobody. *)
Theorem UnpackRunArguments_only_adds_live_buffers (arguments : term) (c : ExlaClient)
    (id : Z) (w : World) (r : Outcome (list ExlaBuffer)) (w' : World) :
  UnpackRunArguments arguments c id w = (r, w') ->
  env_resources w' = env_resources w /\
  exists new,
    buffers w' = buffers w ++ new /\
    Forall (fun pb => is_deleted pb = false /\ freed pb = false) new /\
    forall h, (length (buffers w) <= h < length (buffers w'))%nat ->
      exists data shape dev,
        In (EvBufferFromHostBuffer data shape dev (Some h)) (new_events w w').
Proof.
  unfold UnpackRunArguments.
  destruct arguments as [| | | | |cells| |];
    try (intros H; inversion H; subst; split; [done|]; exists []; rewrite app_nil_r;
         split; [done|]; split; [constructor|]; intros h Hh; lia).
  apply UnpackRunArguments_loop_heap.
Qed.

Lemma UnpackRunArguments_loop_error c id cells :
  forall acc w e w',
    UnpackRunArguments_loop cells c id acc w = (Fails e, w') ->
    code e = INVALID_ARGUMENT \/
    pjrt_LookupDevice (client_ c) id = Failure e \/
    exists device w0 data shape,
      pjrt_LookupDevice (client_ c) id = Value device /\
      pjrt_BufferFromHostBuffer (client_ c) w0 data shape (device_id device) = Failure e.
Proof.
  induction cells as [|head tail IH]; intros acc w e w' H; simpl in H; [discriminate|].
  destruct head as [| | | |tuple| | |b];
    try (inversion H; subst; left; reflexivity); [|eapply IH; eauto].
  unfold bind, tuple_at in H.
  destruct tuple as [|t0 tuple]; simpl in H; [discriminate|].
  destruct t0 as [| | |data| | | |]; try (inversion H; subst; left; reflexivity).
  destruct tuple as [|t1 tuple]; simpl in H; [discriminate|].
  destruct t1 as [| | | | | |shape|]; try (inversion H; subst; left; reflexivity).
  destruct (BufferFromBinary c data shape id true w) as [rb wm] eqn:Hb.
  destruct (BufferFromBinary_heap _ _ _ _ _ _ _ _ Hb)
    as [_ [[cts [dev [-> _]]] | [[e0 [-> [_ Hwhy]]] | [-> _]]]].
  - eapply IH; eauto.
  - inversion H; subst. right. destruct Hwhy as [Hl | [device [w0 [Hl Ht]]]]; [left; done|].
    right. exists device, w0. eexists. exists shape. split; [exact Hl | exact Ht].
  - discriminate H.
Qed.

(** X7. When decoding the arguments fails, the error is an invalid-argument
    error of the decoder itself, or the error the runtime gave for the
    lookup of the device, or the error it gave for a transfer of host bytes
    to the device looked up. *)
Theorem UnpackRunArguments_error_origin (arguments : term) (c : ExlaClient) (id : Z)
    (w : World) (e : Error) (w' : World) :
  UnpackRunArguments arguments c id w = (Fails e, w') ->
  code e = INVALID_ARGUMENT \/
  pjrt_LookupDevice (client_ c) id = Failure e \/
  exists device w0 data shape,
    pjrt_LookupDevice (client_ c) id = Value device /\
    pjrt_BufferFromHostBuffer (client_ c) w0 data shape (device_id device) = Failure e.
Proof.
  unfold UnpackRunArguments.
  destruct arguments as [| | | | |cells| |];
    try (intros H; inversion H; subst; left; reflexivity).
  apply UnpackRunArguments_loop_error.
Qed.

(** X8. When decoding succeeds, whatever the device id, there is one buffer
    per argument, in the order of the arguments: a handle stands for itself,
    host bytes for a buffer created during the call and tagged for release
    after the run; every lookup is of the given id and every transfer goes
    to the device that lookup returned. *)
Theorem UnpackRunArguments_one_buffer_per_argument (arguments : term) (c : ExlaClient)
    (id : Z) (w : World) (bufs : list ExlaBuffer) (w' : World) :
  UnpackRunArguments arguments c id w = (Returns bufs, w') ->
  Forall2 (input_of (length (buffers w)) (new_events w w')) (list_cells arguments) bufs /\
  Forall (fun ev => match ev with
                    | EvLookupDevice id' => id' = id
                    | EvBufferFromHostBuffer _ _ dev _ => resolved (client_ c) id dev
                    | _ => False
                    end) (new_events w w').
Proof.
  intros H. split.
  - destruct arguments as [| | | | |cells| |]; try discriminate. simpl in H. simpl.
    destruct (UnpackRunArguments_loop_returns _ _ _ _ _ _ _ H) as [more [Em [F2 _]]].
    simpl in Em. subst more. exact F2.
  - apply evolves_new_events.
    eapply steps_UnpackRunArguments; [| |exact H]; simpl; auto.
Qed.

(** ** Waiting for the inputs *)

Lemma Run_inputs_effect bufs :
  forall acc w r w',
    Run_inputs bufs acc w = (r, w') ->
    buffers w' = buffers w /\
    match r with
    | Returns pjrt_buffers =>
        pjrt_buffers = acc ++ map buffer bufs /\
        env_resources w' = env_resources w ++ List.filter release_after_run bufs /\
        trace w' = trace w ++ input_events bufs
    | _ =>
        exists before b after,
          bufs = before ++ b :: after /\ release_after_run b = true /\
          env_resources w' = env_resources w ++ List.filter release_after_run before /\
          trace w' = trace w ++ input_events before ++ [EvBlockHostUntilReady (buffer b)]
    end.
Proof.
  induction bufs as [|buf rest IH]; intros acc w r w' H; simpl in H.
  - inversion H; subst. split; [done|]. rewrite !app_nil_r. done.
  - destruct (release_after_run buf) eqn:Rel.
    + destruct (bind_inv _ _ _ _ _ H) as [[u [wa [Hblk H2]]] | [[e [Hblk ->]] | [Hblk ->]]];
        destruct (Block_inv _ _ _ _ Hblk) as [Ewa _].
      * subst wa. unfold bind, nif_make_buffer in H2. simpl in H2.
        destruct (IH _ _ _ _ H2) as [Hb Hr]. simpl in Hb. split; [exact Hb|].
        destruct r as [pj|e|].
        -- destruct Hr as [Epj [Eres Etr]]. simpl in Eres, Etr.
           rewrite Epj, Eres, Etr, <- !app_assoc.
           unfold input_events. simpl. rewrite Rel. simpl. done.
        -- destruct Hr as [before [b [after [Eb [Rb [Eres Etr]]]]]].
           exists (buf :: before), b, after. simpl in Eres, Etr.
           rewrite Eb, Eres, Etr, <- !app_assoc.
           unfold input_events. simpl. rewrite Rel. simpl. done.
        -- destruct Hr as [before [b [after [Eb [Rb [Eres Etr]]]]]].
           exists (buf :: before), b, after. simpl in Eres, Etr.
           rewrite Eb, Eres, Etr, <- !app_assoc.
           unfold input_events. simpl. rewrite Rel. simpl. done.
      * subst w'. split; [done|]. exists [], buf, rest. simpl.
        rewrite app_nil_r. done.
      * subst w'. split; [done|]. exists [], buf, rest. simpl.
        rewrite app_nil_r. done.
    + destruct (IH _ _ _ _ H) as [Hb Hr]. split; [exact Hb|].
      destruct r as [pj|e|].
      * destruct Hr as [Epj [Eres Etr]]. rewrite Epj, Eres, Etr, <- app_assoc.
        unfold input_events. simpl. rewrite Rel. done.
      * destruct Hr as [before [b [after [Eb [Rb [Eres Etr]]]]]].
        exists (buf :: before), b, after. rewrite Eb, Eres, Etr.
        unfold input_events. simpl. rewrite Rel. done.
      * destruct Hr as [before [b [after [Eb [Rb [Eres Etr]]]]]].
        exists (buf :: before), b, after. rewrite Eb, Eres, Etr.
        unfold input_events. simpl. rewrite Rel. done.
Qed.

(** X9. When the loop of [Run] over its inputs gets through, it has waited
    for exactly the inputs tagged for release after the run and made exactly
    those resources, in the order of the inputs; an input without the tag is
    neither waited for nor made a resource.  The buffers handed to the
    execution are those of all the inputs, in order, and the heap is as it
    was. *)
Theorem Run_inputs_waits_for_tagged_inputs_only (bufs : list ExlaBuffer) (w : World)
    (pjrt_buffers : list nat) (w' : World) :
  Run_inputs bufs [] w = (Returns pjrt_buffers, w') ->
  pjrt_buffers = map buffer bufs /\
  buffers w' = buffers w /\
  env_resources w' = env_resources w ++ List.filter release_after_run bufs /\
  new_events w w' = input_events bufs.
Proof.
  intros H. destruct (Run_inputs_effect _ _ _ _ _ H) as [Hb [Epj [Eres Etr]]].
  split; [exact Epj|]. split; [exact Hb|]. split; [exact Eres|].
  apply new_events_app. exact Etr.
Qed.

(** X10. When a wait fails in the loop of [Run] over its inputs, the loop
    stops there: the inputs before the one whose wait failed are resources
    if they are tagged, but that input and the inputs after it are not made
    resources by the call, though they may have been materialized for it. *)
Theorem Run_inputs_failed_wait_stops_tracking (bufs : list ExlaBuffer) (w : World)
    (e : Error) (w' : World) :
  Run_inputs bufs [] w = (Fails e, w') ->
  exists before b after,
    bufs = before ++ b :: after /\ release_after_run b = true /\
    env_resources w' = env_resources w ++ List.filter release_after_run before /\
    new_events w w' = input_events before ++ [EvBlockHostUntilReady (buffer b)] /\
    buffers w' = buffers w.
Proof.
  intros H. destruct (Run_inputs_effect _ _ _ _ _ H)
    as [Hb [before [b [after [Eb [Rb [Eres Etr]]]]]]].
  exists before, b, after. split; [exact Eb|]. split; [exact Rb|]. split; [exact Eres|].
  split; [apply new_events_app; exact Etr | exact Hb].
Qed.

(** ** The result of a run *)

Lemma destroy_never_fails h w e w' : PjRtBuffer_destroy h w <> (Fails e, w').
Proof.
  unfold PjRtBuffer_destroy, bind, deref, store, emit.
  destruct (buffers w !! h) as [pb|]; [destruct (freed pb)|]; simpl; discriminate.
Qed.

Lemma destroy_all_never_fails hs : forall w e w', destroy_all hs w <> (Fails e, w').
Proof.
  induction hs as [|h hs IH]; intros w e w' H; simpl in H; [discriminate|].
  destruct (bind_inv _ _ _ _ _ H) as [[u [w1 [_ H2]]] | [[e0 [H1 _]] | [_ He]]];
    [eapply IH; eauto | eapply destroy_never_fails; eauto | discriminate].
Qed.

Section RunResult.

Variable LayoutsInShapesEqual : Shape -> Shape -> bool.
Variable Relayout : Literal -> Shape -> Literal.

Lemma UnpackResult_loop_never_fails result :
  forall keep terms w e w',
    UnpackResult_loop LayoutsInShapesEqual Relayout result keep terms w <> (Fails e, w').
Proof.
  induction result as [|h rest IH]; intros keep terms w e w' H; simpl in H;
    [discriminate|].
  destruct keep.
  - unfold bind, nif_make_buffer in H. simpl in H. eapply IH; eauto.
  - destruct (nif_inv _ _ _ _ _ _ H)
      as [[t [w1 [_ H2]]] | [[e0 [w1 [_ H2]]] | [_ He]]]; [| |discriminate].
    + destruct (bind_inv _ _ _ _ _ H2) as [[u [w2 [_ H3]]] | [[e1 [H3 _]] | [_ He]]];
        [eapply IH; eauto | eapply destroy_never_fails; eauto | discriminate].
    + destruct (bind_inv _ _ _ _ _ H2) as [[u [w2 [_ H3]]] | [[e1 [H3 _]] | [_ He]]];
        [discriminate | eapply destroy_all_never_fails; eauto | discriminate].
Qed.

Lemma Run_dispatch_result e pjrt_buffers keep d options w r w' :
  Run_dispatch LayoutsInShapesEqual Relayout e pjrt_buffers keep d options w = (r, w') ->
  match r with
  | Returns t => (exists outs, t = run_ok outs) \/ (exists msg, t = nif_error msg)
  | Fails _ => False
  | Aborts => True
  end.
Proof.
  assert (Hunpack : forall result w r w',
     UnpackResult LayoutsInShapesEqual Relayout result keep w = (r, w') ->
     match r with
     | Returns t => (exists outs, t = run_ok outs) \/ (exists msg, t = nif_error msg)
     | Fails _ => False
     | Aborts => True
     end).
  { intros result w0 r0 w0' H. destruct r0 as [t|e0|]; [| |done].
    - destruct (UnpackResult_loop_returns _ _ _ _ _ _ _ _ H)
        as [[msg [Em _]] | [outs [Et _]]]; [right | left]; eauto.
    - eapply UnpackResult_loop_never_fails; eauto. }
  assert (Herr : forall (e0 : Error) w0 r0 w0',
     bind (ret tt) (fun _ => ret (nif_error (error_message e0))) w0 = (r0, w0') ->
     match r0 with
     | Returns t => (exists outs, t = run_ok outs) \/ (exists msg, t = nif_error msg)
     | Fails _ => False
     | Aborts => True
     end).
  { intros e0 w0 r0 w0' H. inversion H; subst. right. eauto. }
  unfold Run_dispatch. destruct (0 <=? d); intros H.
  - destruct (nif_inv _ _ _ _ _ _ H)
      as [[device [w1 [_ H2]]] | [[e0 [w1 [_ H2]]] | [_ ->]]]; [|eapply Herr; eauto|done].
    destruct (nif_inv _ _ _ _ _ _ H2)
      as [[hs [w2 [_ H3]]] | [[e0 [w2 [_ H3]]] | [_ ->]]]; [|eapply Herr; eauto|done].
    destruct (nif_inv _ _ _ _ _ _ H3)
      as [[t [w3 [H4 H5]]] | [[e0 [w3 [H4 _]]] | [_ ->]]]; [| |done].
    + inversion H5; subst. exact (Hunpack _ _ _ _ H4).
    + exfalso. exact (Hunpack _ _ _ _ H4).
  - destruct (nif_inv _ _ _ _ _ _ H)
      as [[hss [w1 [_ H2]]] | [[e0 [w1 [_ H2]]] | [_ ->]]]; [|eapply Herr; eauto|done].
    destruct (bind_inv _ _ _ _ _ H2) as [[first [w2 [Ha H3]]] | [[e0 [Ha _]] | [_ ->]]];
      [| destruct hss; discriminate | done].
    destruct (nif_inv _ _ _ _ _ _ H3)
      as [[t [w3 [H4 H5]]] | [[e0 [w3 [H4 _]]] | [_ ->]]]; [| |done].
    + pose proof (Hunpack _ _ _ _ H4) as Ht.
      destruct (bind_inv _ _ _ _ _ H5) as [[u [w4 [_ H6]]] | [[e1 [H6 _]] | [_ ->]]];
        [| exfalso; eapply destroy_all_never_fails; eauto | done].
      inversion H6; subst. exact Ht.
    + exfalso. exact (Hunpack _ _ _ _ H4).
Qed.

(** X11. [Run] never returns a non-OK status: every failure of decoding,
    waiting, lookup, execution or readback comes back as the term
    [{:error, message}].  What it returns is that term or the term
    [{:ok, {outputs, 0}}], never anything else and never part of the
    outputs. *)
Theorem Run_returns_ok_or_error_term (e : ExlaExecutable) (arguments : term)
    (keep : bool) (d : Z) (w : World) (r : Outcome term) (w' : World) :
  Run LayoutsInShapesEqual Relayout e arguments keep d w = (r, w') ->
  match r with
  | Returns t => (exists outs, t = run_ok outs) \/ (exists msg, t = nif_error msg)
  | Fails _ => False
  | Aborts => True
  end.
Proof.
  intros H. unfold Run in H.
  destruct (nif_inv _ _ _ _ _ _ H)
    as [[bufs [w1 [_ H2]]] | [[e0 [w1 [_ H2]]] | [_ ->]]]; [| |done].
  - destruct (nif_inv _ _ _ _ _ _ H2)
      as [[pj [w2 [_ H3]]] | [[e0 [w2 [_ H3]]] | [_ ->]]]; [| |done].
    + eapply Run_dispatch_result; eauto.
    + inversion H3; subst. right. eauto.
  - inversion H2; subst. right. eauto.
Qed.

End RunResult.

(** ** Reading buffers back *)

Section ReadingBack.

Variable LayoutsInShapesEqual : Shape -> Shape -> bool.
Variable Relayout : Literal -> Shape -> Literal.

Lemma ToBinary_outcome_by_buffers b size w1 w2 :
  buffers w1 = buffers w2 ->
  fst (ToBinary LayoutsInShapesEqual Relayout b size w1) =
  fst (ToBinary LayoutsInShapesEqual Relayout b size w2).
Proof.
  intros E.
  unfold ToBinary, PjRtBuffer_BlockHostUntilReady, PjRtBuffer_ToLiteral, bind, emit, deref.
  simpl. rewrite E.
  destruct (buffers w2 !! buffer_ b) as [pb|] eqn:L; [|reflexivity].
  destruct (freed pb) eqn:F; [reflexivity|].
  destruct (is_deleted pb) eqn:D; [reflexivity|].
  destruct (contents_ready (contents pb)); simpl; [|reflexivity].
  rewrite L, F, D.
  destruct (contents_value (contents pb)); simpl; [|reflexivity].
  rewrite L, F.
  match goal with |- context [if ?c then _ else _] => destruct c end; reflexivity.
Qed.

(** X12. [ToBinary] only reads: it leaves the heap and the resources as
    they were, so a second call on the same buffer and size ends as the
    first did.  It waits for the buffer first and reads it back only when
    the wait succeeded; a failed wait is returned as it is, without any
    readback.  It returns a binary only for a live buffer whose wait and
    readback both succeeded. *)
Theorem ToBinary_reads_only_and_repeats (b : ExlaBuffer) (size : Z) (w : World)
    (r : Outcome term) (w' : World) :
  ToBinary LayoutsInShapesEqual Relayout b size w = (r, w') ->
  buffers w' = buffers w /\ env_resources w' = env_resources w /\
  fst (ToBinary LayoutsInShapesEqual Relayout b size w') = r /\
  (forall e, r = Fails e ->
     new_events w w' = [EvBlockHostUntilReady (buffer_ b)] \/
     new_events w w' = [EvBlockHostUntilReady (buffer_ b); EvToLiteral (buffer_ b)] /\
     exists pb, buffers w !! buffer_ b = Some pb /\ contents_ready (contents pb) = OK) /\
  (forall t, r = Returns t ->
     is_binary_term t /\ live w (buffer_ b) /\
     new_events w w' = [EvBlockHostUntilReady (buffer_ b); EvToLiteral (buffer_ b)]).
Proof.
  intros H. destruct (ToBinary_inv _ _ _ _ _ _ _ H) as [Hb [Hres Hr]].
  split; [exact Hb|]. split; [exact Hres|]. split.
  { rewrite (ToBinary_outcome_by_buffers b size w' w Hb), H. done. }
  split.
  - intros e ->. destruct Hr as [pb [L [F [[Hev _] | [Hev [R _]]]]]]; [left; done|].
    right. split; [done|]. eauto.
  - intros t ->. destruct Hr as [pb [lit [L [F [D [R [V [-> Hev]]]]]]]].
    split; [eexists; reflexivity|]. split; [exists pb; auto | exact Hev].
Qed.

End ReadingBack.

(** ** Packing the results *)

Section Packing.

Variable LayoutsInShapesEqual : Shape -> Shape -> bool.
Variable Relayout : Literal -> Shape -> Literal.

(** X13. Packing results that are kept on the device cannot fail: every
    result buffer becomes a resource of the environment, without the
    release-after-run tag, and the outputs are the handles of the buffers in
    the order the execution returned them.  Nothing is waited for, read
    back, deleted or freed. *)
Theorem UnpackResult_keep_makes_every_result_a_resource (result : list nat) (w : World) :
  UnpackResult LayoutsInShapesEqual Relayout result true w =
    (Returns (run_ok (map (fun h => TBuffer (mkExlaBuffer h false)) result)),
     mkWorld (buffers w)
             (env_resources w ++ map (fun h => mkExlaBuffer h false) result)
             (trace w ++ map (fun h => EvMakeResource (mkExlaBuffer h false)) result)).
Proof. apply (UnpackResult_loop_keep LayoutsInShapesEqual Relayout result [] w). Qed.

(** X14. When packing results that are not kept on the device succeeds,
    there is one output per result buffer, in the order of the buffers, and
    each output is a binary with all the bytes of the buffer's value in the
    host layout.  The call makes no resource and creates no buffer. *)
Theorem UnpackResult_reads_back_every_result_in_order (result : list nat) (w : World)
    (outs : list term) (w' : World) :
  UnpackResult LayoutsInShapesEqual Relayout result false w = (Returns (run_ok outs), w') ->
  Forall2 (fun h out =>
             exists pb lit,
               buffers w' !! h = Some pb /\
               contents_value (contents pb) = Value lit /\
               out = TBinary (host_bytes LayoutsInShapesEqual Relayout pb lit))
          result outs /\
  env_resources w' = env_resources w /\
  length (buffers w') = length (buffers w).
Proof.
  intros H. unfold UnpackResult in H.
  destruct (UnpackResult_loop_read_back _ _ _ _ _ _ _ H)
    as [Hres [Hlen [[o [Eo F2]] | [msg [before [h [after [Em _]]]]]]]].
  - simpl in Eo. inversion Eo; subst o. auto.
  - discriminate Em.
Qed.

(** X15. When a readback fails while packing results that are not kept on
    the device, the call returns the error term and no output.  The buffers
    before the one whose readback failed were read and freed, the buffers
    after it are freed unread, and that buffer itself is left exactly as it
    was: it is neither freed nor made a resource. *)
Theorem UnpackResult_failed_readback_leaves_that_buffer (result : list nat) (w : World)
    (msg : string) (w' : World) :
  List.NoDup result ->
  UnpackResult LayoutsInShapesEqual Relayout result false w
    = (Returns (nif_error msg), w') ->
  exists before h after,
    result = before ++ h :: after /\
    Forall (is_freed w') before /\ Forall (is_freed w') after /\
    buffers w' !! h = buffers w !! h /\
    env_resources w' = env_resources w.
Proof.
  intros Hnd H. unfold UnpackResult in H.
  destruct (UnpackResult_loop_read_back _ _ _ _ _ _ _ H)
    as [Hres [Hlen [[o [Eo _]] | [m [before [h [after [_ [Er [Fb [Fa Hkeep]]]]]]]]]]].
  - discriminate Eo.
  - exists before, h, after. split; [exact Er|]. split; [exact Fb|]. split; [exact Fa|].
    split; [|exact Hres]. rewrite Er in Hnd.
    apply List.NoDup_remove_2 in Hnd. apply Hkeep.
    + intros Hin. apply Hnd. apply in_or_app. left. exact Hin.
    + intros Hin. apply Hnd. apply in_or_app. right. exact Hin.
Qed.

End Packing.

(** ** Deallocation, again *)

(** X17. [Deallocate] deletes and does not free: whatever it returns, the
    resources, the number of buffers and every other buffer are as they
    were, and the buffer itself keeps its contents and is not freed by the
    call.  When it fails, the world is exactly as it was.  It aborts only on
    a buffer that does not exist or was freed. *)
Theorem Deallocate_touches_only_the_deleted_flag (b : ExlaBuffer) (w : World)
    (r : Outcome unit) (w' : World) :
  Deallocate b w = (r, w') ->
  env_resources w' = env_resources w /\
  length (buffers w') = length (buffers w) /\
  (forall h, h <> buffer_ b -> buffers w' !! h = buffers w !! h) /\
  (forall pb, buffers w !! buffer_ b = Some pb ->
     exists pb', buffers w' !! buffer_ b = Some pb' /\
                 contents pb' = contents pb /\ freed pb' = freed pb) /\
  (forall e, r = Fails e -> w' = w) /\
  (r = Aborts -> ~ live w (buffer_ b)).
Proof.
  unfold Deallocate, PjRtBuffer_IsDeleted, PjRtBuffer_Delete, bind, deref, store, emit, live.
  destruct (buffers w !! buffer_ b) as [pb|] eqn:L.
  2:{ intros H; inversion H; subst. repeat split; try done.
      intros _ [pb [L' _]]. discriminate. }
  destruct (freed pb) eqn:F; simpl.
  { intros H; inversion H; subst. repeat split; try done.
    - intros pb0 L0. inversion L0; subst pb0. exists pb. auto.
    - intros _ [pb' [L' F']]. inversion L'; subst pb'. congruence. }
  destruct (is_deleted pb) eqn:D; simpl.
  { intros H; inversion H; subst. repeat split; try done.
    intros pb0 L0. inversion L0; subst pb0. exists pb. auto. }
  rewrite L, F. simpl. intros H; inversion H; subst; simpl.
  split; [done|]. split; [apply length_insert|].
  split; [intros h Hne; apply list_lookup_insert_ne; congruence|].
  split; [|split; discriminate].
  intros pb0 L0. inversion L0; subst pb0.
  exists (mkPjRtBuffer (contents pb) true (freed pb)).
  split; [apply list_lookup_insert_eq; eapply lookup_lt_Some; eauto|]. simpl. auto.
Qed.

(** X18. A buffer that [BufferFromBinary] has just returned can be
    deallocated at once, and only once: the first [Deallocate] returns OK
    and the second fails with a failed-precondition error. *)
Theorem BufferFromBinary_then_Deallocate_once (c : ExlaClient) (binary : list byte)
    (shape : Shape) (id : Z) (flag : bool) (w : World) (buf : ExlaBuffer) (w1 : World) :
  BufferFromBinary c binary shape id flag w = (Returns buf, w1) ->
  exists w2 e,
    Deallocate buf w1 = (Returns tt, w2) /\
    Deallocate buf w2 = (Fails e, w2) /\ code e = FAILED_PRECONDITION.
Proof.
  intros H.
  destruct (BufferFromBinary_heap _ _ _ _ _ _ _ _ H)
    as [_ [[cts [dev [Eb [Hbufs _]]]] | [[e [Hr _]] | [Hr _]]]]; [|discriminate|discriminate].
  inversion Eb; subst buf. clear Eb.
  assert (L : buffers w1 !! length (buffers w) = Some (mkPjRtBuffer cts false false)).
  { rewrite Hbufs. rewrite lookup_app_r by lia. rewrite Nat.sub_diag. done. }
  eexists. eexists. split; [|split].
  - unfold Deallocate, PjRtBuffer_IsDeleted, PjRtBuffer_Delete, bind. cbn [buffer_].
    rewrite (deref_live _ _ _ L eq_refl). simpl.
    rewrite (deref_live _ _ _ L eq_refl). simpl. reflexivity.
  - apply (Deallocate_deleted (mkExlaBuffer (length (buffers w)) flag) _
             (mkPjRtBuffer cts true false)); simpl; [|done|done].
    apply list_lookup_insert_eq. eapply lookup_lt_Some; eauto.
  - reflexivity.
Qed.

(** ** Compilation, again *)

Lemma stripped_layouts_agree shapes shapes' :
  Forall2 (fun s s' => element_type s = element_type s' /\ dimensions s = dimensions s')
          shapes shapes' ->
  map (fun shape => ClearLayout (MakeShape (element_type shape) (dimensions shape))) shapes =
  map (fun shape => ClearLayout (MakeShape (element_type shape) (dimensions shape))) shapes'.
Proof.
  induction 1 as [|s s' l l' [Het Hd] _ IH]; simpl; [done|].
  rewrite Het, Hd. f_equal. exact IH.
Qed.

(** X19. [Compile] looks at nothing of an argument shape but its element
    type and its dimensions: two lists of shapes that agree on these, shape
    by shape, whatever their layouts and tuple elements, give the same call
    to the runtime and the same result. *)
Theorem Compile_depends_on_element_types_and_dimensions_only (c : ExlaClient)
    (computation : XlaComputation) (shapes shapes' : list Shape)
    (options : ExecutableBuildOptions) (portable : bool) (w : World) :
  Forall2 (fun s s' => element_type s = element_type s' /\ dimensions s = dimensions s')
          shapes shapes' ->
  Compile c computation shapes options portable w =
  Compile c computation shapes' options portable w.
Proof.
  intros H. unfold Compile. cbv zeta. rewrite (stripped_layouts_agree _ _ H). reflexivity.
Qed.

(** X20. [Compile] asks the runtime for the fingerprint only after the
    program compiled, and then exactly once: the calls are one compilation,
    followed by one fingerprint request when the compilation succeeded.  It
    changes neither the heap nor the resources. *)
Theorem Compile_requests_fingerprint_after_compilation (c : ExlaClient)
    (computation : XlaComputation) (shapes : list Shape)
    (options : ExecutableBuildOptions) (portable : bool) (w : World) :
  let compile_opts :=
    mkCompileOptions
      (map (fun s => mkShape (element_type s) (dimensions s) [] None) shapes)
      false options portable in
  let w' := snd (Compile c computation shapes options portable w) in
  buffers w' = buffers w /\ env_resources w' = env_resources w /\
  new_events w w' =
    match pjrt_Compile (client_ c) computation compile_opts with
    | Failure _ => [EvCompile computation compile_opts]
    | Value _ => [EvCompile computation compile_opts; EvExecutableFingerprint]
    end.
Proof.
  intros compile_opts w'. subst w' compile_opts.
  assert (E : map (fun shape => ClearLayout (MakeShape (element_type shape) (dimensions shape)))
                  shapes =
              map (fun s => mkShape (element_type s) (dimensions s) [] None) shapes).
  { apply map_ext. intros s. apply ClearLayout_MakeShape. }
  unfold Compile. cbv zeta. rewrite E. unfold bind, emit. simpl.
  match goal with
  | |- context [pjrt_Compile ?a ?b ?o] => destruct (pjrt_Compile a b o) as [pexe|e]
  end; simpl.
  - destruct (pjrt_ExecutableFingerprint (client_ c) pexe); simpl;
      (split; [done|]); (split; [done|]);
      apply new_events_app; simpl; rewrite <- app_assoc; reflexivity.
  - split; [done|]. split; [done|]. apply new_events_app. reflexivity.
Qed.

(** ** Runs on buffers that are already on the device *)

Lemma Run_inputs_untagged bufs :
  Forall (fun b => release_after_run b = false) bufs ->
  forall acc w, Run_inputs bufs acc w = (Returns (acc ++ map buffer bufs), w).
Proof.
  induction 1 as [|b bufs Hb _ IH]; intros acc w; simpl.
  - rewrite app_nil_r. done.
  - rewrite Hb, IH, <- app_assoc. done.
Qed.

Section RunOnHandles.

Variable LayoutsInShapesEqual : Shape -> Shape -> bool.
Variable Relayout : Literal -> Shape -> Literal.

(** X21. A run whose arguments are all handles of buffers without the
    release-after-run tag does nothing before the dispatch: no lookup for an
    argument, no transfer, no wait and no resource.  It is the dispatch on
    the buffers of the handles, in order, from the world as it was. *)
Theorem Run_on_untagged_handles_is_the_dispatch (e : ExlaExecutable)
    (bufs : list ExlaBuffer) (keep : bool) (d : Z) (w : World) :
  Forall (fun b => release_after_run b = false) bufs ->
  Run LayoutsInShapesEqual Relayout e (TList (map TBuffer bufs)) keep d w =
  Run_dispatch LayoutsInShapesEqual Relayout e (map buffer bufs) keep d
               (mkExecuteOptions true false) w.
Proof.
  intros H. unfold Run, EXLA_ASSIGN_OR_RETURN_NIF at 1.
  assert (Hu : forall id, UnpackRunArguments (TList (map TBuffer bufs)) (exe_client_ e) id w
                          = (Returns bufs, w)).
  { intros id. apply (UnpackRunArguments_loop_handles bufs (exe_client_ e) id [] w). }
  destruct (0 <=? d); rewrite Hu; unfold EXLA_ASSIGN_OR_RETURN_NIF at 1;
    rewrite (Run_inputs_untagged bufs H [] w); reflexivity.
Qed.

Lemma Run_dispatch_kept_outputs_are_resources e pjrt_buffers keep d w outs w' :
  keep = true ->
  Run_dispatch LayoutsInShapesEqual Relayout e pjrt_buffers keep d
               (mkExecuteOptions true false) w = (Returns (run_ok outs), w') ->
  Forall (fun t => exists h, t = TBuffer (mkExlaBuffer h false) /\
                             In (mkExlaBuffer h false) (env_resources w')) outs.
Proof.
  intros -> H.
  assert (Hpack : forall hs w2 w3 w4,
            UnpackResult LayoutsInShapesEqual Relayout hs true w2
              = (Returns (run_ok outs), w3) ->
            evolves (fun _ => True) w3 w4 ->
            Forall (fun t => exists h, t = TBuffer (mkExlaBuffer h false) /\
                                       In (mkExlaBuffer h false) (env_resources w4)) outs).
  { intros hs w2 w3 w4 Hp Ev. unfold UnpackResult in Hp.
    rewrite UnpackResult_loop_keep in Hp. inversion Hp as [[Eo Ew]].
    clear Hp. subst outs w3. simpl.
    apply List.Forall_map. apply List.Forall_forall. intros h Hin.
    exists h. split; [done|]. eapply evolves_resources; [exact Ev|]. simpl.
    apply in_or_app. right.
    apply (in_map (fun h0 => mkExlaBuffer h0 false)). exact Hin. }
  unfold Run_dispatch in H. destruct (0 <=? d).
  - destruct (nif_inv _ _ _ _ _ _ H)
      as [[device [w1 [_ H2]]] | [[e0 [w1 [_ H2]]] | [_ He]]]; [| |discriminate].
    2:{ inversion H2. }
    destruct (nif_inv _ _ _ _ _ _ H2)
      as [[hs [w2 [_ H4]]] | [[e0 [w2 [_ H4]]] | [_ He]]]; [| |discriminate].
    2:{ inversion H4. }
    destruct (nif_inv _ _ _ _ _ _ H4)
      as [[t [w3 [H5 H6]]] | [[e0 [w3 [_ H6]]] | [_ He]]]; [| |discriminate].
    2:{ inversion H6. }
    inversion H6; subst t w3. eapply Hpack; [exact H5 | apply evolves_refl].
  - destruct (nif_inv _ _ _ _ _ _ H)
      as [[hss [w1 [_ H2]]] | [[e0 [w1 [_ H2]]] | [_ He]]]; [| |discriminate].
    2:{ inversion H2. }
    destruct (bind_inv _ _ _ _ _ H2) as [[first [w2 [_ H3]]] | [[e0 [_ He]] | [_ He]]];
      try discriminate.
    destruct (nif_inv _ _ _ _ _ _ H3)
      as [[t [w3 [H5 H6]]] | [[e0 [w3 [_ H6]]] | [_ He]]]; [| |discriminate].
    2:{ destruct (bind_inv _ _ _ _ _ H6) as [[u [w4 [_ H7]]] | [[e1 [_ He]] | [_ He]]];
          try discriminate; inversion H7. }
    destruct (bind_inv _ _ _ _ _ H6) as [[u [w4 [Hdes H7]]] | [[e1 [_ He]] | [_ He]]];
      try discriminate.
    inversion H7; subst t w4. eapply Hpack; [exact H5|].
    eapply steps_destroy_all; [|exact Hdes]. done.
Qed.

(** X22. After a successful run that keeps its outputs on the device, each
    output is the handle of a buffer without the release-after-run tag, and
    that buffer is a resource of the environment when [Run] returns. *)
Theorem Run_kept_outputs_are_resources (e : ExlaExecutable) (arguments : term) (d : Z)
    (w : World) (outs : list term) (w' : World) :
  Run LayoutsInShapesEqual Relayout e arguments true d w = (Returns (run_ok outs), w') ->
  Forall (fun t => exists h, t = TBuffer (mkExlaBuffer h false) /\
                             In (mkExlaBuffer h false) (env_resources w')) outs.
Proof.
  intros H.
  destruct (Run_ok_phases _ _ _ _ _ _ _ _ _ H) as [bufs [w1 [pj [w2 [_ [_ H3]]]]]].
  eapply Run_dispatch_kept_outputs_are_resources; [reflexivity | exact H3].
Qed.

End RunOnHandles.

(** ** The dispatch does not abort on fresh results *)

Lemma destroy_live h w :
  live w h -> exists w', PjRtBuffer_destroy h w = (Returns tt, w').
Proof.
  intros [pb [L F]]. unfold PjRtBuffer_destroy, bind.
  rewrite (deref_live _ _ _ L F). simpl. eauto.
Qed.

Lemma destroy_all_live hs :
  forall w, List.NoDup hs -> Forall (live w) hs ->
            exists w', destroy_all hs w = (Returns tt, w').
Proof.
  induction hs as [|h hs IH]; intros w Hnd Hl; simpl; [eexists; reflexivity|].
  inversion Hnd as [|? ? Hnin Hnd']; subst. inversion Hl as [|? ? Hh Hl']; subst.
  destruct (destroy_live _ _ Hh) as [w1 H1]. unfold bind. rewrite H1.
  apply IH; [exact Hnd'|]. rewrite List.Forall_forall in *. intros h0 Hin.
  eapply live_by_lookup; [|apply Hl'; exact Hin].
  eapply destroy_frame; [exact H1|]. intros ->. contradiction.
Qed.

Section NoAbort.

Variable LayoutsInShapesEqual : Shape -> Shape -> bool.
Variable Relayout : Literal -> Shape -> Literal.

Lemma UnpackResult_loop_frame result :
  forall keep terms w r w' h,
    UnpackResult_loop LayoutsInShapesEqual Relayout result keep terms w = (r, w') ->
    ~ In h result -> buffers w' !! h = buffers w !! h.
Proof.
  induction result as [|h0 rest IH]; intros keep terms w r w' h H Hnin; simpl in H.
  - inversion H; subst. done.
  - assert (Hne : h <> h0) by (intros ->; apply Hnin; left; done).
    assert (Hnr : ~ In h rest) by (intros Hin; apply Hnin; right; exact Hin).
    destruct keep.
    + unfold bind, nif_make_buffer in H. simpl in H.
      rewrite (IH _ _ _ _ _ _ H Hnr). done.
    + destruct (nif_inv _ _ _ _ _ _ H)
        as [[t [w1 [H1 H2]]] | [[e [w1 [H1 H2]]] | [H1 _]]];
        destruct (ToBinary_inv _ _ _ _ _ _ _ H1) as [Hb1 _].
      * destruct (bind_inv _ _ _ _ _ H2) as [[u [w2 [Hd H3]]] | [[e [Hd _]] | [Hd _]]].
        -- rewrite (IH _ _ _ _ _ _ H3 Hnr), (destroy_frame _ _ _ _ _ Hd Hne), Hb1. done.
        -- rewrite (destroy_frame _ _ _ _ _ Hd Hne), Hb1. done.
        -- rewrite (destroy_frame _ _ _ _ _ Hd Hne), Hb1. done.
      * destruct (bind_inv _ _ _ _ _ H2) as [[u [w2 [Hd H3]]] | [[e0 [Hd _]] | [Hd _]]].
        -- inversion H3; subst. rewrite (destroy_all_frame _ _ _ _ _ Hd Hnr), Hb1. done.
        -- rewrite (destroy_all_frame _ _ _ _ _ Hd Hnr), Hb1. done.
        -- rewrite (destroy_all_frame _ _ _ _ _ Hd Hnr), Hb1. done.
      * rewrite Hb1. done.
Qed.

Lemma UnpackResult_loop_no_abort result :
  forall keep terms w w',
    List.NoDup result -> Forall (live w) result ->
    UnpackResult_loop LayoutsInShapesEqual Relayout result keep terms w <> (Aborts, w').
Proof.
  induction result as [|h rest IH]; intros keep terms w w' Hnd Hl H; simpl in H;
    [discriminate|].
  inversion Hnd as [|? ? Hnin Hnd']; subst. inversion Hl as [|? ? Hh Hl']; subst.
  destruct keep.
  - unfold bind, nif_make_buffer in H. simpl in H.
    eapply IH; [exact Hnd'| |exact H]. exact Hl'.
  - destruct (nif_inv _ _ _ _ _ _ H)
      as [[t [w1 [H1 H2]]] | [[e [w1 [H1 H2]]] | [H1 _]]];
      destruct (ToBinary_inv _ _ _ _ _ _ _ H1) as [Hb1 [_ Hr1]].
    + assert (Hh1 : live w1 h) by (eapply live_same_buffers; eauto).
      destruct (destroy_live _ _ Hh1) as [w2 Hd]. simpl in H2.
      unfold bind in H2. rewrite Hd in H2.
      eapply IH; [exact Hnd'| |exact H2].
      rewrite List.Forall_forall in *. intros h0 Hin.
      eapply live_by_lookup; [|apply Hl'; exact Hin].
      rewrite (destroy_frame _ _ _ _ _ Hd) by (intros ->; contradiction).
      rewrite Hb1. done.
    + assert (Hl1 : Forall (live w1) rest).
      { eapply Forall_impl; [exact Hl'|]. intros h0. apply live_same_buffers. exact Hb1. }
      destruct (destroy_all_live _ _ Hnd' Hl1) as [w2 Hd].
      unfold bind in H2. rewrite Hd in H2. discriminate.
    + apply Hr1. exact Hh.
Qed.

End NoAbort.

Section DispatchAborts.

Variable LayoutsInShapesEqual : Shape -> Shape -> bool.
Variable Relayout : Literal -> Shape -> Literal.

Lemma Run_dispatch_abort_inv e pjrt_buffers keep d options w w' :
  Run_dispatch LayoutsInShapesEqual Relayout e pjrt_buffers keep d options w = (Aborts, w') ->
  d < 0 /\ Execute (executable_ e) [pjrt_buffers] options w = (Returns [], w').
Proof.
  intros H. unfold Run_dispatch in H. destruct (0 <=? d) eqn:Hd.
  - exfalso.
    destruct (nif_inv _ _ _ _ _ _ H)
      as [[device [w1 [H1 H2]]] | [[e0 [w1 [_ H2]]] | [H1 _]]].
    + destruct (nif_inv _ _ _ _ _ _ H2)
        as [[hs [w2 [H3 H4]]] | [[e0 [w2 [_ H4]]] | [H3 _]]].
      * destruct (ExecutePortable_inv _ _ _ _ _ _ _ H3) as [Hnd Hl].
        destruct (nif_inv _ _ _ _ _ _ H4)
          as [[t [w3 [_ H6]]] | [[e0 [w3 [_ H6]]] | [H5 _]]];
          [inversion H6 | inversion H6 |].
        eapply UnpackResult_loop_no_abort; eauto.
      * inversion H4.
      * exact (ExecutePortable_inv _ _ _ _ _ _ _ H3).
    + inversion H2.
    + destruct (LookupDevice_inv _ _ _ _ _ H1) as [_ [[dv [_ Er]] | [e1 [_ Er]]]];
        discriminate.
  - apply Z.leb_gt in Hd. split; [exact Hd|].
    destruct (nif_inv _ _ _ _ _ _ H)
      as [[hss [w1 [H1 H2]]] | [[e0 [w1 [_ H2]]] | [H1 _]]].
    + destruct hss as [|first others].
      { unfold bind in H2. simpl in H2. inversion H2; subst. exact H1. }
      exfalso.
      destruct (Execute_inv _ _ _ _ _ _ H1) as [Hnd Hl]. simpl in Hnd, Hl.
      unfold bind in H2. simpl in H2.
      destruct (nif_inv _ _ _ _ _ _ H2)
        as [[t [w3 [H5 H6]]] | [[e0 [w3 [H5 _]]] | [H5 _]]].
      * assert (Hl3 : Forall (live w3) (concat others)).
        { apply List.Forall_forall. intros h Hin.
          eapply live_by_lookup.
          - eapply UnpackResult_loop_frame; [exact H5|].
            intros Hf. exact (NoDup_app_disjoint _ _ _ Hnd Hf Hin).
          - rewrite List.Forall_forall in Hl. apply Hl. apply in_or_app. right. exact Hin. }
        destruct (destroy_all_live _ _ (List.NoDup_app_remove_l _ _ Hnd) Hl3) as [w4 Hd4].
        unfold bind in H6. rewrite Hd4 in H6. discriminate.
      * eapply UnpackResult_loop_never_fails; eauto.
      * eapply UnpackResult_loop_no_abort; [| |exact H5].
        -- exact (List.NoDup_app_remove_r _ _ Hnd).
        -- apply Forall_app in Hl. exact (proj1 Hl).
    + inversion H2.
    + exfalso. exact (Execute_inv _ _ _ _ _ _ H1).
Qed.

(** X16. For an executable whose result sets each hold at least one buffer,
    the dispatch of [Run] aborts in one case only: the device id is negative
    and the execution succeeded but handed back no replica, for the first
    replica is taken without a check that there is one.  In every other
    case, on any device id and whatever the runtime returns, the dispatch
    does not abort: the buffers an execution creates are new and distinct,
    so reading them and freeing them stays within live buffers.  (A result
    set with no buffer is left out: there line 112 takes the address of the
    first element of an empty vector.) *)
Theorem Run_dispatch_aborts_only_without_replica (e : ExlaExecutable)
    (pjrt_buffers : list nat) (keep : bool) (d : Z) (options : ExecuteOptions)
    (w : World) :
  some_results (executable_ e) ->
  fst (Run_dispatch LayoutsInShapesEqual Relayout e pjrt_buffers keep d options w) = Aborts
  <->
  d < 0 /\ exists w1, Execute (executable_ e) [pjrt_buffers] options w = (Returns [], w1).
Proof.
  intros _. split.
  - destruct (Run_dispatch LayoutsInShapesEqual Relayout e pjrt_buffers keep d options w)
      as [r w'] eqn:H. simpl. intros ->.
    destruct (Run_dispatch_abort_inv _ _ _ _ _ _ _ H) as [Hd He]. eauto.
  - intros [Hd [w1 H1]].
    unfold Run_dispatch. destruct (0 <=? d) eqn:E; [apply Z.leb_le in E; lia|].
    unfold EXLA_ASSIGN_OR_RETURN_NIF at 1. rewrite H1. reflexivity.
Qed.

End DispatchAborts.

(** ** When a run aborts *)

Lemma live_grows w w' new h : buffers w' = buffers w ++ new -> live w h -> live w' h.
Proof.
  intros E [pb [L F]]. exists pb. split; [|exact F].
  rewrite E. rewrite lookup_app_l by (eapply lookup_lt_Some; eauto). exact L.
Qed.

Lemma wf_argument_grows w w' new t :
  buffers w' = buffers w ++ new -> wf_argument w t -> wf_argument w' t.
Proof.
  intros E. destruct t; simpl; auto. intros H Hr. eapply live_grows; eauto.
Qed.

Lemma UnpackRunArguments_loop_wf c id cells :
  forall acc w r w1,
    Forall (wf_argument w) cells ->
    Forall (sized_argument (client_ c)) cells ->
    (forall b, In b acc -> release_after_run b = true -> live w (buffer b)) ->
    UnpackRunArguments_loop cells c id acc w = (r, w1) ->
    match r with
    | Returns bufs => forall b, In b bufs -> release_after_run b = true -> live w1 (buffer b)
    | Fails _ => True
    | Aborts => False
    end.
Proof.
  induction cells as [|head tail IH]; intros acc w r w1 Hwf Hsz Hacc H; simpl in H.
  - inversion H; subst. exact Hacc.
  - inversion Hwf as [|? ? Hhead Htail]; subst.
    inversion Hsz as [|? ? Hsize Hsizes]; subst.
    destruct head as [| | | |tuple| | |b]; try (inversion H; subst; exact I).
    + simpl in Hhead. unfold bind, tuple_at in H.
      destruct tuple as [|t0 tuple]; [simpl in Hhead; lia|]. simpl in H.
      destruct t0 as [| | |data| | | |]; try (inversion H; subst; exact I).
      destruct tuple as [|t1 tuple]; [simpl in Hhead; lia|]. simpl in H.
      destruct t1 as [| | | | | |shape|]; try (inversion H; subst; exact I).
      destruct (BufferFromBinary c data shape id true w) as [rb wm] eqn:Hb.
      destruct (BufferFromBinary_heap _ _ _ _ _ _ _ _ Hb)
        as [_ [[cts [dev [-> [Hbufs _]]]] | [[e [-> _]] | [_ [_ Hshort]]]]];
        [|inversion H; subst; exact I|simpl in Hsize; lia].
      eapply IH; [|exact Hsizes| |exact H].
      * eapply Forall_impl; [exact Htail|]. intros t. eapply wf_argument_grows; eauto.
      * intros b0 Hin Hr. apply in_app_or in Hin. destruct Hin as [Hin|[<-|[]]].
        -- eapply live_grows; eauto.
        -- simpl. exists (mkPjRtBuffer cts false false). split; [|done].
           rewrite Hbufs, lookup_app_r by lia. rewrite Nat.sub_diag. done.
    + eapply IH; [exact Htail|exact Hsizes| |exact H].
      intros b0 Hin Hr. apply in_app_or in Hin. destruct Hin as [Hin|[<-|[]]].
      * apply Hacc; auto.
      * simpl in Hhead. apply Hhead. exact Hr.
Qed.

Section RunAborts.

Variable LayoutsInShapesEqual : Shape -> Shape -> bool.
Variable Relayout : Literal -> Shape -> Literal.

(** X23. Take a run whose arguments can be decoded within bounds (every
    tuple has at least two elements, host bytes hold at least the bytes of a
    value of their shape, and every handle tagged for release names a live
    buffer) and whose executable hands back result sets of at least one
    buffer.  It aborts in one case only: the device id is negative and the
    execution handed back no replica.  On a device id that is not negative
    such a run never aborts. *)
Theorem Run_aborts_only_without_replica (e : ExlaExecutable) (arguments : term)
    (keep : bool) (d : Z) (w : World) :
  wf_arguments w arguments ->
  sized_arguments (client_ (exe_client_ e)) arguments ->
  some_results (executable_ e) ->
  let call := Run LayoutsInShapesEqual Relayout e arguments keep d w in
  fst call = Aborts ->
  d < 0 /\ In (EvResults []) (new_events w (snd call)).
Proof.
  intros Hwf Hsz _ call. destruct call as [r w'] eqn:H. simpl. intros ->.
  unfold Run in H.
  destruct (nif_inv _ _ _ _ _ _ H)
    as [[bufs [w1 [H1 H2]]] | [[e0 [w1 [_ H2]]] | [H1 _]]].
  - assert (H1' : UnpackRunArguments arguments (exe_client_ e) (if 0 <=? d then d else 0) w
                  = (Returns bufs, w1)) by (destruct (0 <=? d); exact H1).
    clear H1.
    assert (Hlive : forall b, In b bufs -> release_after_run b = true -> live w1 (buffer b)).
    { destruct arguments as [| | | | |cells| |]; try discriminate. simpl in H1'.
      apply (UnpackRunArguments_loop_wf _ _ _ _ _ _ _ Hwf Hsz
               (fun b (Hin : In b []) => match Hin with end) H1'). }
    destruct (nif_inv _ _ _ _ _ _ H2)
      as [[pj [w2 [H3 H4]]] | [[e0 [w2 [_ H4]]] | [H3 _]]].
    + destruct (Run_prepare_events _ _ _ _ _ _ _ _ _ H1' H3) as [E1 E2].
      destruct (Run_dispatch_abort_inv _ _ _ _ _ _ _ _ _ H4) as [Hd Hx].
      split; [exact Hd|].
      assert (E3 : evolves (fun _ => True) w2 w') by (eapply steps_Execute; [| |exact Hx]; done).
      eapply in_new_events_later; [exact (evolves_trans _ _ _ _ E1 E2) | exact E3 |].
      rewrite (Execute_ok _ _ _ _ _ _ Hx). right. left. done.
    + inversion H4.
    + exfalso. eapply Run_inputs_no_abort; [exact Hlive | exact H3 | reflexivity].
  - inversion H2.
  - exfalso.
    assert (H1' : UnpackRunArguments arguments (exe_client_ e) (if 0 <=? d then d else 0) w
                  = (Aborts, w')) by (destruct (0 <=? d); exact H1).
    destruct arguments as [| | | | |cells| |]; try discriminate. simpl in H1'.
    exact (UnpackRunArguments_loop_wf _ _ _ _ _ _ _ Hwf Hsz
             (fun b (Hin : In b []) => match Hin with end) H1').
Qed.

End RunAborts.

(** ** The further properties at work on the sample runtime *)

Lemma TransferFromOutfeed_returns_whole_literal_witness :
  fst (TransferFromOutfeed Sample.exla 0 Sample.f32_4 Sample.empty)
    = Returns (TBinary [x01; x02; x03; x04]) /\
  buffers (snd (TransferFromOutfeed Sample.exla 0 Sample.f32_4 Sample.empty)) = [].
Proof.
  destruct (TransferFromOutfeed_returns_whole_literal Sample.exla 0 Sample.f32_4
              Sample.empty _ _ (surjective_pairing _)) as [Hb _].
  split; [reflexivity | exact Hb].
Defined.


Lemma TransferToInfeed_rejects_chunks_before_lookup_witness :
  exists e,
    TransferToInfeed Sample.exla Sample.atom_then_binary Sample.pair_shape 0 Sample.empty
      = (Fails e, Sample.empty) /\
    code e = INVALID_ARGUMENT.
Proof.
  apply (TransferToInfeed_rejects_chunks_before_lookup Sample.exla Sample.atom_then_binary
           Sample.pair_shape 0 Sample.empty).
  left. split; [reflexivity|]. split; [reflexivity|].
  exists (TAtom "a"). split; [simpl; auto|].
  intros [data Hd]. discriminate Hd.
Defined.

Lemma BufferFromBinary_creates_fresh_live_buffer_witness :
  env_resources
    (snd (BufferFromBinary Sample.exla Sample.bytes16 Sample.f32_4 1 true Sample.one_buffer))
    = [] /\
  fst (BufferFromBinary Sample.exla Sample.bytes16 Sample.f32_4 1 true Sample.one_buffer)
    = Returns (mkExlaBuffer 1 true).
Proof.
  assert (Hsize : (pjrt_ByteSizeOf (client_ Sample.exla) Sample.f32_4
                   <= length Sample.bytes16)%nat) by (apply Nat.leb_le; reflexivity).
  destruct (BufferFromBinary_creates_fresh_live_buffer Sample.exla Sample.bytes16
              Sample.f32_4 1 true Sample.one_buffer _ _ Hsize (surjective_pairing _))
    as [Hres _].
  split; [exact Hres | reflexivity].
Defined.

Lemma UnpackRunArguments_only_adds_live_buffers_witness :
  env_resources
    (snd (UnpackRunArguments Sample.bad_second_argument Sample.exla 0 Sample.one_buffer))
    = [] /\
  length (buffers
            (snd (UnpackRunArguments Sample.bad_second_argument Sample.exla 0
                    Sample.one_buffer))) = 2%nat.
Proof.
  destruct (UnpackRunArguments_only_adds_live_buffers Sample.bad_second_argument Sample.exla
              0 Sample.one_buffer _ _ (surjective_pairing _)) as [Hres _].
  split; [exact Hres | reflexivity].
Defined.

Lemma UnpackRunArguments_error_origin_witness :
  code (InvalidArgument "Expected argument to be buffer reference.") = INVALID_ARGUMENT \/
  pjrt_LookupDevice (client_ Sample.exla) 0
    = Failure (InvalidArgument "Expected argument to be buffer reference.") \/
  exists device w0 data shape,
    pjrt_LookupDevice (client_ Sample.exla) 0 = Value device /\
    pjrt_BufferFromHostBuffer (client_ Sample.exla) w0 data shape (device_id device)
      = Failure (InvalidArgument "Expected argument to be buffer reference.").
Proof.
  apply (UnpackRunArguments_error_origin Sample.bad_second_argument Sample.exla 0
           Sample.one_buffer _
           (snd (UnpackRunArguments Sample.bad_second_argument Sample.exla 0
                   Sample.one_buffer))).
  reflexivity.
Defined.

Lemma UnpackRunArguments_one_buffer_per_argument_witness :
  Forall2 (input_of 1
             (new_events Sample.one_buffer
                (snd (UnpackRunArguments Sample.arguments Sample.exla 1 Sample.one_buffer))))
          (list_cells Sample.arguments)
          [mkExlaBuffer 1 true; mkExlaBuffer 0 false].
Proof.
  destruct (UnpackRunArguments_one_buffer_per_argument Sample.arguments Sample.exla 1
              Sample.one_buffer [mkExlaBuffer 1 true; mkExlaBuffer 0 false]
              (snd (UnpackRunArguments Sample.arguments Sample.exla 1 Sample.one_buffer))
              eq_refl) as [H _].
  exact H.
Defined.

Lemma Run_inputs_waits_for_tagged_inputs_only_witness :
  env_resources
    (snd (Run_inputs [mkExlaBuffer 0 true; mkExlaBuffer 0 false] [] Sample.one_buffer))
    = [mkExlaBuffer 0 true].
Proof.
  destruct (Run_inputs_waits_for_tagged_inputs_only
              [mkExlaBuffer 0 true; mkExlaBuffer 0 false] Sample.one_buffer [0%nat; 0%nat]
              (snd (Run_inputs [mkExlaBuffer 0 true; mkExlaBuffer 0 false] []
                      Sample.one_buffer))
              eq_refl) as [_ [_ [H _]]].
  exact H.
Defined.

Lemma Run_inputs_failed_wait_stops_tracking_witness :
  exists before b after,
    [mkExlaBuffer 0 true; mkExlaBuffer 0 true] = before ++ b :: after /\
    release_after_run b = true /\
    env_resources
      (snd (Run_inputs [mkExlaBuffer 0 true; mkExlaBuffer 0 true] [] Sample.unready_buffer))
      = env_resources Sample.unready_buffer ++ List.filter release_after_run before.
Proof.
  destruct (Run_inputs_failed_wait_stops_tracking
              [mkExlaBuffer 0 true; mkExlaBuffer 0 true] Sample.unready_buffer Sample.failed
              (snd (Run_inputs [mkExlaBuffer 0 true; mkExlaBuffer 0 true] []
                      Sample.unready_buffer))
              eq_refl) as [before [b [after [E [R [Hres _]]]]]].
  exists before, b, after. auto.
Defined.

Lemma Run_returns_ok_or_error_term_witness :
  (exists outs, run_ok [TBinary Sample.bytes16] = run_ok outs) \/
  (exists msg, run_ok [TBinary Sample.bytes16] = nif_error msg).
Proof.
  apply (Run_returns_ok_or_error_term Sample.layouts_equal Sample.relayout Sample.exe
           Sample.arguments false (-1) Sample.one_buffer
           (Returns (run_ok [TBinary Sample.bytes16]))
           (snd (Run Sample.layouts_equal Sample.relayout Sample.exe Sample.arguments
                     false (-1) Sample.one_buffer))).
  reflexivity.
Defined.

Lemma ToBinary_reads_only_and_repeats_witness :
  fst (ToBinary Sample.layouts_equal Sample.relayout (mkExlaBuffer 1 false) (-1)
         (snd (ToBinary Sample.layouts_equal Sample.relayout (mkExlaBuffer 1 false) (-1)
                 Sample.three_buffers)))
  = Fails Sample.failed.
Proof.
  destruct (ToBinary_reads_only_and_repeats Sample.layouts_equal Sample.relayout
              (mkExlaBuffer 1 false) (-1) Sample.three_buffers (Fails Sample.failed)
              (snd (ToBinary Sample.layouts_equal Sample.relayout (mkExlaBuffer 1 false)
                      (-1) Sample.three_buffers))
              eq_refl) as [_ [_ [H _]]].
  exact H.
Defined.

Lemma UnpackResult_reads_back_every_result_in_order_witness :
  length (buffers
            (snd (UnpackResult Sample.layouts_equal Sample.relayout [2%nat; 0%nat] false
                    Sample.three_buffers))) = 3%nat.
Proof.
  destruct (UnpackResult_reads_back_every_result_in_order Sample.layouts_equal
              Sample.relayout [2%nat; 0%nat] Sample.three_buffers
              [TBinary Sample.bytes16; TBinary Sample.bytes16]
              (snd (UnpackResult Sample.layouts_equal Sample.relayout [2%nat; 0%nat] false
                      Sample.three_buffers))
              eq_refl) as [_ [_ H]].
  exact H.
Defined.

Lemma UnpackResult_failed_readback_leaves_that_buffer_witness :
  exists before h after,
    [0%nat; 1%nat; 2%nat] = before ++ h :: after /\
    buffers (snd (UnpackResult Sample.layouts_equal Sample.relayout [0%nat; 1%nat; 2%nat]
                    false Sample.three_buffers)) !! h
      = buffers Sample.three_buffers !! h.
Proof.
  destruct (UnpackResult_failed_readback_leaves_that_buffer Sample.layouts_equal
              Sample.relayout [0%nat; 1%nat; 2%nat] Sample.three_buffers "failed"
              (snd (UnpackResult Sample.layouts_equal Sample.relayout [0%nat; 1%nat; 2%nat]
                      false Sample.three_buffers)))
    as [before [h [after [E [_ [_ [H _]]]]]]].
  - repeat constructor; simpl; intuition lia.
  - reflexivity.
  - exists before, h, after. auto.
Defined.

Lemma Deallocate_touches_only_the_deleted_flag_witness :
  length (buffers (snd (Deallocate (mkExlaBuffer 1 false) Sample.three_buffers))) = 3%nat.
Proof.
  destruct (Deallocate_touches_only_the_deleted_flag (mkExlaBuffer 1 false)
              Sample.three_buffers _ _ (surjective_pairing _)) as [_ [H _]].
  exact H.
Defined.

Lemma BufferFromBinary_then_Deallocate_once_witness :
  exists w2 e,
    Deallocate (mkExlaBuffer 1 true)
      (snd (BufferFromBinary Sample.exla Sample.bytes16 Sample.f32_4 1 true
              Sample.one_buffer))
      = (Returns tt, w2) /\
    Deallocate (mkExlaBuffer 1 true) w2 = (Fails e, w2) /\ code e = FAILED_PRECONDITION.
Proof.
  apply (BufferFromBinary_then_Deallocate_once Sample.exla Sample.bytes16 Sample.f32_4 1
           true Sample.one_buffer (mkExlaBuffer 1 true)).
  reflexivity.
Defined.

Lemma Compile_depends_on_element_types_and_dimensions_only_witness :
  Compile Sample.exla (mkXlaComputation []) [Sample.f32_4] (mkBuildOptions 1 1) true
    Sample.empty =
  Compile Sample.exla (mkXlaComputation []) [Sample.f32_4_other] (mkBuildOptions 1 1) true
    Sample.empty.
Proof.
  apply (Compile_depends_on_element_types_and_dimensions_only Sample.exla
           (mkXlaComputation []) [Sample.f32_4] [Sample.f32_4_other] (mkBuildOptions 1 1)
           true Sample.empty).
  constructor; [split; reflexivity | constructor].
Defined.

Lemma Run_on_untagged_handles_is_the_dispatch_witness :
  Run Sample.layouts_equal Sample.relayout Sample.exe
      (TList (map TBuffer [mkExlaBuffer 0 false])) true 1 Sample.one_buffer =
  Run_dispatch Sample.layouts_equal Sample.relayout Sample.exe
               (map buffer [mkExlaBuffer 0 false]) true 1 Sample.options Sample.one_buffer.
Proof.
  apply (Run_on_untagged_handles_is_the_dispatch Sample.layouts_equal Sample.relayout
           Sample.exe [mkExlaBuffer 0 false] true 1 Sample.one_buffer).
  constructor; [reflexivity | constructor].
Defined.

Lemma Run_kept_outputs_are_resources_witness :
  Forall (fun t => exists h,
            t = TBuffer (mkExlaBuffer h false) /\
            In (mkExlaBuffer h false)
               (env_resources
                  (snd (Run Sample.layouts_equal Sample.relayout Sample.exe
                            Sample.arguments true (-1) Sample.one_buffer))))
         [TBuffer (mkExlaBuffer 2 false)].
Proof.
  apply (Run_kept_outputs_are_resources Sample.layouts_equal Sample.relayout Sample.exe
           Sample.arguments (-1) Sample.one_buffer [TBuffer (mkExlaBuffer 2 false)]).
  reflexivity.
Defined.

Lemma Run_dispatch_aborts_only_without_replica_witness :
  fst (Run_dispatch Sample.layouts_equal Sample.relayout Sample.exe_no_replica [0%nat]
         false (-1) Sample.options Sample.one_buffer) = Aborts.
Proof.
  assert (Hsome : some_results (executable_ Sample.exe_no_replica)).
  { split.
    - intros w0 args dev options cs H. inversion H. discriminate.
    - intros w0 args options css H. inversion H. constructor. }
  apply (proj2 (Run_dispatch_aborts_only_without_replica Sample.layouts_equal
                  Sample.relayout Sample.exe_no_replica [0%nat] false (-1) Sample.options
                  Sample.one_buffer Hsome)).
  split; [lia|]. eexists. reflexivity.
Defined.

Lemma Run_aborts_only_without_replica_witness :
  In (EvResults [])
     (new_events Sample.one_buffer
        (snd (Run Sample.layouts_equal Sample.relayout Sample.exe_no_replica
                  Sample.arguments false (-1) Sample.one_buffer))).
Proof.
  apply (Run_aborts_only_without_replica Sample.layouts_equal Sample.relayout
           Sample.exe_no_replica Sample.arguments false (-1) Sample.one_buffer).
  - unfold wf_arguments. simpl.
    constructor; [simpl; lia|]. constructor; [|constructor].
    simpl. intros Hr. discriminate Hr.
  - unfold sized_arguments. simpl.
    constructor; [apply Nat.leb_le; reflexivity|]. constructor; [exact I|constructor].
  - split.
    + intros w0 args dev options cs H. inversion H. discriminate.
    + intros w0 args options css H. inversion H. constructor.
  - reflexivity.
Defined.
